(** * The board engine of 2048.py (class [Board])

    A shallow embedding of the engine part of [src/2048.py]: the grid, the
    four swipes, [perform_move], [add_tile], [undo], [get_empty_tiles] and
    [is_game_over].  Python lists are lists with Python's index rules
    (negative indices count from the end, anything else out of range raises
    [IndexError]); a method that mutates [self] is a function from the board
    to the new board inside an error monad; the two draws that [add_tile]
    takes from [random] are arguments. *)

From Stdlib Require Import ZArith QArith Lia.
From stdpp Require Import base decidable option list numbers strings.

Close Scope Q_scope.
Open Scope Z_scope.

(** ** Exceptions and the error monad *)

Inductive exn : Set :=
  | IndexError
  | ZeroDivisionError
  | AssertionError
  | TypeError.

Inductive result (A : Type) : Type :=
  | Ok (a : A)
  | Raise (e : exn).
Arguments Ok {A} a.
Arguments Raise {A} e.

Global Instance result_ret : MRet result := λ A, Ok.
Global Instance result_bind : MBind result :=
  λ A B f m, match m with Ok a => f a | Raise e => Raise e end.

(** [for x in xs: body], the loop state threaded through the body. *)
Fixpoint for_ {A S : Type} (xs : list A) (body : A → S → result S) (s : S)
  : result S :=
  match xs with
  | [] => Ok s
  | x :: xs' => s' ← body x s; for_ xs' body s'
  end.

(** A loop whose body may [return]: [Some r] is the returned value, [None]
    means the loop ran to its end. *)
Fixpoint for_return {A R : Type} (xs : list A) (body : A → result (option R))
  : result (option R) :=
  match xs with
  | [] => Ok None
  | x :: xs' =>
      r ← body x;
      match r with
      | Some v => Ok (Some v)
      | None => for_return xs' body
      end
  end.

(** ** Python lists *)

(** The position a Python index designates in a list of length [len]. *)
Definition norm_index (len : nat) (i : Z) : option nat :=
  if bool_decide (0 ≤ i < Z.of_nat len) then Some (Z.to_nat i)
  else if bool_decide (- Z.of_nat len ≤ i < 0) then Some (Z.to_nat (Z.of_nat len + i))
  else None.

(** [l[i]] *)
Definition getitem {A : Type} (l : list A) (i : Z) : result A :=
  match norm_index (length l) i with
  | Some n => match l !! n with Some v => Ok v | None => Raise IndexError end
  | None => Raise IndexError
  end.

(** [l[i] = v] *)
Definition setitem {A : Type} (l : list A) (i : Z) (v : A) : result (list A) :=
  match norm_index (length l) i with
  | Some n => Ok (<[n := v]> l)
  | None => Raise IndexError
  end.

(** [range(n)] *)
Definition range (n : Z) : list Z := seqZ 0 n.

(** [range(start, stop, -1)] *)
Definition range_down (start stop : Z) : list Z :=
  (λ i : nat, start - Z.of_nat i) <$> seq 0 (Z.to_nat (start - stop)).

(** ** The random source

    [random.randint] and [random.choice] read the process-wide generator;
    here the raw draw is an argument, reduced into the range the call asks
    for, so that every natural number is an outcome. *)

Definition randint (lo hi : Z) (draw : nat) : Z :=
  lo + Z.of_nat draw `mod` (hi - lo + 1).

Definition choice {A : Type} (l : list A) (draw : nat) : result A :=
  match l with
  | [] => Raise IndexError
  | _ => getitem l (Z.of_nat draw `mod` Z.of_nat (length l))
  end.

(** ** The board *)

(** A cell: [None] is Python's [None] (empty), [Some v] the tile [v]. *)
Abbreviation tile := (option Z).
Abbreviation Grid := (list (list tile)).

Record Board : Type := mkBoard {
  _size : Z;
  _grid : Grid;
  _prev_grid : option Grid;
  _undo_available : bool;
  _score : Z;
  _tile_size : Q;                              (* a float in the source *)
  _color_scheme : option (list (tile * string))
}.

Definition set_grid (self : Board) (g : Grid) : Board :=
  mkBoard (_size self) g (_prev_grid self) (_undo_available self)
          (_score self) (_tile_size self) (_color_scheme self).

Definition set_prev_grid (self : Board) (p : option Grid) : Board :=
  mkBoard (_size self) (_grid self) p (_undo_available self)
          (_score self) (_tile_size self) (_color_scheme self).

Definition set_undo_available (self : Board) (u : bool) : Board :=
  mkBoard (_size self) (_grid self) (_prev_grid self) u
          (_score self) (_tile_size self) (_color_scheme self).

Definition set_score (self : Board) (s : Z) : Board :=
  mkBoard (_size self) (_grid self) (_prev_grid self) (_undo_available self)
          s (_tile_size self) (_color_scheme self).

(** [a / b] on ints: the exact quotient (Python rounds it to a float). *)
Definition true_div (a b : Z) : result Q :=
  if bool_decide (b = 0) then Raise ZeroDivisionError
  else Ok (Qdiv (inject_Z a) (inject_Z b)).

(** [Board.__init__] *)
Definition __init__ (size : Z) (colors : option (list (tile * string)))
  : result Board :=
  let grid := (λ _, (λ _, None) <$> range size) <$> range size in
  tile_size ← true_div (392 - 8 * size) size;
  Ok (mkBoard size grid None false 0 tile_size colors).

(** [self._grid[y][x]] *)
Definition grid_getitem (self : Board) (y x : Z) : result tile :=
  row ← getitem (_grid self) y;
  getitem row x.

(** [self._grid[y][x] = v]: the row object is looked up and updated in
    place; rows are never shared between grids, so by value this replaces
    row [y]. *)
Definition grid_setitem (self : Board) (y x : Z) (v : tile) : result Board :=
  row ← getitem (_grid self) y;
  row' ← setitem row x v;
  g ← setitem (_grid self) y row';
  Ok (set_grid self g).

(** [Board.get_empty_tiles] *)
Definition get_empty_tiles (self : Board) : result (list (Z * Z)) :=
  for_ (range (_size self)) (λ y empty_locs,
    for_ (range (_size self)) (λ x empty_locs,
      t ← grid_getitem self y x;
      match t with
      | None => Ok (empty_locs ++ [(x, y)])
      | Some _ => Ok empty_locs
      end) empty_locs) [].

(** [Board.add_tile]; [d_num] and [d_loc] are the two draws. *)
Definition add_tile (d_num d_loc : nat) (self : Board) : result Board :=
  let num := randint 1 2 d_num * 2 in
  empty ← get_empty_tiles self;
  '(x, y) ← choice empty d_loc;
  grid_setitem self y x (Some num).

(** [Board.can_undo] *)
Definition can_undo (self : Board) : bool := _undo_available self.

(** The merge step shared verbatim by the four swipes (the body of
    [if cur_tile is not None:]), on the line being built and the board. *)
Definition merge_tile (cur_tile : tile) (st : Board * list Z)
  : result (Board * list Z) :=
  let '(self, row) := st in
  match cur_tile with
  | Some cur =>
      lst ← getitem row (-1);
      if bool_decide (cur = lst) then
        row ← setitem row (-1) (cur * 2);
        lst ← getitem row (-1);
        Ok (set_score self (_score self + lst), row ++ [0])
      else Ok (self, row ++ [cur])
  | None => Ok (self, row)
  end.

(** [Board.swipe_left] *)
Definition swipe_left (self : Board) : result Board :=
  for_ (range (_size self)) (λ y self,
    '(self, row) ← for_ (range (_size self)) (λ x '(self, row),
        cur_tile ← grid_getitem self y x;
        self ← grid_setitem self y x None;
        merge_tile cur_tile (self, row)) (self, [0]);
    '(self, _) ← for_ row (λ num '(self, x),
        if bool_decide (num ≠ 0) then
          self ← grid_setitem self y x (Some num);
          Ok (self, x + 1)
        else Ok (self, x)) (self, 0);
    Ok self) self.

(** [Board.swipe_right] *)
Definition swipe_right (self : Board) : result Board :=
  for_ (range (_size self)) (λ y self,
    '(self, row) ← for_ (range_down (_size self - 1) (-1)) (λ x '(self, row),
        cur_tile ← grid_getitem self y x;
        self ← grid_setitem self y x None;
        merge_tile cur_tile (self, row)) (self, [0]);
    '(self, _) ← for_ row (λ num '(self, x),
        if bool_decide (num ≠ 0) then
          self ← grid_setitem self y x (Some num);
          Ok (self, x - 1)
        else Ok (self, x)) (self, -1);
    Ok self) self.

(** [Board.swipe_up] *)
Definition swipe_up (self : Board) : result Board :=
  for_ (range (_size self)) (λ x self,
    '(self, column) ← for_ (range (_size self)) (λ y '(self, column),
        cur_tile ← grid_getitem self y x;
        self ← grid_setitem self y x None;
        merge_tile cur_tile (self, column)) (self, [0]);
    '(self, _) ← for_ column (λ num '(self, y),
        if bool_decide (num ≠ 0) then
          self ← grid_setitem self y x (Some num);
          Ok (self, y + 1)
        else Ok (self, y)) (self, 0);
    Ok self) self.

(** [Board.swipe_down] *)
Definition swipe_down (self : Board) : result Board :=
  for_ (range (_size self)) (λ x self,
    '(self, column) ← for_ (range_down (_size self - 1) (-1)) (λ y '(self, column),
        cur_tile ← grid_getitem self y x;
        self ← grid_setitem self y x None;
        merge_tile cur_tile (self, column)) (self, [0]);
    '(self, _) ← for_ column (λ num '(self, y),
        if bool_decide (num ≠ 0) then
          self ← grid_setitem self y x (Some num);
          Ok (self, y - 1)
        else Ok (self, y)) (self, -1);
    Ok self) self.

(** [copy = []; for row in g: copy.append(row.copy())] *)
Definition copy_grid (g : Grid) : Grid :=
  foldl (λ copy row, copy ++ [row]) [] g.

(** The [if direction == "l": ... elif ...] chain of [perform_move]. *)
Definition swipe (direction : string) (self : Board) : result Board :=
  if bool_decide (direction = "l") then swipe_left self
  else if bool_decide (direction = "r") then swipe_right self
  else if bool_decide (direction = "u") then swipe_up self
  else if bool_decide (direction = "d") then swipe_down self
  else Ok self.

(** [Board.perform_move]; the draws are those of the [add_tile] call. *)
Definition perform_move (direction : string) (d_num d_loc : nat) (self : Board)
  : result Board :=
  if bool_decide (direction ∈ ["l"; "r"; "u"; "d"]) then
    let copy := copy_grid (_grid self) in
    self ← swipe direction self;
    if bool_decide (_grid self ≠ copy) then
      let self := set_prev_grid self (Some copy) in
      let self := set_undo_available self true in
      add_tile d_num d_loc self
    else Ok (set_grid self copy)
  else Raise AssertionError.

(** [Board.get_max] *)
Definition get_max (self : Board) : Z :=
  foldl (λ max_tile row,
    foldl (λ max_tile t,
      match t with
      | Some v => if bool_decide (v > max_tile) then v else max_tile
      | None => max_tile
      end) max_tile row) 0 (_grid self).

(** [Board.undo] *)
Definition undo (self : Board) : result Board :=
  if _undo_available self then
    match _prev_grid self with
    | Some prev => Ok (set_undo_available (set_grid self (copy_grid prev)) false)
    | None => Raise TypeError
    end
  else Ok self.

(** [Board._get_adjacent_tiles] *)
Definition _get_adjacent_tiles (self : Board) (x y : Z) : result (list tile) :=
  if bool_decide (0 ≤ x < _size self) then
  if bool_decide (0 ≤ y < _size self) then
    let adj_tiles := [] in
    adj_tiles ←
      (if bool_decide (0 < x) then
         t ← grid_getitem self y (x - 1); Ok (adj_tiles ++ [t])
       else Ok adj_tiles);
    adj_tiles ←
      (if bool_decide (x < _size self - 1) then
         t ← grid_getitem self y (x + 1); Ok (adj_tiles ++ [t])
       else Ok adj_tiles);
    adj_tiles ←
      (if bool_decide (0 < y) then
         t ← grid_getitem self (y - 1) x; Ok (adj_tiles ++ [t])
       else Ok adj_tiles);
    adj_tiles ←
      (if bool_decide (y < _size self - 1) then
         t ← grid_getitem self y (y + 1); Ok (adj_tiles ++ [t])
       else Ok adj_tiles);
    Ok adj_tiles
  else Raise AssertionError
  else Raise AssertionError.

(** [Board.is_game_over] *)
Definition is_game_over (self : Board) : result bool :=
  empty ← get_empty_tiles self;
  if bool_decide (empty ≠ []) then Ok false
  else
    r ← for_return (range (_size self)) (λ y,
          for_return (range (_size self)) (λ x,
            t ← grid_getitem self y x;
            adj ← _get_adjacent_tiles self x y;
            if bool_decide (t ∈ adj) then Ok (Some false) else Ok None));
    match r with
    | Some b => Ok b
    | None => Ok true
    end.

(** ** Grids by position

    A position is [(y, x)]: row first, as in [self._grid[y][x]]. *)

Definition wf_grid (n : nat) (g : Grid) : Prop :=
  length g = n ∧ Forall (λ row, length row = n) g.

(** The shape every board built by [__init__] has and keeps. *)
Definition wf (self : Board) : Prop :=
  wf_grid (Z.to_nat (_size self)) (_grid self).

Definition in_grid (n : nat) (p : nat * nat) : Prop :=
  (p.1 < n)%nat ∧ (p.2 < n)%nat.

Definition cell (g : Grid) (p : nat * nat) : option tile :=
  row ← g !! p.1; row !! p.2.

Definition tile_at (g : Grid) (p : nat * nat) : tile :=
  default None (cell g p).

Definition upd (g : Grid) (p : nat * nat) (v : tile) : Grid :=
  alter (<[p.2 := v]>) p.1 g.

(** ** One line of a swipe, as a function on the line

    [merge_line out lst line] is the list the scan loop has built after
    [line], started from the list [out ++ [lst]], with the score it added;
    [compact] is the write-back loop on a line of [n] cells. *)

Fixpoint merge_line (out : list Z) (lst : Z) (line : list tile) : list Z * Z :=
  match line with
  | [] => (out ++ [lst], 0)
  | None :: line' => merge_line out lst line'
  | Some cur :: line' =>
      if bool_decide (cur = lst) then
        let '(row, s) := merge_line (out ++ [cur * 2]) 0 line' in
        (row, cur * 2 + s)
      else merge_line (out ++ [lst]) cur line'
  end.

Definition nonzero (row : list Z) : list Z := filter (λ num, num ≠ 0) row.

Definition compact (row : list Z) (n : nat) : list tile :=
  (Some <$> nonzero row) ++ replicate (n - length (nonzero row)) None.

Definition slide (line : list tile) : list tile :=
  compact (merge_line [] 0 line).1 (length line).

Definition gain (line : list tile) : Z := (merge_line [] 0 line).2.

(** The values of the tiles of a line, empty cells dropped. *)
Definition tiles_of (line : list tile) : list Z := omap id line.

(** What is common to the four swipes: the pass over one line, which is
    scanned at the indices [idxs], [at_ j] being the [(y, x)] of index [j],
    and written back from index [start] in steps of [step]. *)
Definition line_pass (idxs : list Z) (at_ : Z → Z * Z) (start step : Z)
    (self : Board) : result Board :=
  '(self, row) ← for_ idxs (λ j '(self, row),
      cur_tile ← grid_getitem self (at_ j).1 (at_ j).2;
      self ← grid_setitem self (at_ j).1 (at_ j).2 None;
      merge_tile cur_tile (self, row)) (self, [0]);
  '(self, _) ← for_ row (λ num '(self, j),
      if bool_decide (num ≠ 0) then
        self ← grid_setitem self (at_ j).1 (at_ j).2 (Some num);
        Ok (self, j + step)
      else Ok (self, j)) (self, start);
  Ok self.

(** Writing a list of tiles at a list of positions. *)
Definition put (pts : list ((nat * nat) * tile)) (g : Grid) : Grid :=
  foldl (λ g pt, upd g pt.1 pt.2) g pts.

(** Index [j] of the line is the cell at position [p]. *)
Definition designates (n : nat) (at_ : Z → Z * Z) (j : Z) (p : nat * nat) : Prop :=
  norm_index n (at_ j).1 = Some p.1 ∧ norm_index n (at_ j).2 = Some p.2.

Definition sumZ (l : list Z) : Z := foldr Z.add 0 l.

(** The score a swipe adds: the gains of its lines. *)
Definition total_gain (g : Grid) (lines : list (list (nat * nat))) : Z :=
  sumZ ((λ ps, gain (tile_at g <$> ps)) <$> lines).

(** Line [i] of a swipe is the list of positions [ps], in scan order: the
    swipe scans the indices [js_of size] of the line, [at_ i j] being the
    [(y, x)] of index [j], and writes back from [start] in steps of [step]. *)
Definition is_line (n : nat) (size : Z) (at_ : Z → Z → Z * Z)
    (js_of : Z → list Z) (start step : Z) (i : Z) (ps : list (nat * nat)) : Prop :=
  Forall2 (designates n (at_ i)) (js_of size) ps
  ∧ ∀ (k : nat) p, ps !! k = Some p →
      designates n (at_ i) (start + step * Z.of_nat k) p.

(** ** The lines of the four directions, in scan order *)

Definition line_left (n y : nat) : list (nat * nat) :=
  (λ x, (y, x)) <$> seq 0 n.
Definition line_right (n y : nat) : list (nat * nat) :=
  (λ k, (y, n - 1 - k)%nat) <$> seq 0 n.
Definition line_up (n x : nat) : list (nat * nat) :=
  (λ y, (y, x)) <$> seq 0 n.
Definition line_down (n x : nat) : list (nat * nat) :=
  (λ k, ((n - 1 - k)%nat, x)) <$> seq 0 n.

Definition lines_of (direction : string) (n : nat) : list (list (nat * nat)) :=
  if bool_decide (direction = "l") then line_left n <$> seq 0 n
  else if bool_decide (direction = "r") then line_right n <$> seq 0 n
  else if bool_decide (direction = "u") then line_up n <$> seq 0 n
  else if bool_decide (direction = "d") then line_down n <$> seq 0 n
  else [].

Definition valid_direction (direction : string) : Prop :=
  direction ∈ ["l"; "r"; "u"; "d"].

Definition line_sum (line : list tile) : Z := sumZ (tiles_of line).

(** *** Powers of two *)

Definition is_pow2 (v : Z) : Prop := ∃ k : nat, (1 ≤ k)%nat ∧ v = 2 ^ Z.of_nat k.

Definition valid_tile (t : tile) : Prop :=
  match t with
  | None => True
  | Some v => is_pow2 v
  end.

(** Every non-empty cell holds a power of 2 that is at least 2. *)
Definition valid_tiles (g : Grid) : Prop := Forall (Forall valid_tile) g.

(** ** Rows, columns and lines of a grid *)

Definition grid_row (g : Grid) (y : nat) : list tile := default [] (g !! y).

Definition grid_col (g : Grid) (x : nat) : list tile :=
  (λ row, default None (row !! x)) <$> g.

(** ** Empty cells *)

(** The positions of a grid of side [n], row by row. *)
Definition positions (n : nat) : list (nat * nat) :=
  mjoin (line_left n <$> seq 0 n).

Definition empty_positions (n : nat) (g : Grid) : list (nat * nat) :=
  filter (λ p, tile_at g p = None) (positions n).

(** A position as [get_empty_tiles] reports it: [(x, y)]. *)
Definition loc_of (p : nat * nat) : Z * Z := (Z.of_nat p.2, Z.of_nat p.1).

(** The cell [add_tile] picks, given the draw. *)
Definition picked (n : nat) (g : Grid) (d_loc : nat) : option (nat * nat) :=
  empty_positions n g !! (d_loc `mod` length (empty_positions n g))%nat.

(** ** A swipe, by rows and columns *)

(** Line [i] of a direction, in the order the swipe scans it: a row from
    the left or from the right, a column from the top or from the bottom. *)
Definition scan_line (direction : string) (g : Grid) (i : nat) : list tile :=
  if bool_decide (direction = "l") then grid_row g i
  else if bool_decide (direction = "r") then reverse (grid_row g i)
  else if bool_decide (direction = "u") then grid_col g i
  else reverse (grid_col g i).

(** ** Boards the engine can reach *)

(** What the shell can do with a board: build it, and call [perform_move],
    [add_tile] and [undo] on it, whatever the random source draws. *)
Inductive reachable : Board → Prop :=
  | reachable_init (size : Z) (colors : option (list (tile * string)))
      (self : Board) :
      __init__ size colors = Ok self → reachable self
  | reachable_perform_move (direction : string) (d_num d_loc : nat)
      (self self' : Board) :
      reachable self → perform_move direction d_num d_loc self = Ok self' →
      reachable self'
  | reachable_add_tile (d_num d_loc : nat) (self self' : Board) :
      reachable self → add_tile d_num d_loc self = Ok self' → reachable self'
  | reachable_undo (self self' : Board) :
      reachable self → undo self = Ok self' → reachable self'.

(** The invariant of the engine: the shape, the tile values of the grid and
    of the snapshot, and a snapshot whenever undo is available. *)
Definition board_inv (self : Board) : Prop :=
  wf self
  ∧ valid_tiles (_grid self)
  ∧ (∀ prev, _prev_grid self = Some prev →
       wf_grid (Z.to_nat (_size self)) prev ∧ valid_tiles prev)
  ∧ (_undo_available self = true → is_Some (_prev_grid self)).

(** ** The single-merge rule *)

(** [merged_once tiles out s]: the tiles [out] come from the tiles [tiles]
    in order, each of them either one tile of [tiles] kept as it is or two
    neighbouring equal tiles of [tiles] merged into their double; [s] is the
    sum of the doubles.  No tile of [tiles] is used twice. *)
Inductive merged_once : list Z → list Z → Z → Prop :=
  | merged_nil : merged_once [] [] 0
  | merged_keep (v : Z) (tiles out : list Z) (s : Z) :
      merged_once tiles out s → merged_once (v :: tiles) (v :: out) s
  | merged_pair (v : Z) (tiles out : list Z) (s : Z) :
      merged_once tiles out s →
      merged_once (v :: v :: tiles) (v * 2 :: out) (v * 2 + s).

(** ** Game over *)

(** Two positions next to each other in a row or in a column. *)
Definition adjacent (p q : nat * nat) : Prop :=
  (p.1 = q.1 ∧ (p.2 + 1 = q.2 ∨ q.2 + 1 = p.2)%nat)
  ∨ (p.2 = q.2 ∧ (p.1 + 1 = q.1 ∨ q.1 + 1 = p.1)%nat).

(** Game over as the specification words it: the grid is full and no two
    adjacent cells hold the same value. *)
Definition spec_game_over (n : nat) (g : Grid) : Prop :=
  (∀ p, in_grid n p → tile_at g p ≠ None)
  ∧ (∀ p q, in_grid n p → in_grid n q → adjacent p q → tile_at g p ≠ tile_at g q).

(** The same, over the list of positions, to be decided by computation. *)
Definition spec_game_over_list (n : nat) (g : Grid) : Prop :=
  Forall (λ p, tile_at g p ≠ None) (positions n)
  ∧ Forall (λ p, Forall (λ q, adjacent p q → tile_at g p ≠ tile_at g q)
                        (positions n)) (positions n).

Global Instance adjacent_dec (p q : nat * nat) : Decision (adjacent p q).
Proof. unfold adjacent. apply _. Defined.

Global Instance spec_game_over_list_dec (n : nat) (g : Grid) :
  Decision (spec_game_over_list n g).
Proof. unfold spec_game_over_list. apply _. Defined.

(** ** Boards to run the code on *)

Definition board_of (g : Grid) (score : Z) : Board :=
  mkBoard (Z.of_nat (length g)) g None false score
          (Qdiv (inject_Z (392 - 8 * Z.of_nat (length g))) (inject_Z (Z.of_nat (length g))))
          None.

(** A small board for running the code. *)
Definition board4 (g : Grid) (score : Z) : Board :=
  mkBoard 4 g None false score (Qdiv (inject_Z 360) (inject_Z 4)) None.

Definition empty_row4 : list tile := [None; None; None; None].

Definition seeded_board2 : Board :=
  mkBoard 2 [[Some 2; None]; [None; None]] None false 0
          (Qdiv (inject_Z 376) (inject_Z 2)) None.

Definition merge_board : Board :=
  board4 [[Some 2; Some 2; None; None]; empty_row4; empty_row4; empty_row4] 0.

Definition merge_board_moved : Board :=
  board4 [[Some 4; None; None; None]; empty_row4; empty_row4; empty_row4] 4.

Definition stuck_board : Board :=
  board4 [[Some 2; Some 4; None; None]; [Some 4; None; None; None];
          empty_row4; empty_row4] 12.

Definition columns_board : Board :=
  board4 [[Some 2; Some 2; None; None]; [None; None; None; None];
          [None; Some 2; None; Some 4];
          [Some 4; Some 4; Some 4; Some 4]] 0.

Definition board_2422 : Board :=
  board4 [empty_row4; [Some 2; Some 4; Some 2; Some 2]; empty_row4; empty_row4] 0.

Definition board_2222 : Board :=
  board4 [[Some 2; Some 2; Some 2; Some 2]; empty_row4; empty_row4; empty_row4] 0.

Definition undo_board : Board :=
  mkBoard 2 [[Some 4; None]; [Some 2; None]]
          (Some [[Some 2; None]; [Some 2; None]]) true 4
          (Qdiv (inject_Z 376) (inject_Z 2)) None.

Definition undone_board : Board :=
  mkBoard 2 [[Some 2; None]; [Some 2; None]]
          (Some [[Some 2; None]; [Some 2; None]]) false 4
          (Qdiv (inject_Z 376) (inject_Z 2)) None.

(** A full 4 × 4 board on which no move is left. *)
Definition final_board : Board :=
  board4 [[Some 2; Some 4; Some 2; Some 4];
          [Some 4; Some 2; Some 4; Some 2];
          [Some 2; Some 4; Some 2; Some 4];
          [Some 4; Some 2; Some 4; Some 2]] 0.

(** ** Further notions for the engine *)

(** All cells of a grid, row after row, and what they add up to. *)
Definition grid_total (g : Grid) : Z := line_sum (mjoin g).

(** The number of tiles on a grid. *)
Definition tile_count (g : Grid) : nat := length (tiles_of (mjoin g)).

(** No cell of a grid of side [n] is empty. *)
Definition full_grid (n : nat) (g : Grid) : Prop :=
  ∀ p, in_grid n p → tile_at g p ≠ None.

Definition full_board1 : Board := board_of [[Some 2]] 0.

(** [merge_board] after [perform_move("l")] with the draws 0 and 0. *)
Definition merge_board_played : Board :=
  mkBoard 4 [[Some 4; Some 2; None; None]; empty_row4; empty_row4; empty_row4]
          (Some (_grid merge_board)) true 4 (_tile_size merge_board) None.

(** ** The command-line game

    [command_line_game] reads lines with [input] and writes with [print].
    The lines still to be read are a list; what is written is a list of
    events.  [int] is Python's own conversion, an argument here ([None] is
    its [ValueError]); [draws i] are the two draws of the [add_tile] call of
    turn [i]. *)

(** What is written: the prompt of an [input], a [print(board)] (the board
    as it is at that moment, which [__str__] renders), a printed text. *)
Inductive out_event : Type :=
  | Prompt (s : string)
  | PrintBoard (b : Board)
  | PrintText (s : string).

(** How a run ends: the function returns, the engine raises, [input] finds
    the end of the input, or [int] rejects the line. *)
Inductive ending : Type :=
  | Returned
  | EngineError (e : exn)
  | EOFError
  | ValueError.

(** The [while command != "quit":] loop of [command_line_game]. *)
Fixpoint game_loop (draws : nat → nat * nat) (turn : nat) (board : Board)
    (command : string) (inputs : list string) {struct inputs}
  : list out_event * ending :=
  if bool_decide (command ≠ "quit") then
    match is_game_over board with
    | Raise e => ([], EngineError e)
    | Ok true => ([PrintText "Game over"], Returned)
    | Ok false =>
        match inputs with
        | [] => ([Prompt "> "], EOFError)
        | command :: inputs' =>
            let r :=
              if bool_decide (command ∈ ["l"; "r"; "u"; "d"]) then
                perform_move command (draws turn).1 (draws turn).2 board
              else if bool_decide (command = "undo") then undo board
              else Ok board in
            match r with
            | Raise e => ([Prompt "> "], EngineError e)
            | Ok board =>
                let '(out, e) := game_loop draws (S turn) board command inputs' in
                (Prompt "> " :: PrintBoard board :: out, e)
            end
        end
    end
  else ([], Returned).

(** [command_line_game] *)
Definition command_line_game (int : string → option Z) (draws : nat → nat * nat)
    (inputs : list string) : list out_event * ending :=
  match inputs with
  | [] => ([Prompt "Board size? "], EOFError)
  | line :: inputs' =>
      match int line with
      | None => ([Prompt "Board size? "], ValueError)
      | Some size =>
          match (board ← __init__ size None;
                 add_tile (draws 0%nat).1 (draws 0%nat).2 board) with
          | Raise e => ([Prompt "Board size? "], EngineError e)
          | Ok board =>
              let '(out, e) := game_loop draws 1 board "" inputs' in
              (Prompt "Board size? " :: PrintBoard board :: out, e)
          end
      end
  end.

(** An [int] that knows the numerals used in the runs below. *)
Definition int_small (s : string) : option Z :=
  if bool_decide (s = "4") then Some 4
  else if bool_decide (s = "1") then Some 1
  else if bool_decide (s = "0") then Some 0
  else if bool_decide (s = "-3") then Some (-3)
  else None.

(** ** Drawing and the window

    [draw] and the two event handlers talk to an object of the [graphics]
    module, which is not part of the program: what they do to it is the list
    of the calls they make.  Numbers passed to it are exact here (Python
    rounds those that involve [_tile_size] to floats); the text
    [f"Score: {score}"] and the number written on a tile are kept as the
    numbers they show. *)

Inductive text_arg : Type :=
  | TextStr (s : string)
  | TextScore (score : Z)          (* f"Score: {score}" *)
  | TextTile (v : Z).

Inductive canvas_call : Type :=
  | Clear
  | Rectangle (x y w h : Q) (color : string)
  | Text (x y : Q) (content : text_arg) (color : option string) (size : option Z)
  | Line (x1 y1 x2 y2 : Q) (color : string) (width : option Z)
  | Update
  | Destroy.                       (* window.primary.destroy() *)

(** What stops [draw] or a handler: an error of the engine ([TypeError]
    when the colour scheme is [None]) or the [KeyError] of a dict lookup,
    with the key that was missing ([None] or an int). *)
Inductive draw_error : Type :=
  | Engine (e : exn)
  | KeyError (key : tile).

(** [d[k]] on the dict [d], [None] when [k] is not a key. *)
Fixpoint dict_get (d : list (tile * string)) (k : tile) : option string :=
  match d with
  | [] => None
  | (k', v) :: d' => if bool_decide (k' = k) then Some v else dict_get d' k
  end.

(** A loop that logs canvas calls and stops at the first error. *)
Fixpoint for_draw {A : Type} (xs : list A)
    (body : A → list canvas_call → list canvas_call * option draw_error)
    (log : list canvas_call) : list canvas_call * option draw_error :=
  match xs with
  | [] => (log, None)
  | x :: xs' =>
      match body x log with
      | (log', None) => for_draw xs' body log'
      | (log', Some e) => (log', Some e)
      end
  end.

(** The body of the two loops of [draw], for the cell [(x, y)]. *)
Definition draw_cell (self : Board) (tile_size : Q) (x y : Z)
    (log : list canvas_call) : list canvas_call * option draw_error :=
  match grid_getitem self y x with
  | Raise e => (log, Some (Engine e))
  | Ok tile_num =>
      match _color_scheme self with
      | None => (log, Some (Engine TypeError))
      | Some d =>
          match dict_get d tile_num with
          | None => (log, Some (KeyError tile_num))
          | Some color =>
              let content := match tile_num with
                             | None => TextStr ""
                             | Some v => TextTile v
                             end in
              let px := (58 + (tile_size + 8) * inject_Z x)%Q in
              let py := (158 + (tile_size + 8) * inject_Z y)%Q in
              (log ++ [Rectangle px py tile_size tile_size color;
                       Text px py content None None], None)
          end
      end
  end.

(** The calls of [draw] before its loops. *)
Definition draw_header (self : Board) : list canvas_call :=
  [Clear;
   Rectangle 0 0 500 600 "light gray";
   Text 200 10 (TextStr "2048") (Some "green") (Some 40);
   Text 50 90 (TextScore (_score self)) (Some "blue") (Some 30);
   Rectangle 415 95 35 35 "blue";
   Line 430 122 442 122 "light blue" (Some 5);
   Line 442 125 442 103 "light blue" (Some 5);
   Line 445 103 421 103 "light blue" (Some 5);
   Line 423 103 423 118 "light blue" (Some 5);
   Line 423 118 418 112 "light blue" None;
   Line 422 118 429 112 "light blue" None;
   Line 416 112 431 112 "light blue" (Some 1);
   Rectangle 50 150 400 (inject_Z (600 - 200)) "dark gray"].

(** [Board.draw]: the calls made, and the error that stopped it if any. *)
Definition draw (self : Board) : list canvas_call * option draw_error :=
  let tile_size := _tile_size self in
  match for_draw (range (_size self)) (λ y log,
          for_draw (range (_size self)) (λ x log,
            draw_cell self tile_size x y log) log) (draw_header self) with
  | (log, None) => (log ++ [Update], None)
  | (log, Some e) => (log, Some e)
  end.

(** The [color_dictionary] of [main]. *)
Definition color_dictionary : list (tile * string) :=
  [(None, "gray"); (Some 2, "AntiqueWhite1"); (Some 4, "bisque2");
   (Some 8, "orange"); (Some 16, "dark orange"); (Some 32, "orange red");
   (Some 64, "red"); (Some 128, "LightGoldenrod1"); (Some 256, "goldenrod1");
   (Some 512, "purple")].



(** [mouse_input] *)
Definition mouse_input (x y : Z) (board : Board)
  : Board * list canvas_call * option draw_error :=
  if bool_decide ((415 ≤ x < 450) ∧ (95 ≤ y < 130)) then
    match undo board with
    | Raise e => (board, [], Some (Engine e))
    | Ok board => let '(log, e) := draw board in (board, log, e)
    end
  else (board, [], None).

Definition colored_board (g : Grid) (score : Z) : Board :=
  mkBoard 4 g None false score (Qdiv (inject_Z 360) (inject_Z 4))
          (Some color_dictionary).

Definition painted_board : Board :=
  colored_board [[Some 2; Some 2; None; None]; empty_row4; empty_row4; empty_row4] 0.

(** ** A game played up to the tile 1024 *)

(** A run of [perform_move] calls on one board, each with the two draws of
    its [add_tile]. *)
Definition play (moves : list (string * (nat * nat))) (board : Board)
  : result Board :=
  for_ moves (λ '(direction, (d_num, d_loc)) board,
    perform_move direction d_num d_loc board) board.

(** Left, right, up, down, the random source drawing a 4 for the first
    empty cell each time. *)
Definition round_lrud : list (string * (nat * nat)) :=
  [("l", (1, 0)); ("r", (1, 0)); ("u", (1, 0)); ("d", (1, 0))]%nat.

(** The board of [main] for size 4 after its [board.add_tile()], a 4 drawn
    for the first cell. *)
Definition started_board : Board :=
  colored_board [[Some 4; None; None; None]; empty_row4; empty_row4; empty_row4] 0.

(** [started_board] after 75 rounds: two tiles 512 side by side. *)
Definition board_512 : Board :=
  mkBoard 4
    [[Some 4; Some 4; None; Some 4];
     [None; Some 8; Some 16; Some 64];
     [None; Some 16; Some 32; Some 8];
     [Some 8; Some 8; Some 512; Some 512]]
    (Some [[Some 4; Some 4; Some 16; Some 4];
           [Some 4; Some 8; Some 32; Some 64];
           [None; Some 16; Some 512; Some 8];
           [None; Some 8; None; Some 512]])
    true 7616 (Qdiv (inject_Z 360) (inject_Z 4)) (Some color_dictionary).

(** [board_512] after one more round: the first tile 1024. *)
Definition board_1024 : Board :=
  mkBoard 4
    [[Some 4; None; Some 8; Some 8];
     [None; None; Some 16; Some 64];
     [None; Some 8; Some 32; Some 8];
     [Some 8; Some 16; Some 16; Some 1024]]
    (Some [[Some 4; Some 8; Some 8; Some 8];
           [Some 4; Some 16; Some 16; Some 64];
           [None; None; Some 32; Some 8];
           [None; None; Some 16; Some 1024]])
    true 8680 (Qdiv (inject_Z 360) (inject_Z 4)) (Some color_dictionary).

(** * Proofs *)

(** ** Small runs of the code *)

Example swipe_left_example :
  swipe_left columns_board
  = Ok (board4 [[Some 4; None; None; None];
                [None; None; None; None];
                [Some 2; Some 4; None; None];
                [Some 8; Some 8; None; None]] 20).
Proof. vm_compute. reflexivity. Qed.

Example swipe_right_example :
  swipe_right columns_board
  = Ok (board4 [[None; None; None; Some 4];
                [None; None; None; None];
                [None; None; Some 2; Some 4];
                [None; None; Some 8; Some 8]] 20).
Proof. vm_compute. reflexivity. Qed.

Example swipe_up_example :
  swipe_up columns_board
  = Ok (board4 [[Some 2; Some 4; Some 4; Some 8];
                [Some 4; Some 4; None; None];
                [None; None; None; None];
                [None; None; None; None]] 12).
Proof. vm_compute. reflexivity. Qed.

Example swipe_down_example :
  swipe_down columns_board
  = Ok (board4 [[None; None; None; None];
                [None; None; None; None];
                [Some 2; Some 4; None; None];
                [Some 4; Some 4; Some 4; Some 8]] 12).
Proof. vm_compute. reflexivity. Qed.

Example perform_move_example :
  perform_move "l" 0 0 merge_board
  = Ok (mkBoard 4 [[Some 4; Some 2; None; None]; empty_row4; empty_row4; empty_row4]
                (Some (_grid merge_board)) true 4
                (_tile_size merge_board) None).
Proof. vm_compute. reflexivity. Qed.

Example perform_move_bad_direction :
  perform_move "x" 0 0 merge_board = Raise AssertionError.
Proof. vm_compute. reflexivity. Qed.

Example add_tile_full_board : add_tile 0 0 final_board = Raise IndexError.
Proof. vm_compute. reflexivity. Qed.

Example get_empty_tiles_example :
  get_empty_tiles seeded_board2 = Ok [(1, 0); (0, 1); (1, 1)].
Proof. vm_compute. reflexivity. Qed.

Example is_game_over_side_1 :
  is_game_over (board_of [[Some 2]] 0) = Ok true.
Proof. vm_compute. reflexivity. Qed.

Example is_game_over_pair_left :
  is_game_over (board_of [[Some 2; Some 2]; [Some 4; Some 8]] 0) = Ok false.
Proof. vm_compute. reflexivity. Qed.

Example get_adjacent_tiles_example :
  _get_adjacent_tiles final_board 3 0 = Ok [Some 2; Some 4].
Proof. vm_compute. reflexivity. Qed.

(** ** Python indexing, by position *)

Lemma bind_Ok {A B : Type} (a : A) (f : A → result B) : (Ok a ≫= f) = f a.
Proof. reflexivity. Qed.

Lemma norm_index_nonneg (len k : nat) :
  (k < len)%nat → norm_index len (Z.of_nat k) = Some k.
Proof.
  intros Hk. unfold norm_index.
  rewrite bool_decide_eq_true_2 by lia. by rewrite Nat2Z.id.
Qed.

Lemma norm_index_neg (len k : nat) :
  (k < len)%nat → norm_index len (-1 - Z.of_nat k) = Some (len - 1 - k)%nat.
Proof.
  intros Hk. unfold norm_index.
  rewrite bool_decide_eq_false_2 by lia.
  rewrite bool_decide_eq_true_2 by lia. f_equal. lia.
Qed.

Lemma norm_index_lt (len : nat) (i : Z) (k : nat) :
  norm_index len i = Some k → (k < len)%nat.
Proof.
  unfold norm_index. repeat case_bool_decide; intros [= <-]; lia.
Qed.

Lemma getitem_Ok {A : Type} (l : list A) (i : Z) (k : nat) (v : A) :
  norm_index (length l) i = Some k → l !! k = Some v → getitem l i = Ok v.
Proof. intros Hi Hk. unfold getitem. by rewrite Hi, Hk. Qed.

Lemma setitem_Ok {A : Type} (l : list A) (i : Z) (k : nat) (v : A) :
  norm_index (length l) i = Some k → setitem l i v = Ok (<[k := v]> l).
Proof. intros Hi. unfold setitem. by rewrite Hi. Qed.

Lemma getitem_last {A : Type} (l : list A) (a : A) :
  getitem (l ++ [a]) (-1) = Ok a.
Proof.
  apply getitem_Ok with (k := length l).
  - rewrite length_app. simpl.
    replace (-1) with (-1 - Z.of_nat 0) by lia.
    rewrite norm_index_neg by lia. f_equal. lia.
  - by rewrite lookup_app_r, Nat.sub_diag by lia.
Qed.

Lemma setitem_last {A : Type} (l : list A) (a v : A) :
  setitem (l ++ [a]) (-1) v = Ok (l ++ [v]).
Proof.
  rewrite setitem_Ok with (k := length l).
  - f_equal. rewrite insert_app_r_alt, Nat.sub_diag by lia. done.
  - rewrite length_app. simpl.
    replace (-1) with (-1 - Z.of_nat 0) by lia.
    rewrite norm_index_neg by lia. f_equal. lia.
Qed.

Lemma for_app {A S : Type} (xs ys : list A) (body : A → S → result S) (s : S) :
  for_ (xs ++ ys) body s = (s' ← for_ xs body s; for_ ys body s').
Proof.
  revert s. induction xs as [|x xs IH]; intros s; simpl; [done|].
  destruct (body x s) as [s'|e]; simpl; [apply IH | done].
Qed.

Lemma for_ext {A S : Type} (xs : list A) (f g : A → S → result S) (s : S) :
  (∀ x s, x ∈ xs → f x s = g x s) → for_ xs f s = for_ xs g s.
Proof.
  revert s. induction xs as [|x xs IH]; intros s Hfg; simpl; [done|].
  rewrite Hfg by left. destruct (g x s) as [s'|e]; simpl; [|done].
  apply IH. intros y t Hy. apply Hfg. by right.
Qed.

Lemma for_fmap {A B S : Type} (h : A → B) (xs : list A)
    (body : B → S → result S) (s : S) :
  for_ (h <$> xs) body s = for_ xs (λ x, body (h x)) s.
Proof.
  revert s. induction xs as [|x xs IH]; intros s; simpl; [done|].
  destruct (body (h x) s); simpl; [apply IH | done].
Qed.

Lemma fst_zip_take {A B : Type} (l : list A) (k : list B) :
  (zip l k).*1 = take (length k) l.
Proof.
  revert k. induction l as [|a l IH]; intros [|b k]; simpl; [done..|].
  f_equal. apply IH.
Qed.

Lemma copy_grid_id (g : Grid) : copy_grid g = g.
Proof.
  unfold copy_grid.
  enough (∀ acc, foldl (λ copy row, copy ++ [row]) acc g = acc ++ g) as H
    by apply (H []).
  induction g as [|r g IH]; intros acc; simpl.
  - by rewrite app_nil_r.
  - rewrite IH, <- app_assoc. done.
Qed.

(** ** Grids by position *)

Lemma wf_grid_cell (n : nat) (g : Grid) (p : nat * nat) :
  wf_grid n g → in_grid n p → cell g p = Some (tile_at g p).
Proof.
  intros [Hlen Hrows] [Hy Hx]. unfold tile_at, cell.
  destruct (lookup_lt_is_Some_2 g p.1) as [row Hrow]; [lia|].
  rewrite Hrow. simpl.
  assert (length row = n) as Hr.
  { eapply Forall_forall in Hrows; [exact Hrows|]. eapply list_elem_of_lookup_2, Hrow. }
  destruct (lookup_lt_is_Some_2 row p.2) as [t Ht]; [lia|].
  by rewrite Ht.
Qed.

Lemma wf_grid_upd (n : nat) (g : Grid) (p : nat * nat) (v : tile) :
  wf_grid n g → wf_grid n (upd g p v).
Proof.
  intros [Hlen Hrows]. split; unfold upd.
  - by rewrite length_alter.
  - apply Forall_alter; [done|]. intros row _ Hrow.
    by rewrite length_insert.
Qed.

Lemma cell_upd_eq (n : nat) (g : Grid) (p : nat * nat) (v : tile) :
  wf_grid n g → in_grid n p → cell (upd g p v) p = Some v.
Proof.
  intros Hwf Hp. pose proof (wf_grid_cell n g p Hwf Hp) as Hc.
  unfold cell, upd in *.
  rewrite list_lookup_alter_eq.
  destruct (g !! p.1) as [row|]; simpl in *; [|done].
  apply list_lookup_insert_eq. by eapply lookup_lt_Some.
Qed.

Lemma cell_upd_ne (g : Grid) (p q : nat * nat) (v : tile) :
  p ≠ q → cell (upd g p v) q = cell g q.
Proof.
  intros Hne. unfold cell, upd.
  destruct (decide (p.1 = q.1)) as [Hy|Hy].
  - rewrite <- Hy, list_lookup_alter_eq.
    destruct (g !! p.1) as [row|]; simpl; [|done].
    apply list_lookup_insert_ne. intros Hx. apply Hne.
    destruct p, q; simpl in *; congruence.
  - by rewrite list_lookup_alter_ne.
Qed.

Lemma tile_at_upd_eq (n : nat) (g : Grid) (p : nat * nat) (v : tile) :
  wf_grid n g → in_grid n p → tile_at (upd g p v) p = v.
Proof. intros. unfold tile_at. by erewrite cell_upd_eq. Qed.

Lemma tile_at_upd_ne (g : Grid) (p q : nat * nat) (v : tile) :
  p ≠ q → tile_at (upd g p v) q = tile_at g q.
Proof. intros. unfold tile_at. by rewrite cell_upd_ne. Qed.

(** Two grids of the same shape with the same tiles are the same grid. *)
Lemma wf_grid_ext (n : nat) (g1 g2 : Grid) :
  wf_grid n g1 → wf_grid n g2 →
  (∀ p, in_grid n p → tile_at g1 p = tile_at g2 p) → g1 = g2.
Proof.
  intros Hwf1 Hwf2 Heq.
  apply list_eq_same_length with n; [apply Hwf2 | apply Hwf1 |].
  intros y r1 r2 Hy Hr1 Hr2.
  assert (length r1 = n) as Hl1.
  { destruct Hwf1 as [_ H]. eapply Forall_forall in H; [exact H|].
    eapply list_elem_of_lookup_2, Hr1. }
  assert (length r2 = n) as Hl2.
  { destruct Hwf2 as [_ H]. eapply Forall_forall in H; [exact H|].
    eapply list_elem_of_lookup_2, Hr2. }
  apply list_eq_same_length with n; [done..|].
  intros x t1 t2 Hx Ht1 Ht2.
  specialize (Heq (y, x) (conj Hy Hx)).
  unfold tile_at, cell in Heq. simpl in Heq.
  rewrite Hr1, Hr2 in Heq. simpl in Heq. rewrite Ht1, Ht2 in Heq. done.
Qed.

(** The two grid accesses of the source, on a well-shaped board. *)
Lemma grid_getitem_Ok (self : Board) (n : nat) (y x : Z) (p : nat * nat) :
  wf_grid n (_grid self) →
  norm_index n y = Some p.1 → norm_index n x = Some p.2 →
  grid_getitem self y x = Ok (tile_at (_grid self) p).
Proof.
  intros Hwf Hy Hx.
  assert (in_grid n p) as Hp by (split; eapply norm_index_lt; eauto).
  pose proof (wf_grid_cell _ _ _ Hwf Hp) as Hc.
  unfold cell in Hc. destruct (_grid self !! p.1) as [row|] eqn:Hrow; [|done].
  simpl in Hc. unfold grid_getitem.
  assert (length row = n) as Hr.
  { destruct Hwf as [_ H]. eapply Forall_forall in H; [exact H|].
    eapply list_elem_of_lookup_2, Hrow. }
  destruct Hwf as [Hlen _].
  rewrite (getitem_Ok _ y p.1 row) by (by rewrite ?Hlen). simpl.
  apply getitem_Ok with (k := p.2); by rewrite ?Hr.
Qed.

Lemma grid_setitem_Ok (self : Board) (n : nat) (y x : Z) (p : nat * nat) (v : tile) :
  wf_grid n (_grid self) →
  norm_index n y = Some p.1 → norm_index n x = Some p.2 →
  grid_setitem self y x v = Ok (set_grid self (upd (_grid self) p v)).
Proof.
  intros Hwf Hy Hx.
  assert (in_grid n p) as Hp by (split; eapply norm_index_lt; eauto).
  pose proof (wf_grid_cell _ _ _ Hwf Hp) as Hc.
  unfold cell in Hc. destruct (_grid self !! p.1) as [row|] eqn:Hrow; [|done].
  unfold grid_setitem.
  assert (length row = n) as Hr.
  { destruct Hwf as [_ H]. eapply Forall_forall in H; [exact H|].
    eapply list_elem_of_lookup_2, Hrow. }
  destruct Hwf as [Hlen _].
  rewrite (getitem_Ok _ y p.1 row) by (by rewrite ?Hlen). simpl.
  rewrite (setitem_Ok row x p.2) by (by rewrite Hr). simpl.
  rewrite (setitem_Ok (_grid self) y p.1) by (by rewrite Hlen). simpl.
  do 2 f_equal. unfold upd.
  apply list_eq. intros k. destruct (decide (k = p.1)) as [->|Hk].
  - rewrite list_lookup_alter_eq, Hrow. simpl.
    apply list_lookup_insert_eq. by eapply lookup_lt_Some.
  - by rewrite list_lookup_alter_ne, list_lookup_insert_ne.
Qed.

(** ** The pass over one line *)

Lemma swipe_left_line_pass (self : Board) :
  swipe_left self
  = for_ (range (_size self)) (λ y self,
      line_pass (range (_size self)) (λ x, (y, x)) 0 1 self) self.
Proof. reflexivity. Qed.

Lemma swipe_right_line_pass (self : Board) :
  swipe_right self
  = for_ (range (_size self)) (λ y self,
      line_pass (range_down (_size self - 1) (-1)) (λ x, (y, x)) (-1) (-1) self) self.
Proof. reflexivity. Qed.

Lemma swipe_up_line_pass (self : Board) :
  swipe_up self
  = for_ (range (_size self)) (λ x self,
      line_pass (range (_size self)) (λ y, (y, x)) 0 1 self) self.
Proof. reflexivity. Qed.

Lemma swipe_down_line_pass (self : Board) :
  swipe_down self
  = for_ (range (_size self)) (λ x self,
      line_pass (range_down (_size self - 1) (-1)) (λ y, (y, x)) (-1) (-1) self) self.
Proof. reflexivity. Qed.

Lemma wf_grid_put (n : nat) (pts : list ((nat * nat) * tile)) (g : Grid) :
  wf_grid n g → wf_grid n (put pts g).
Proof.
  revert g. induction pts as [|pt pts IH]; intros g Hwf; simpl; [done|].
  apply IH. by apply wf_grid_upd.
Qed.

Lemma tile_at_put_notin (pts : list ((nat * nat) * tile)) (g : Grid) (p : nat * nat) :
  p ∉ pts.*1 → tile_at (put pts g) p = tile_at g p.
Proof.
  revert g. induction pts as [|pt pts IH]; intros g Hp; simpl; [done|].
  rewrite fmap_cons, not_elem_of_cons in Hp. destruct Hp as [Hne Hp].
  rewrite IH by done. by apply tile_at_upd_ne.
Qed.

Lemma tile_at_put_in (n : nat) (pts : list ((nat * nat) * tile)) (g : Grid)
    (p : nat * nat) (t : tile) :
  wf_grid n g → NoDup pts.*1 → Forall (in_grid n) pts.*1 → (p, t) ∈ pts →
  tile_at (put pts g) p = t.
Proof.
  revert g. induction pts as [|pt pts IH]; intros g Hwf Hnd Hin Hp; simpl.
  - by apply elem_of_nil in Hp.
  - rewrite fmap_cons in Hnd, Hin.
    apply NoDup_cons in Hnd as [Hnotin Hnd].
    apply Forall_cons in Hin as [Hpt Hin].
    apply elem_of_cons in Hp as [<-|Hp].
    + simpl in *. rewrite tile_at_put_notin by done.
      by eapply tile_at_upd_eq.
    + apply IH; [by apply wf_grid_upd|done..].
Qed.

Lemma set_grid_id (self : Board) : set_grid self (_grid self) = self.
Proof. by destruct self. Qed.

Lemma set_score_id (self : Board) : set_score self (_score self) = self.
Proof. by destruct self. Qed.

Lemma length_nonzero_app (r1 r2 : list Z) :
  length (nonzero (r1 ++ r2)) = (length (nonzero r1) + length (nonzero r2))%nat.
Proof. unfold nonzero. by rewrite filter_app, length_app. Qed.

Lemma length_tiles_of (line : list tile) :
  (length (tiles_of line) ≤ length line)%nat.
Proof.
  induction line as [|[v|] line IH]; simpl; lia.
Qed.

(** Every tile adds at most one non-zero entry to the list being built; a
    scan that adds one for each tile has merged nothing, met no zero, and
    added nothing to the score. *)
Lemma merge_line_count (line : list tile) (out : list Z) (lst : Z) :
  (length (nonzero (merge_line out lst line).1)
   ≤ length (nonzero (out ++ [lst])) + length (tiles_of line))%nat
  ∧ (length (nonzero (merge_line out lst line).1)
     = (length (nonzero (out ++ [lst])) + length (tiles_of line))%nat →
     merge_line out lst line = (out ++ [lst] ++ tiles_of line, 0)
     ∧ Forall (λ v, v ≠ 0) (tiles_of line)).
Proof.
  revert out lst. induction line as [|[cur|] line IH]; intros out lst; simpl.
  - split; [lia|]. intros _. by split.
  - case_bool_decide as Hcur.
    + subst cur. destruct (IH (out ++ [lst * 2]) 0) as [Hle _].
      destruct (merge_line (out ++ [lst * 2]) 0 line) as [row s]. simpl in *.
      rewrite !length_nonzero_app in *. unfold nonzero in *.
      rewrite !filter_cons, !filter_nil in *. simpl in *.
      repeat case_decide; simpl in *; split; lia.
    + destruct (IH (out ++ [lst]) cur) as [Hle Heq].
      rewrite !length_nonzero_app in *|-.
      assert (length (nonzero [cur]) ≤ 1)%nat as Hc.
      { unfold nonzero. rewrite filter_cons, filter_nil. case_decide; simpl; lia. }
      rewrite !length_nonzero_app. split; [lia|]. intros Hlen.
      destruct Heq as [-> Hnz]; [lia|].
      split; [by rewrite <- !app_assoc|].
      constructor; [|done]. intros ->.
      unfold nonzero in Hlen, Hle. rewrite !filter_cons, !filter_nil in Hlen, Hle.
      repeat case_decide; simpl in *; lia.
  - apply IH.
Qed.

Lemma merge_line_length (line : list tile) :
  (length (nonzero (merge_line [] 0 line).1) ≤ length (tiles_of line))%nat.
Proof. destruct (merge_line_count line [] 0) as [H _]. exact H. Qed.

Section line_pass.
Variable n : nat.
Variable at_ : Z → Z * Z.

Lemma designates_in_grid (j : Z) (p : nat * nat) :
  designates n at_ j p → in_grid n p.
Proof. intros [H1 H2]. split; eapply norm_index_lt; eauto. Qed.

Lemma scan_loop_spec (js : list Z) (ps : list (nat * nat)) :
  Forall2 (designates n at_) js ps → NoDup ps →
  ∀ (self : Board) (out : list Z) (lst : Z),
    wf_grid n (_grid self) →
    for_ js (λ j '(self, row),
        cur_tile ← grid_getitem self (at_ j).1 (at_ j).2;
        self ← grid_setitem self (at_ j).1 (at_ j).2 None;
        merge_tile cur_tile (self, row)) (self, out ++ [lst])
    = let r := merge_line out lst (tile_at (_grid self) <$> ps) in
      Ok (set_score (set_grid self (put ((., None) <$> ps) (_grid self)))
                    (_score self + r.2), r.1).
Proof.
  induction 1 as [|j p js ps [Hy Hx] Hjs IH]; intros Hnd self out lst Hwf.
  - simpl. rewrite set_grid_id, Z.add_0_r, set_score_id. done.
  - apply NoDup_cons in Hnd as [Hp Hnd].
    cbn [for_].
    rewrite (grid_getitem_Ok self n _ _ p) by done. rewrite bind_Ok.
    rewrite (grid_setitem_Ok self n _ _ p) by done. rewrite bind_Ok.
    assert (tile_at (upd (_grid self) p None) <$> ps
            = tile_at (_grid self) <$> ps) as Hsame.
    { apply list_fmap_ext. intros i q Hq. apply tile_at_upd_ne.
      intros ->. apply Hp. eapply list_elem_of_lookup_2, Hq. }
    rewrite !fmap_cons.
    destruct (tile_at (_grid self) p) as [cur|]; cbn [merge_tile merge_line].
    + rewrite getitem_last, bind_Ok. case_bool_decide as Hcur.
      * rewrite setitem_last, bind_Ok, getitem_last, bind_Ok.
        rewrite <- app_assoc. cbn [app].
        replace (out ++ [cur * 2; 0]) with ((out ++ [cur * 2]) ++ [0])
          by (by rewrite <- app_assoc).
        rewrite bind_Ok, IH by (done || by apply wf_grid_upd).
        cbn [_grid _score set_score set_grid]. rewrite Hsame.
        destruct (merge_line (out ++ [cur * 2]) 0 (tile_at (_grid self) <$> ps))
          as [row s].
        destruct self; cbn. do 3 f_equal. lia.
      * rewrite bind_Ok, IH by (done || by apply wf_grid_upd).
        cbn [_grid _score set_score set_grid]. rewrite Hsame.
        by destruct self.
    + rewrite bind_Ok, IH by (done || by apply wf_grid_upd).
      cbn [_grid _score set_score set_grid]. rewrite Hsame.
      by destruct self.
Qed.

Lemma write_loop_spec (step : Z) (row : list Z) :
  ∀ (ps : list (nat * nat)) (x : Z) (self : Board),
    (∀ (i : nat) p, ps !! i = Some p → designates n at_ (x + step * Z.of_nat i) p) →
    (length (nonzero row) ≤ length ps)%nat →
    wf_grid n (_grid self) →
    for_ row (λ num '(self, j),
        if bool_decide (num ≠ 0) then
          self ← grid_setitem self (at_ j).1 (at_ j).2 (Some num);
          Ok (self, j + step)
        else Ok (self, j)) (self, x)
    = Ok (set_grid self (put (zip ps (Some <$> nonzero row)) (_grid self)),
          x + step * Z.of_nat (length (nonzero row))).
Proof.
  induction row as [|num row IH]; intros ps x self Hps Hlen Hwf.
  - simpl. rewrite zip_with_nil_r. simpl.
    rewrite set_grid_id. do 2 f_equal. lia.
  - cbn [for_]. unfold nonzero in *. rewrite filter_cons in *.
    destruct (decide (num ≠ 0)) as [Hnum|Hnum].
    + rewrite bool_decide_eq_true_2 by done.
      destruct ps as [|p ps]; [simpl in Hlen; lia|].
      destruct (Hps 0%nat p eq_refl) as [Hy Hx].
      replace (x + step * Z.of_nat 0) with x in Hy, Hx by lia.
      rewrite (grid_setitem_Ok self n _ _ p) by done.
      rewrite !bind_Ok, (IH ps).
      * cbn. destruct self; cbn. do 2 f_equal. lia.
      * intros i q Hq.
        replace (x + step + step * Z.of_nat i)
          with (x + step * Z.of_nat (S i)) by lia.
        by apply Hps.
      * simpl in Hlen. lia.
      * by apply wf_grid_upd.
    + rewrite bool_decide_eq_false_2 by done.
      rewrite bind_Ok. by apply IH.
Qed.

(** The pass over one line: the line holds its [slide], the score grows
    by its [gain], and no other cell changes. *)
Lemma line_pass_spec (js : list Z) (start step : Z) (ps : list (nat * nat))
    (self : Board) :
  wf_grid n (_grid self) → NoDup ps →
  Forall2 (designates n at_) js ps →
  (∀ (i : nat) p, ps !! i = Some p → designates n at_ (start + step * Z.of_nat i) p) →
  ∃ g' : Grid,
    line_pass js at_ start step self
    = Ok (set_score (set_grid self g')
                    (_score self + gain (tile_at (_grid self) <$> ps)))
    ∧ wf_grid n g'
    ∧ tile_at g' <$> ps = slide (tile_at (_grid self) <$> ps)
    ∧ ∀ p, p ∉ ps → tile_at g' p = tile_at (_grid self) p.
Proof.
  intros Hwf Hnd Hjs Hwr.
  set (line := tile_at (_grid self) <$> ps).
  set (g1 := put ((., None) <$> ps) (_grid self)).
  set (row := (merge_line [] 0 line).1).
  set (g2 := put (zip ps (Some <$> nonzero row)) g1).
  assert (length (nonzero row) ≤ length ps)%nat as Hlen.
  { subst row. etrans; [apply merge_line_length|].
    etrans; [apply length_tiles_of|]. subst line. by rewrite length_fmap. }
  assert (Forall (in_grid n) ps) as Hin.
  { apply Forall_lookup_2. intros i p Hp. eapply designates_in_grid, Hwr, Hp. }
  assert (wf_grid n g1) as Hwf1 by by apply wf_grid_put.
  exists g2. split; [|split; [by apply wf_grid_put|split]].
  - unfold line_pass.
    pose proof (scan_loop_spec js ps Hjs Hnd self [] 0 Hwf) as Hscan.
    cbn [app] in Hscan. rewrite Hscan. cbn zeta. rewrite bind_Ok.
    rewrite (write_loop_spec step _ ps) by done.
    rewrite !bind_Ok. by destruct self.
  - unfold slide, compact. fold row.
    apply list_eq. intros i.
    rewrite list_lookup_fmap.
    destruct (ps !! i) as [p|] eqn:Hp; simpl.
    + assert (i < length ps)%nat as Hi by by eapply lookup_lt_Some.
      destruct (nonzero row !! i) as [v|] eqn:Hv.
      * rewrite lookup_app_l
          by (rewrite length_fmap; by eapply lookup_lt_Some).
        rewrite list_lookup_fmap, Hv. simpl. f_equal.
        subst g2. eapply tile_at_put_in; [done| | |].
        -- rewrite fst_zip_take.
           eapply sublist_NoDup; [done | apply sublist_take].
        -- rewrite fst_zip_take. by apply Forall_take.
        -- apply list_elem_of_lookup. exists i.
           apply lookup_zip_with_Some. exists p, (Some v).
           by rewrite list_lookup_fmap, Hv.
      * apply lookup_ge_None in Hv.
        rewrite lookup_app_r by (rewrite length_fmap; lia).
        rewrite lookup_replicate_2
          by (subst line; rewrite !length_fmap; lia).
        f_equal. subst g2. rewrite tile_at_put_notin.
        -- subst g1. eapply tile_at_put_in; [done| | |].
           ++ rewrite <- list_fmap_compose. by rewrite list_fmap_id.
           ++ rewrite <- list_fmap_compose. by rewrite list_fmap_id.
           ++ apply list_elem_of_fmap. exists p. split; [done|].
              eapply list_elem_of_lookup_2, Hp.
        -- rewrite fst_zip_take, length_fmap.
           intros Hel. apply list_elem_of_lookup in Hel as [k Hk].
           apply lookup_take_Some in Hk as [Hk Hlt].
           assert (k = i) by (eapply NoDup_lookup; eauto). lia.
    + apply lookup_ge_None in Hp. symmetry. apply lookup_ge_None.
      rewrite length_app, length_fmap, length_replicate.
      subst line. rewrite length_fmap. lia.
  - intros p Hp. subst g2 g1. rewrite !tile_at_put_notin; [done| |].
    + rewrite <- list_fmap_compose. by rewrite list_fmap_id.
    + intros Hel. apply Hp.
      apply list_elem_of_fmap in Hel as [[q t] [-> Hel]].
      apply elem_of_zip_l in Hel. done.
Qed.
End line_pass.

Section all_lines.
Variable n : nat.
Variable size : Z.
Variable at_ : Z → Z → Z * Z.      (* line index, index in the line *)
Variable js_of : Z → list Z.       (* the scan indices, from [self._size] *)
Variables start step : Z.

Lemma all_lines_spec (idxs : list Z) (lines : list (list (nat * nat))) :
  Forall2 (is_line n size at_ js_of start step) idxs lines → NoDup (mjoin lines) →
  ∀ self : Board, _size self = size → wf_grid n (_grid self) →
  ∃ g' : Grid,
    for_ idxs (λ i self,
      line_pass (js_of (_size self)) (at_ i) start step self) self
    = Ok (set_score (set_grid self g')
                    (_score self + total_gain (_grid self) lines))
    ∧ wf_grid n g'
    ∧ Forall (λ ps, tile_at g' <$> ps = slide (tile_at (_grid self) <$> ps)) lines
    ∧ ∀ p, p ∉ mjoin lines → tile_at g' p = tile_at (_grid self) p.
Proof.
  induction 1 as [|i ps idxs lines [Hrd Hwr] Hrest IH];
    intros Hnd self Hsize Hwf.
  - exists (_grid self). simpl. unfold total_gain. simpl.
    rewrite set_grid_id, Z.add_0_r, set_score_id.
    split; [done|split; [done|split; [constructor|done]]].
  - simpl in Hnd. apply NoDup_app in Hnd as (Hps & Hdisj & Hnd).
    destruct (line_pass_spec n (at_ i) (js_of size) start step ps self
                Hwf Hps Hrd Hwr)
      as (g1 & Hrun & Hwf1 & Hline & Hother).
    destruct (IH Hnd (set_score (set_grid self g1)
                (_score self + gain (tile_at (_grid self) <$> ps))))
      as (g' & Hrun' & Hwf' & Hlines & Hother'); [done..|].
    cbn [_grid _score set_grid set_score] in *.
    assert (∀ qs, qs ∈ lines →
              tile_at g1 <$> qs = tile_at (_grid self) <$> qs) as Hsame.
    { intros qs Hqs. apply list_fmap_ext. intros k q Hq. apply Hother.
      intros Hin. apply (Hdisj q Hin).
      apply list_elem_of_join. exists qs. split; [|done].
      eapply list_elem_of_lookup_2, Hq. }
    exists g'. split; [|split; [done|split]].
    + cbn [for_]. rewrite Hsize, Hrun, bind_Ok, Hrun'. f_equal.
      unfold total_gain. rewrite fmap_cons. cbn [sumZ foldr].
      replace ((λ qs, gain (tile_at g1 <$> qs)) <$> lines)
        with ((λ qs, gain (tile_at (_grid self) <$> qs)) <$> lines).
      * unfold sumZ. destruct self; cbn. f_equal. lia.
      * apply list_fmap_ext. intros k qs Hqs. f_equal. symmetry.
        apply Hsame. eapply list_elem_of_lookup_2, Hqs.
    + constructor.
      * rewrite <- Hline. apply list_fmap_ext. intros k q Hq.
        apply Hother'. apply Hdisj. eapply list_elem_of_lookup_2, Hq.
      * apply Forall_forall. intros qs Hqs.
        rewrite Forall_forall in Hlines. rewrite (Hlines qs Hqs).
        f_equal. by apply Hsame.
    + intros p Hp. simpl in Hp. apply not_elem_of_app in Hp as [Hp1 Hp2].
      rewrite Hother' by done. by apply Hother.
Qed.
End all_lines.

(** ** The lines of the four directions *)

Lemma line_right_reverse (n y : nat) : line_right n y = reverse (line_left n y).
Proof.
  unfold line_right, line_left. apply list_eq. intros k.
  destruct (decide (k < n)%nat) as [Hk|Hk].
  - rewrite reverse_lookup by (rewrite length_fmap, length_seq; lia).
    rewrite !list_lookup_fmap, length_fmap, length_seq.
    rewrite !lookup_seq_lt by lia. simpl. do 2 f_equal. lia.
  - rewrite !lookup_ge_None_2; [done|..];
      rewrite ?length_reverse, length_fmap, length_seq; lia.
Qed.

Lemma line_down_reverse (n x : nat) : line_down n x = reverse (line_up n x).
Proof.
  unfold line_down, line_up. apply list_eq. intros k.
  destruct (decide (k < n)%nat) as [Hk|Hk].
  - rewrite reverse_lookup by (rewrite length_fmap, length_seq; lia).
    rewrite !list_lookup_fmap, length_fmap, length_seq.
    rewrite !lookup_seq_lt by lia. simpl. do 2 f_equal. lia.
  - rewrite !lookup_ge_None_2; [done|..];
      rewrite ?length_reverse, length_fmap, length_seq; lia.
Qed.

Lemma NoDup_join_fmap {A B : Type} (f : A → list B) (l : list A) :
  NoDup l → (∀ a, a ∈ l → NoDup (f a)) →
  (∀ a b x, a ∈ l → b ∈ l → x ∈ f a → x ∈ f b → a = b) →
  NoDup (mjoin (f <$> l)).
Proof.
  induction 1 as [|a l Ha Hl IH]; intros Hnd Hdisj; simpl; [constructor|].
  apply NoDup_app. split; [apply Hnd; left|split].
  - intros x Hx Hjoin. apply list_elem_of_join in Hjoin as (k & Hxk & Hk).
    apply list_elem_of_fmap in Hk as (b & -> & Hb).
    assert (a = b) as ->; [|done].
    apply (Hdisj a b x); [left|by right|done..].
  - apply IH.
    + intros b Hb. apply Hnd. by right.
    + intros b c x Hb Hc. apply Hdisj; by right.
Qed.

Lemma elem_of_line_left (n y : nat) (p : nat * nat) :
  p ∈ line_left n y ↔ p.1 = y ∧ (p.2 < n)%nat.
Proof.
  unfold line_left. rewrite list_elem_of_fmap. split.
  - intros (x & -> & Hx). apply elem_of_seq in Hx. simpl. lia.
  - intros [<- Hx]. exists p.2. split; [by destruct p|].
    apply elem_of_seq. lia.
Qed.

Lemma elem_of_line_up (n x : nat) (p : nat * nat) :
  p ∈ line_up n x ↔ p.2 = x ∧ (p.1 < n)%nat.
Proof.
  unfold line_up. rewrite list_elem_of_fmap. split.
  - intros (y & -> & Hy). apply elem_of_seq in Hy. simpl. lia.
  - intros [<- Hy]. exists p.1. split; [by destruct p|].
    apply elem_of_seq. lia.
Qed.

Lemma elem_of_line_right (n y : nat) (p : nat * nat) :
  p ∈ line_right n y ↔ p.1 = y ∧ (p.2 < n)%nat.
Proof. by rewrite line_right_reverse, elem_of_reverse, elem_of_line_left. Qed.

Lemma elem_of_line_down (n x : nat) (p : nat * nat) :
  p ∈ line_down n x ↔ p.2 = x ∧ (p.1 < n)%nat.
Proof. by rewrite line_down_reverse, elem_of_reverse, elem_of_line_up. Qed.

Lemma NoDup_line_left (n y : nat) : NoDup (line_left n y).
Proof.
  apply NoDup_fmap_2; [|apply NoDup_seq]. intros a b [= ->]. done.
Qed.

Lemma NoDup_line_up (n x : nat) : NoDup (line_up n x).
Proof.
  apply NoDup_fmap_2; [|apply NoDup_seq]. intros a b [= ->]. done.
Qed.

Lemma valid_direction_cases (direction : string) :
  valid_direction direction →
  direction = "l" ∨ direction = "r" ∨ direction = "u" ∨ direction = "d".
Proof.
  unfold valid_direction. rewrite !elem_of_cons, elem_of_nil. tauto.
Qed.

Lemma NoDup_lines_of (direction : string) (n : nat) :
  NoDup (mjoin (lines_of direction n)).
Proof.
  unfold lines_of. repeat case_bool_decide; try constructor;
    (apply NoDup_join_fmap; [apply NoDup_seq| |]).
  - intros. apply NoDup_line_left.
  - intros a b x _ _ Ha Hb.
    apply elem_of_line_left in Ha, Hb. lia.
  - intros. rewrite line_right_reverse, reverse_Permutation. apply NoDup_line_left.
  - intros a b x _ _ Ha Hb.
    apply elem_of_line_right in Ha, Hb. lia.
  - intros. apply NoDup_line_up.
  - intros a b x _ _ Ha Hb.
    apply elem_of_line_up in Ha, Hb. lia.
  - intros. rewrite line_down_reverse, reverse_Permutation. apply NoDup_line_up.
  - intros a b x _ _ Ha Hb.
    apply elem_of_line_down in Ha, Hb. lia.
Qed.

(** Every cell of the grid lies on a line of the direction, and the lines
    stay inside the grid. *)
Lemma lines_of_cover (direction : string) (n : nat) (p : nat * nat) :
  valid_direction direction → in_grid n p →
  ∃ ps, ps ∈ lines_of direction n ∧ p ∈ ps.
Proof.
  intros Hd [Hy Hx]. unfold lines_of.
  destruct (valid_direction_cases _ Hd) as [-> | [-> | [-> | ->]]]; simpl.
  - exists (line_left n p.1). split.
    + apply list_elem_of_fmap. exists p.1. split; [done|]. apply elem_of_seq. lia.
    + by apply elem_of_line_left.
  - exists (line_right n p.1). split.
    + apply list_elem_of_fmap. exists p.1. split; [done|]. apply elem_of_seq. lia.
    + by apply elem_of_line_right.
  - exists (line_up n p.2). split.
    + apply list_elem_of_fmap. exists p.2. split; [done|]. apply elem_of_seq. lia.
    + by apply elem_of_line_up.
  - exists (line_down n p.2). split.
    + apply list_elem_of_fmap. exists p.2. split; [done|]. apply elem_of_seq. lia.
    + by apply elem_of_line_down.
Qed.

Lemma lines_of_in_grid (direction : string) (n : nat) (ps : list (nat * nat))
    (p : nat * nat) :
  ps ∈ lines_of direction n → p ∈ ps → in_grid n p.
Proof.
  unfold lines_of, in_grid. repeat case_bool_decide;
    rewrite ?list_elem_of_fmap, ?elem_of_nil; try tauto;
    intros (i & -> & Hi) Hp; apply elem_of_seq in Hi.
  - apply elem_of_line_left in Hp. lia.
  - apply elem_of_line_right in Hp. lia.
  - apply elem_of_line_up in Hp. lia.
  - apply elem_of_line_down in Hp. lia.
Qed.

Lemma lines_of_length (direction : string) (n : nat) (ps : list (nat * nat)) :
  ps ∈ lines_of direction n → length ps = n.
Proof.
  unfold lines_of. repeat case_bool_decide;
    rewrite ?list_elem_of_fmap, ?elem_of_nil; try tauto;
    intros (i & -> & Hi);
    unfold line_left, line_right, line_up, line_down;
    by rewrite length_fmap, length_seq.
Qed.

(** ** The four swipes, line by line *)

Lemma Forall2_fmap_seq {A B : Type} (R : A → B → Prop) (f : nat → A)
    (g : nat → B) (n : nat) :
  (∀ k, (k < n)%nat → R (f k) (g k)) → Forall2 R (f <$> seq 0 n) (g <$> seq 0 n).
Proof.
  intros H. apply Forall2_fmap, Forall_Forall2_diag, Forall_forall.
  intros k Hk. apply H. apply elem_of_seq in Hk. lia.
Qed.

Lemma range_seq (size : Z) :
  range size = (λ k : nat, Z.of_nat k) <$> seq 0 (Z.to_nat size).
Proof.
  unfold range, seqZ. apply list_fmap_ext. intros _ k _. lia.
Qed.

Lemma range_down_seq (size : Z) :
  range_down (size - 1) (-1)
  = (λ k : nat, size - 1 - Z.of_nat k) <$> seq 0 (Z.to_nat size).
Proof. unfold range_down. do 3 f_equal. lia. Qed.

Lemma norm_index_down (size : Z) (k : nat) :
  (k < Z.to_nat size)%nat →
  norm_index (Z.to_nat size) (size - 1 - Z.of_nat k)
  = Some (Z.to_nat size - 1 - k)%nat.
Proof.
  intros Hk. unfold norm_index.
  rewrite bool_decide_eq_true_2 by lia. f_equal. lia.
Qed.

Lemma lookup_fmap_seq {A : Type} (f : nat → A) (n k : nat) (a : A) :
  (f <$> seq 0 n) !! k = Some a → (k < n)%nat ∧ a = f k.
Proof.
  rewrite list_lookup_fmap. intros H.
  destruct (seq 0 n !! k) as [j|] eqn:Hj; [|done].
  apply lookup_seq in Hj as [-> Hk]. simpl in H. by injection H as <-.
Qed.

Lemma swipe_left_lines (size : Z) :
  Forall2 (is_line (Z.to_nat size) size (λ y x, (y, x)) range 0 1)
          (range size) (line_left (Z.to_nat size) <$> seq 0 (Z.to_nat size)).
Proof.
  rewrite range_seq. apply Forall2_fmap_seq. intros y Hy. split.
  - rewrite range_seq. apply Forall2_fmap_seq. intros x Hx.
    split; simpl; by apply norm_index_nonneg.
  - intros k p Hp. apply lookup_fmap_seq in Hp as [Hk ->].
    replace (0 + 1 * Z.of_nat k) with (Z.of_nat k) by lia.
    split; simpl; by apply norm_index_nonneg.
Qed.

Lemma swipe_right_lines (size : Z) :
  Forall2 (is_line (Z.to_nat size) size (λ y x, (y, x))
                   (λ size, range_down (size - 1) (-1)) (-1) (-1))
          (range size) (line_right (Z.to_nat size) <$> seq 0 (Z.to_nat size)).
Proof.
  rewrite range_seq. apply Forall2_fmap_seq. intros y Hy. split.
  - rewrite range_down_seq. apply Forall2_fmap_seq. intros k Hk. split; simpl.
    + by apply norm_index_nonneg.
    + by apply norm_index_down.
  - intros k p Hp. apply lookup_fmap_seq in Hp as [Hk ->].
    replace (-1 + -1 * Z.of_nat k) with (-1 - Z.of_nat k) by lia.
    split; simpl.
    + by apply norm_index_nonneg.
    + by apply norm_index_neg.
Qed.

Lemma swipe_up_lines (size : Z) :
  Forall2 (is_line (Z.to_nat size) size (λ x y, (y, x)) range 0 1)
          (range size) (line_up (Z.to_nat size) <$> seq 0 (Z.to_nat size)).
Proof.
  rewrite range_seq. apply Forall2_fmap_seq. intros x Hx. split.
  - rewrite range_seq. apply Forall2_fmap_seq. intros y Hy.
    split; simpl; by apply norm_index_nonneg.
  - intros k p Hp. apply lookup_fmap_seq in Hp as [Hk ->].
    replace (0 + 1 * Z.of_nat k) with (Z.of_nat k) by lia.
    split; simpl; by apply norm_index_nonneg.
Qed.

Lemma swipe_down_lines (size : Z) :
  Forall2 (is_line (Z.to_nat size) size (λ x y, (y, x))
                   (λ size, range_down (size - 1) (-1)) (-1) (-1))
          (range size) (line_down (Z.to_nat size) <$> seq 0 (Z.to_nat size)).
Proof.
  rewrite range_seq. apply Forall2_fmap_seq. intros x Hx. split.
  - rewrite range_down_seq. apply Forall2_fmap_seq. intros k Hk. split; simpl.
    + by apply norm_index_down.
    + by apply norm_index_nonneg.
  - intros k p Hp. apply lookup_fmap_seq in Hp as [Hk ->].
    replace (-1 + -1 * Z.of_nat k) with (-1 - Z.of_nat k) by lia.
    split; simpl.
    + by apply norm_index_neg.
    + by apply norm_index_nonneg.
Qed.

(** What a swipe does to a well-shaped board: it returns, the shape is
    kept, each line of the direction holds its [slide], the score grows by
    the gains of the lines, and nothing else changes. *)
Lemma swipe_spec (direction : string) (self : Board) :
  valid_direction direction → wf self →
  ∃ g' : Grid,
    swipe direction self
    = Ok (set_score (set_grid self g')
            (_score self
             + total_gain (_grid self) (lines_of direction (Z.to_nat (_size self)))))
    ∧ wf_grid (Z.to_nat (_size self)) g'
    ∧ Forall (λ ps, tile_at g' <$> ps = slide (tile_at (_grid self) <$> ps))
             (lines_of direction (Z.to_nat (_size self))).
Proof.
  intros Hd Hwf.
  pose proof (NoDup_lines_of direction (Z.to_nat (_size self))) as Hnd.
  unfold swipe, lines_of in *.
  destruct (valid_direction_cases _ Hd) as [-> | [-> | [-> | ->]]]; simpl in *.
  - rewrite swipe_left_line_pass.
    destruct (all_lines_spec _ _ _ _ _ _ _ _ (swipe_left_lines (_size self))
                Hnd self eq_refl Hwf)
      as (g' & Hrun & Hwf' & Hlines & _).
    by exists g'.
  - rewrite swipe_right_line_pass.
    destruct (all_lines_spec _ _ _ _ _ _ _ _ (swipe_right_lines (_size self))
                Hnd self eq_refl Hwf)
      as (g' & Hrun & Hwf' & Hlines & _).
    by exists g'.
  - rewrite swipe_up_line_pass.
    destruct (all_lines_spec _ _ _ _ _ _ _ _ (swipe_up_lines (_size self))
                Hnd self eq_refl Hwf)
      as (g' & Hrun & Hwf' & Hlines & _).
    by exists g'.
  - rewrite swipe_down_line_pass.
    destruct (all_lines_spec _ _ _ _ _ _ _ _ (swipe_down_lines (_size self))
                Hnd self eq_refl Hwf)
      as (g' & Hrun & Hwf' & Hlines & _).
    by exists g'.
Qed.

(** ** Properties of one line *)

Lemma sumZ_app (l k : list Z) : sumZ (l ++ k) = sumZ l + sumZ k.
Proof. induction l as [|a l IH]; simpl; [done|]. rewrite IH. lia. Qed.

Lemma sumZ_nonzero (row : list Z) : sumZ (nonzero row) = sumZ row.
Proof.
  unfold nonzero. induction row as [|a row IH]; [done|].
  rewrite filter_cons. case_decide; simpl; lia.
Qed.

Lemma nonzero_id (row : list Z) : Forall (λ v, v ≠ 0) row → nonzero row = row.
Proof.
  unfold nonzero. induction 1 as [|v row Hv Hrow IH]; [done|].
  by rewrite filter_cons_True, IH.
Qed.

Lemma tiles_of_app (l k : list tile) : tiles_of (l ++ k) = tiles_of l ++ tiles_of k.
Proof. unfold tiles_of. apply omap_app. Qed.

Lemma tiles_of_Some (vs : list Z) : tiles_of (Some <$> vs) = vs.
Proof. induction vs as [|v vs IH]; simpl; [done|]. by f_equal. Qed.

Lemma tiles_of_replicate_None (k : nat) : tiles_of (replicate k None) = [].
Proof. induction k as [|k IH]; simpl; done. Qed.

Lemma tiles_of_compact (row : list Z) (n : nat) :
  tiles_of (compact row n) = nonzero row.
Proof.
  unfold compact.
  by rewrite tiles_of_app, tiles_of_Some, tiles_of_replicate_None, app_nil_r.
Qed.

Lemma tiles_of_reverse (line : list tile) :
  tiles_of (reverse line) = reverse (tiles_of line).
Proof.
  induction line as [|[v|] line IH]; simpl; [done| |].
  - rewrite !reverse_cons, tiles_of_app, IH. done.
  - rewrite reverse_cons, tiles_of_app, IH. simpl. by rewrite app_nil_r.
Qed.

Lemma sumZ_reverse (l : list Z) : sumZ (reverse l) = sumZ l.
Proof.
  induction l as [|a l IH]; [done|].
  rewrite reverse_cons, sumZ_app, IH. simpl. lia.
Qed.

Lemma line_sum_reverse (line : list tile) : line_sum (reverse line) = line_sum line.
Proof. unfold line_sum. by rewrite tiles_of_reverse, sumZ_reverse. Qed.

Lemma length_compact (row : list Z) (n : nat) :
  (length (nonzero row) ≤ n)%nat → length (compact row n) = n.
Proof.
  intros H. unfold compact. rewrite length_app, length_fmap, length_replicate. lia.
Qed.

Lemma length_slide (line : list tile) : length (slide line) = length line.
Proof.
  apply length_compact. etrans; [apply merge_line_length|apply length_tiles_of].
Qed.

(** Merging keeps the sum of a line. *)
Lemma merge_line_sum (line : list tile) (out : list Z) (lst : Z) :
  sumZ (merge_line out lst line).1 = sumZ out + lst + line_sum line.
Proof.
  unfold line_sum.
  revert out lst. induction line as [|[cur|] line IH]; intros out lst; simpl.
  - rewrite sumZ_app. simpl. lia.
  - case_bool_decide as Hcur.
    + specialize (IH (out ++ [cur * 2]) 0).
      destruct (merge_line (out ++ [cur * 2]) 0 line) as [row s]. simpl in *.
      rewrite IH, sumZ_app. simpl. lia.
    + rewrite IH, sumZ_app. simpl. lia.
  - apply IH.
Qed.

Lemma slide_sum (line : list tile) : line_sum (slide line) = line_sum line.
Proof.
  unfold slide, line_sum at 1.
  rewrite tiles_of_compact, sumZ_nonzero, merge_line_sum. simpl. lia.
Qed.

(** A line that its [slide] leaves as it is has merged nothing. *)
Lemma slide_fixed_gain (line : list tile) : slide line = line → gain line = 0.
Proof.
  intros Hfix. unfold gain.
  destruct (merge_line_count line [] 0) as [_ Heq].
  destruct Heq as [-> _]; [|done].
  rewrite <- Hfix at 2. unfold slide. by rewrite tiles_of_compact.
Qed.

Lemma tiles_of_full (line : list tile) :
  length (tiles_of line) = length line → line = Some <$> tiles_of line.
Proof.
  induction line as [|[v|] line IH]; simpl; intros Hlen; [done| |].
  - f_equal. apply IH. lia.
  - pose proof (length_tiles_of line). lia.
Qed.

Lemma elem_of_compact_None (row : list Z) (n : nat) :
  (length (nonzero row) < n)%nat → None ∈ compact row n.
Proof.
  intros H. unfold compact. apply elem_of_app. right.
  apply elem_of_replicate. split; [done|lia].
Qed.

Lemma None_tiles_of (line : list tile) :
  None ∈ line → (length (tiles_of line) < length line)%nat.
Proof.
  induction line as [|[v|] line IH]; simpl; intros Hin.
  - by apply elem_of_nil in Hin.
  - apply elem_of_cons in Hin as [|Hin]; [done|]. apply IH in Hin. lia.
  - pose proof (length_tiles_of line). lia.
Qed.

(** An empty cell of a line stays an empty cell of the line. *)
Lemma slide_keeps_None (line : list tile) : None ∈ line → None ∈ slide line.
Proof.
  intros Hin. apply elem_of_compact_None.
  pose proof (merge_line_length line). apply None_tiles_of in Hin. lia.
Qed.

(** A line that its [slide] changes has an empty cell afterwards. *)
Lemma slide_changed_None (line : list tile) :
  slide line ≠ line → None ∈ slide line.
Proof.
  intros Hne.
  destruct (decide (length (nonzero (merge_line [] 0 line).1) < length line)%nat)
    as [Hlt|Hge]; [by apply elem_of_compact_None|].
  exfalso. apply Hne.
  pose proof (merge_line_length line) as H1.
  pose proof (length_tiles_of line) as H2.
  destruct (merge_line_count line [] 0) as [_ Heq].
  destruct Heq as [Hrun Hnz].
  { simpl. lia. }
  unfold slide, compact. rewrite Hrun. simpl.
  change (nonzero (0 :: tiles_of line)) with (nonzero (tiles_of line)).
  rewrite nonzero_id by done.
  replace (length line - length (tiles_of line))%nat with 0%nat by lia.
  simpl. rewrite app_nil_r. symmetry. apply tiles_of_full. lia.
Qed.

Lemma is_pow2_double (v : Z) : is_pow2 v → is_pow2 (v * 2).
Proof.
  intros (k & Hk & ->). exists (S k). split; [lia|].
  rewrite Nat2Z.inj_succ, Z.pow_succ_r by lia. lia.
Qed.

Lemma is_pow2_nonzero (v : Z) : is_pow2 v → v ≠ 0.
Proof. intros (k & Hk & ->). apply Z.pow_nonzero; lia. Qed.

Lemma merge_line_valid (line : list tile) (out : list Z) (lst : Z) :
  Forall valid_tile line →
  Forall (λ v, v = 0 ∨ is_pow2 v) (out ++ [lst]) →
  Forall (λ v, v = 0 ∨ is_pow2 v) (merge_line out lst line).1.
Proof.
  revert out lst. induction line as [|[cur|] line IH];
    intros out lst Hline Hout; simpl; [done|..];
    apply Forall_cons in Hline as [Hcur Hline].
  - apply Forall_app in Hout as [Hout Hlst].
    case_bool_decide as Heq.
    + specialize (IH (out ++ [cur * 2]) 0 Hline).
      destruct (merge_line (out ++ [cur * 2]) 0 line) as [row s]. simpl in *.
      apply IH. rewrite !Forall_app. repeat split; [done| |].
      * constructor; [|done]. right. by apply is_pow2_double.
      * constructor; [by left|done].
    + apply IH; [done|]. rewrite !Forall_app. repeat split; [done..|].
      constructor; [by right|done].
  - by apply IH.
Qed.

Lemma slide_valid (line : list tile) :
  Forall valid_tile line → Forall valid_tile (slide line).
Proof.
  intros Hline. unfold slide, compact. apply Forall_app. split.
  - apply Forall_fmap. unfold nonzero.
    assert (Forall (λ v, v = 0 ∨ is_pow2 v) (merge_line [] 0 line).1) as H.
    { apply merge_line_valid; [done|]. constructor; [by left|done]. }
    rewrite Forall_forall in H.
    apply Forall_forall. intros v Hv. apply list_elem_of_filter in Hv as [Hnz Hv].
    simpl. by destruct (H v Hv).
  - apply Forall_replicate. done.
Qed.

(** ** Rows, columns and lines *)

Lemma line_left_row (n : nat) (g : Grid) (y : nat) :
  wf_grid n g → (y < n)%nat → tile_at g <$> line_left n y = grid_row g y.
Proof.
  intros [Hlen Hrows] Hy. unfold line_left, grid_row.
  destruct (lookup_lt_is_Some_2 g y) as [row Hrow]; [lia|].
  rewrite Hrow. simpl.
  assert (length row = n) as Hr.
  { eapply Forall_forall in Hrows; [exact Hrows|]. eapply list_elem_of_lookup_2, Hrow. }
  apply list_eq. intros x. rewrite <- list_fmap_compose, list_lookup_fmap.
  destruct (decide (x < n)%nat) as [Hx|Hx].
  - rewrite lookup_seq_lt by done. simpl. unfold tile_at, cell. simpl.
    rewrite Hrow. simpl.
    destruct (lookup_lt_is_Some_2 row x) as [t Ht]; [lia|]. by rewrite Ht.
  - rewrite lookup_seq_ge by lia. simpl. symmetry. apply lookup_ge_None. lia.
Qed.

Lemma line_up_col (n : nat) (g : Grid) (x : nat) :
  wf_grid n g → tile_at g <$> line_up n x = grid_col g x.
Proof.
  intros [Hlen Hrows]. unfold line_up, grid_col.
  apply list_eq. intros y. rewrite <- list_fmap_compose, !list_lookup_fmap.
  destruct (decide (y < n)%nat) as [Hy|Hy].
  - rewrite lookup_seq_lt by done. simpl. unfold tile_at, cell. simpl.
    destruct (lookup_lt_is_Some_2 g y) as [row Hrow]; [lia|].
    rewrite Hrow. simpl. done.
  - rewrite lookup_seq_ge by lia. simpl.
    rewrite lookup_ge_None_2 by lia. done.
Qed.

Lemma line_right_row (n : nat) (g : Grid) (y : nat) :
  wf_grid n g → (y < n)%nat →
  tile_at g <$> line_right n y = reverse (grid_row g y).
Proof.
  intros Hwf Hy. by rewrite line_right_reverse, fmap_reverse, (line_left_row n).
Qed.

Lemma line_down_col (n : nat) (g : Grid) (x : nat) :
  wf_grid n g → tile_at g <$> line_down n x = reverse (grid_col g x).
Proof.
  intros Hwf. by rewrite line_down_reverse, fmap_reverse, (line_up_col n).
Qed.

Lemma fmap_eq_elem {A B : Type} (f g : A → B) (l : list A) (x : A) :
  f <$> l = g <$> l → x ∈ l → f x = g x.
Proof.
  intros Heq Hx. apply list_elem_of_lookup in Hx as [i Hi].
  assert ((f <$> l) !! i = (g <$> l) !! i) as H by by rewrite Heq.
  rewrite !list_lookup_fmap, Hi in H. simpl in H. by injection H.
Qed.

(** Grids that agree on every line of a direction are equal. *)
Lemma lines_of_ext (direction : string) (n : nat) (g1 g2 : Grid) :
  valid_direction direction → wf_grid n g1 → wf_grid n g2 →
  Forall (λ ps, tile_at g1 <$> ps = tile_at g2 <$> ps) (lines_of direction n) →
  g1 = g2.
Proof.
  intros Hd Hwf1 Hwf2 Hlines. apply (wf_grid_ext n); [done..|].
  intros p Hp. destruct (lines_of_cover direction n p Hd Hp) as (ps & Hps & Hin).
  rewrite Forall_forall in Hlines.
  by apply (fmap_eq_elem _ _ ps p (Hlines ps Hps)).
Qed.

Lemma sumZ_zero (l : list Z) : Forall (λ v, v = 0) l → sumZ l = 0.
Proof. induction 1 as [|v l -> _ IH]; simpl; [done|]. by rewrite IH. Qed.

(** A swipe that leaves the grid as it was has added nothing to the score. *)
Lemma swipe_fixed_gain (n : nat) (g g' : Grid) (lines : list (list (nat * nat))) :
  Forall (λ ps, tile_at g' <$> ps = slide (tile_at g <$> ps)) lines →
  g' = g → total_gain g lines = 0.
Proof.
  intros Hlines ->. unfold total_gain. apply sumZ_zero.
  apply Forall_fmap. eapply Forall_impl; [exact Hlines|].
  intros ps Hps. simpl. by apply slide_fixed_gain.
Qed.

(** After a swipe that changed the grid, some cell is empty. *)
Lemma swipe_changed_empty (direction : string) (n : nat) (g g' : Grid) :
  valid_direction direction → wf_grid n g → wf_grid n g' →
  Forall (λ ps, tile_at g' <$> ps = slide (tile_at g <$> ps))
         (lines_of direction n) →
  g' ≠ g → ∃ p, in_grid n p ∧ tile_at g' p = None.
Proof.
  intros Hd Hwf Hwf' Hlines Hne.
  destruct (decide (Forall (λ ps, tile_at g' <$> ps = tile_at g <$> ps)
                           (lines_of direction n))) as [Hall|Hex].
  - exfalso. apply Hne. by apply (lines_of_ext direction n).
  - apply not_Forall_Exists in Hex; [|solve_decision].
    apply Exists_exists in Hex as (ps & Hps & Hdiff).
    rewrite Forall_forall in Hlines. specialize (Hlines ps Hps).
    assert (None ∈ tile_at g' <$> ps) as Hnone.
    { rewrite Hlines. apply slide_changed_None. by rewrite <- Hlines. }
    apply list_elem_of_fmap in Hnone as (p & Hp & Hin).
    exists p. split; [|done]. by eapply lines_of_in_grid.
Qed.

(** ** [get_empty_tiles] and [add_tile] *)

Lemma elem_of_positions (n : nat) (p : nat * nat) :
  p ∈ positions n ↔ in_grid n p.
Proof.
  unfold positions, in_grid. rewrite list_elem_of_join. split.
  - intros (ps & Hp & Hps). apply list_elem_of_fmap in Hps as (y & -> & Hy).
    apply elem_of_seq in Hy. apply elem_of_line_left in Hp. lia.
  - intros [Hy Hx]. exists (line_left n p.1). split.
    + by apply elem_of_line_left.
    + apply list_elem_of_fmap. exists p.1. split; [done|]. apply elem_of_seq. lia.
Qed.

Lemma elem_of_empty_positions (n : nat) (g : Grid) (p : nat * nat) :
  p ∈ empty_positions n g ↔ in_grid n p ∧ tile_at g p = None.
Proof.
  unfold empty_positions. rewrite list_elem_of_filter, elem_of_positions. tauto.
Qed.

Lemma get_empty_tiles_row (self : Board) (n : nat) (y : nat) (xs : list nat)
    (acc : list (Z * Z)) :
  wf_grid n (_grid self) → (y < n)%nat → Forall (λ x, (x < n)%nat) xs →
  for_ ((λ k : nat, Z.of_nat k) <$> xs) (λ x empty_locs,
      t ← grid_getitem self (Z.of_nat y) x;
      match t with
      | None => Ok (empty_locs ++ [(x, Z.of_nat y)])
      | Some _ => Ok empty_locs
      end) acc
  = Ok (acc ++ (loc_of <$> filter (λ p, tile_at (_grid self) p = None)
                                  ((λ x, (y, x)) <$> xs))).
Proof.
  intros Hwf Hy Hxs. revert acc.
  induction Hxs as [|x xs Hx Hxs IH]; intros acc; simpl.
  - by rewrite app_nil_r.
  - rewrite (grid_getitem_Ok self n _ _ (y, x))
      by (done || by apply norm_index_nonneg).
    rewrite bind_Ok, filter_cons.
    destruct (tile_at (_grid self) (y, x)) as [v|] eqn:Ht.
    + rewrite decide_False by done. rewrite bind_Ok. apply IH.
    + rewrite decide_True by done. rewrite bind_Ok, IH, fmap_cons.
      by rewrite <- app_assoc.
Qed.

Lemma get_empty_tiles_full_row (self : Board) (y : nat) (acc : list (Z * Z)) :
  wf self → (y < Z.to_nat (_size self))%nat →
  for_ (range (_size self)) (λ x empty_locs,
      t ← grid_getitem self (Z.of_nat y) x;
      match t with
      | None => Ok (empty_locs ++ [(x, Z.of_nat y)])
      | Some _ => Ok empty_locs
      end) acc
  = Ok (acc ++ (loc_of <$> filter (λ p, tile_at (_grid self) p = None)
                                  (line_left (Z.to_nat (_size self)) y))).
Proof.
  intros Hwf Hy. rewrite range_seq.
  apply (get_empty_tiles_row self (Z.to_nat (_size self))); [done..|].
  apply Forall_forall. intros x Hx. apply elem_of_seq in Hx. lia.
Qed.

Lemma get_empty_tiles_spec (self : Board) :
  wf self →
  get_empty_tiles self
  = Ok (loc_of <$> empty_positions (Z.to_nat (_size self)) (_grid self)).
Proof.
  intros Hwf. unfold get_empty_tiles, empty_positions, positions.
  set (n := Z.to_nat (_size self)).
  enough (∀ (ys : list nat) acc, Forall (λ y, (y < n)%nat) ys →
    for_ ((λ k : nat, Z.of_nat k) <$> ys) (λ y empty_locs,
      for_ (range (_size self)) (λ x empty_locs,
        t ← grid_getitem self y x;
        match t with
        | None => Ok (empty_locs ++ [(x, y)])
        | Some _ => Ok empty_locs
        end) empty_locs) acc
    = Ok (acc ++ (loc_of <$> filter (λ p, tile_at (_grid self) p = None)
                                    (mjoin (line_left n <$> ys))))) as H.
  { rewrite range_seq at 1. rewrite H; [done|].
    apply Forall_forall. intros y Hy. apply elem_of_seq in Hy. lia. }
  induction ys as [|y ys IH]; intros acc Hys; simpl.
  - by rewrite app_nil_r.
  - apply Forall_cons in Hys as [Hy Hys].
    rewrite get_empty_tiles_full_row by done.
    rewrite bind_Ok, IH by done.
    rewrite filter_app, fmap_app, <- app_assoc. done.
Qed.

Lemma add_tile_spec (d_num d_loc : nat) (self : Board) :
  wf self →
  add_tile d_num d_loc self
  = match picked (Z.to_nat (_size self)) (_grid self) d_loc with
    | Some p => Ok (set_grid self (upd (_grid self) p (Some (randint 1 2 d_num * 2))))
    | None => Raise IndexError
    end.
Proof.
  intros Hwf. unfold add_tile, picked. rewrite get_empty_tiles_spec by done.
  rewrite bind_Ok. set (n := Z.to_nat (_size self)).
  destruct (empty_positions n (_grid self)) as [|q qs] eqn:Hemp; [done|].
  set (l := q :: qs) in *. unfold choice.
  assert (0 < length l)%nat as Hpos by (subst l; simpl; lia).
  assert (d_loc `mod` length l < length l)%nat as Hlt
    by (apply Nat.mod_upper_bound; lia).
  destruct (lookup_lt_is_Some_2 l _ Hlt) as [p Hp]. rewrite Hp.
  assert (getitem (loc_of <$> l) (Z.of_nat d_loc `mod` Z.of_nat (length (loc_of <$> l)))
          = Ok (loc_of p)) as ->.
  { apply getitem_Ok with (k := (d_loc `mod` length l)%nat).
    - rewrite length_fmap, <- Nat2Z.inj_mod.
      apply norm_index_nonneg. done.
    - by rewrite list_lookup_fmap, Hp. }
  subst l. rewrite fmap_cons. rewrite bind_Ok. unfold loc_of at 1.
  assert (in_grid n p) as [Hy Hx].
  { eapply elem_of_empty_positions. rewrite Hemp.
    eapply list_elem_of_lookup_2, Hp. }
  apply (grid_setitem_Ok self n); [done|by apply norm_index_nonneg..].
Qed.

Lemma scan_line_positions (direction : string) (n i : nat) :
  valid_direction direction → (i < n)%nat →
  ∃ ps, ps ∈ lines_of direction n
        ∧ ∀ g, wf_grid n g → tile_at g <$> ps = scan_line direction g i.
Proof.
  intros Hd Hi. unfold lines_of, scan_line.
  assert (i ∈ seq 0 n) as Hseq by (apply elem_of_seq; lia).
  destruct (valid_direction_cases _ Hd) as [-> | [-> | [-> | ->]]]; simpl.
  - exists (line_left n i). split; [by apply list_elem_of_fmap_2|].
    intros g Hg. by apply line_left_row.
  - exists (line_right n i). split; [by apply list_elem_of_fmap_2|].
    intros g Hg. by apply line_right_row.
  - exists (line_up n i). split; [by apply list_elem_of_fmap_2|].
    intros g Hg. by apply line_up_col.
  - exists (line_down n i). split; [by apply list_elem_of_fmap_2|].
    intros g Hg. by apply line_down_col.
Qed.

Lemma swipe_scan_lines (direction : string) (self : Board) :
  valid_direction direction → wf self →
  ∃ g' : Grid,
    swipe direction self
    = Ok (set_score (set_grid self g')
            (_score self
             + total_gain (_grid self) (lines_of direction (Z.to_nat (_size self)))))
    ∧ wf_grid (Z.to_nat (_size self)) g'
    ∧ ∀ i, (i < Z.to_nat (_size self))%nat →
        scan_line direction g' i = slide (scan_line direction (_grid self) i).
Proof.
  intros Hd Hwf.
  destruct (swipe_spec direction self Hd Hwf) as (g' & Hrun & Hwf' & Hlines).
  exists g'. split; [done|split; [done|]]. intros i Hi.
  destruct (scan_line_positions direction _ i Hd Hi) as (ps & Hps & Hscan).
  rewrite Forall_forall in Hlines.
  rewrite <- !Hscan by done. by apply Hlines.
Qed.

Lemma perform_move_unfold (direction : string) (d_num d_loc : nat) (self : Board) :
  valid_direction direction →
  perform_move direction d_num d_loc self
  = (moved ← swipe direction self;
     if bool_decide (_grid moved ≠ _grid self) then
       add_tile d_num d_loc
         (set_undo_available (set_prev_grid moved (Some (_grid self))) true)
     else Ok (set_grid moved (_grid self))).
Proof.
  intros Hd. unfold perform_move.
  rewrite bool_decide_eq_true_2 by done. by rewrite copy_grid_id.
Qed.

(** ** Merge conservation *)

(** C4. For every swipe direction and every line of that direction (a row
    for left and right, a column for up and down), the swipe returns and the
    sum of the tile values on the line after the pass is the sum before
    it. *)
Theorem swipe_conserves_line_sums (direction : string) (self : Board) :
  valid_direction direction → wf self →
  ∃ moved : Board,
    swipe direction self = Ok moved
    ∧ ∀ i, (i < Z.to_nat (_size self))%nat →
        (direction ∈ ["l"; "r"] →
           line_sum (grid_row (_grid moved) i) = line_sum (grid_row (_grid self) i))
        ∧ (direction ∈ ["u"; "d"] →
           line_sum (grid_col (_grid moved) i) = line_sum (grid_col (_grid self) i)).
Proof.
  intros Hd Hwf.
  destruct (swipe_scan_lines direction self Hd Hwf) as (g' & Hrun & Hwf' & Hlines).
  eexists. split; [exact Hrun|]. cbn [_grid set_score set_grid].
  intros i Hi. specialize (Hlines i Hi).
  apply (f_equal line_sum) in Hlines. rewrite slide_sum in Hlines.
  unfold scan_line in Hlines.
  split; intros Hdir; rewrite !elem_of_cons, elem_of_nil in Hdir;
    destruct Hdir as [-> | [-> | []]]; simpl in Hlines;
    by rewrite ?line_sum_reverse in Hlines.
Qed.

Lemma swipe_conserves_line_sums_witness :
  ∃ moved : Board,
    swipe "u" columns_board = Ok moved
    ∧ line_sum (grid_col (_grid moved) 1) = line_sum (grid_col (_grid columns_board) 1).
Proof.
  destruct (swipe_conserves_line_sums "u" columns_board) as (moved & Hrun & Hsum).
  - unfold valid_direction. repeat constructor.
  - split; [reflexivity|]. repeat constructor.
  - exists moved. split; [exact Hrun|].
    apply (Hsum 1%nat); [simpl; lia|]. repeat constructor.
Defined.

(** ** Construction *)

Lemma fmap_const_replicate {A B : Type} (c : B) (l : list A) :
  (λ _, c) <$> l = replicate (length l) c.
Proof. induction l as [|a l IH]; simpl; [done|]. by f_equal. Qed.

Lemma init_grid (size : Z) :
  (λ _, (λ _, None) <$> range size) <$> range size
  = replicate (Z.to_nat size) (replicate (Z.to_nat size) (None : tile)).
Proof.
  rewrite !fmap_const_replicate. unfold range. by rewrite length_seqZ.
Qed.

Lemma wf_grid_replicate (n : nat) (t : tile) :
  wf_grid n (replicate n (replicate n t)).
Proof.
  split; [by rewrite length_replicate|].
  apply Forall_replicate. by rewrite length_replicate.
Qed.

(** C10. [Board(0)] raises [ZeroDivisionError] (the division by [size]) and
    returns no board; for every [size >= 1] the constructor returns a board
    with an all-empty [size] × [size] grid, score 0 and undo unavailable. *)
Theorem init_needs_positive_size (colors : option (list (tile * string))) :
  __init__ 0 colors = Raise ZeroDivisionError
  ∧ ∀ size : Z, 1 ≤ size →
      ∃ self : Board,
        __init__ size colors = Ok self
        ∧ _size self = size
        ∧ _grid self = replicate (Z.to_nat size) (replicate (Z.to_nat size) None)
        ∧ _score self = 0
        ∧ _undo_available self = false
        ∧ _prev_grid self = None.
Proof.
  split; [reflexivity|]. intros size Hsize.
  unfold __init__, true_div.
  rewrite bool_decide_eq_false_2 by lia. rewrite bind_Ok.
  eexists. split; [reflexivity|]. cbn.
  rewrite init_grid. done.
Qed.

Lemma init_needs_positive_size_witness :
  __init__ 0 None = Raise ZeroDivisionError
  ∧ ∃ self : Board,
      __init__ 4 None = Ok self
      ∧ _size self = 4
      ∧ _grid self = replicate (Z.to_nat 4) (replicate (Z.to_nat 4) None)
      ∧ _score self = 0
      ∧ _undo_available self = false
      ∧ _prev_grid self = None.
Proof.
  split.
  - apply (init_needs_positive_size None).
  - apply (proj2 (init_needs_positive_size None) 4). lia.
Defined.

(** ** Tile values *)

Lemma valid_tiles_tile_at (n : nat) (g : Grid) :
  wf_grid n g →
  valid_tiles g ↔ ∀ p, in_grid n p → valid_tile (tile_at g p).
Proof.
  intros Hwf. split.
  - intros Hval p Hp. pose proof (wf_grid_cell n g p Hwf Hp) as Hc.
    unfold cell in Hc. destruct (g !! p.1) as [row|] eqn:Hrow; [|done].
    simpl in Hc. unfold valid_tiles in Hval.
    rewrite Forall_forall in Hval.
    specialize (Hval row (list_elem_of_lookup_2 _ _ _ Hrow)).
    rewrite Forall_forall in Hval. apply Hval.
    eapply list_elem_of_lookup_2, Hc.
  - intros Hval. apply Forall_lookup_2. intros y row Hrow.
    apply Forall_lookup_2. intros x t Ht.
    assert (in_grid n (y, x)) as Hp.
    { destruct Hwf as [Hlen Hrows]. split; simpl.
      - rewrite <- Hlen. by eapply lookup_lt_Some.
      - eapply Forall_forall in Hrows; [|eapply list_elem_of_lookup_2, Hrow].
        simpl in Hrows. rewrite <- Hrows. by eapply lookup_lt_Some. }
    specialize (Hval (y, x) Hp). unfold tile_at, cell in Hval. simpl in Hval.
    rewrite Hrow in Hval. simpl in Hval. by rewrite Ht in Hval.
Qed.

Lemma valid_tiles_upd (g : Grid) (p : nat * nat) (t : tile) :
  valid_tiles g → valid_tile t → valid_tiles (upd g p t).
Proof.
  intros Hval Ht. unfold valid_tiles, upd.
  apply Forall_alter; [done|]. intros row _ Hrow. by apply Forall_insert.
Qed.

Lemma randint_tile (draw : nat) :
  randint 1 2 draw * 2 = 2 ∨ randint 1 2 draw * 2 = 4.
Proof.
  unfold randint. replace (2 - 1 + 1) with 2 by lia.
  pose proof (Z.mod_pos_bound (Z.of_nat draw) 2). lia.
Qed.

Lemma randint_tile_valid (draw : nat) : is_pow2 (randint 1 2 draw * 2).
Proof.
  destruct (randint_tile draw) as [-> | ->].
  - exists 1%nat. split; [lia|done].
  - exists 2%nat. split; [lia|done].
Qed.

(** The tiles a swipe leaves are tiles it found or their doubles. *)
Lemma swipe_valid_tiles (direction : string) (n : nat) (g g' : Grid) :
  valid_direction direction → wf_grid n g → wf_grid n g' →
  Forall (λ ps, tile_at g' <$> ps = slide (tile_at g <$> ps))
         (lines_of direction n) →
  valid_tiles g → valid_tiles g'.
Proof.
  intros Hd Hwf Hwf' Hlines Hval.
  rewrite (valid_tiles_tile_at n) in Hval |- * by done.
  intros p Hp. destruct (lines_of_cover direction n p Hd Hp) as (ps & Hps & Hin).
  rewrite Forall_forall in Hlines. specialize (Hlines ps Hps).
  assert (Forall valid_tile (tile_at g' <$> ps)) as Hall.
  { rewrite Hlines. apply slide_valid. apply Forall_fmap, Forall_forall.
    intros q Hq. apply Hval. by eapply lines_of_in_grid. }
  rewrite Forall_fmap, Forall_forall in Hall. by apply Hall.
Qed.

Lemma picked_empty (n : nat) (g : Grid) (d_loc : nat) (p : nat * nat) :
  picked n g d_loc = Some p → in_grid n p ∧ tile_at g p = None.
Proof.
  unfold picked. intros Hp. apply elem_of_empty_positions.
  eapply list_elem_of_lookup_2, Hp.
Qed.

Lemma picked_is_Some (n : nat) (g : Grid) (d_loc : nat) (q : nat * nat) :
  in_grid n q → tile_at g q = None → is_Some (picked n g d_loc).
Proof.
  intros Hq Hnone. unfold picked. apply lookup_lt_is_Some_2.
  assert (q ∈ empty_positions n g) as Hin by by apply elem_of_empty_positions.
  destruct (empty_positions n g) as [|a l]; [by apply elem_of_nil in Hin|].
  apply Nat.mod_upper_bound. done.
Qed.

(** ** The invariant is kept *)

Lemma init_inv (size : Z) (colors : option (list (tile * string))) (self : Board) :
  __init__ size colors = Ok self → board_inv self.
Proof.
  unfold __init__, true_div. case_bool_decide; [done|].
  rewrite bind_Ok. intros [= <-]. unfold board_inv, wf. cbn.
  rewrite init_grid. split; [apply wf_grid_replicate|].
  split; [|done]. apply Forall_replicate, Forall_replicate. done.
Qed.

Lemma add_tile_inv (d_num d_loc : nat) (self self' : Board) :
  board_inv self → add_tile d_num d_loc self = Ok self' → board_inv self'.
Proof.
  intros (Hwf & Hval & Hprev & Hundo). rewrite add_tile_spec by done.
  destruct (picked _ _ d_loc) as [p|]; [|done]. intros [= <-].
  unfold board_inv, wf. cbn. split; [by apply wf_grid_upd|].
  split; [|done]. apply valid_tiles_upd; [done|]. apply randint_tile_valid.
Qed.

Lemma undo_inv (self self' : Board) :
  board_inv self → undo self = Ok self' → board_inv self'.
Proof.
  intros Hinv. pose proof Hinv as (Hwf & Hval & Hprev & Hundo). unfold undo.
  destruct (_undo_available self) eqn:Hav; [|by intros [= <-]].
  destruct (_prev_grid self) as [prev|] eqn:Hp; [|done].
  rewrite copy_grid_id. intros [= <-].
  destruct (Hprev prev eq_refl) as [Hwfp Hvalp].
  unfold board_inv, wf. cbn. rewrite Hp.
  split; [done|split; [done|split; [done|done]]].
Qed.

Lemma perform_move_inv (direction : string) (d_num d_loc : nat)
    (self self' : Board) :
  board_inv self → perform_move direction d_num d_loc self = Ok self' →
  board_inv self'.
Proof.
  intros (Hwf & Hval & Hprev & Hundo) Hrun.
  destruct (decide (valid_direction direction)) as [Hd|Hd].
  2:{ unfold perform_move in Hrun.
      by rewrite bool_decide_eq_false_2 in Hrun by done. }
  rewrite perform_move_unfold in Hrun by done.
  destruct (swipe_spec direction self Hd Hwf) as (g' & Hsw & Hwf' & Hlines).
  rewrite Hsw, bind_Ok in Hrun. cbn [_grid set_grid set_score] in Hrun.
  assert (valid_tiles g') as Hval'.
  { by apply (swipe_valid_tiles direction (Z.to_nat (_size self)) (_grid self) g'). }
  case_bool_decide as Hch.
  - apply (add_tile_inv d_num d_loc _ _) in Hrun; [done|].
    unfold board_inv, wf. cbn.
    split; [done|split; [done|split; [|by eexists]]].
    intros prev [= <-]. split; [apply Hwf|done].
  - injection Hrun as <-. unfold board_inv, wf. cbn.
    split; [apply Hwf|split; [done|split; [done|done]]].
Qed.

Lemma reachable_inv (self : Board) : reachable self → board_inv self.
Proof.
  induction 1 as [size colors self Hinit
                 |direction d_num d_loc self self' _ IH Hrun
                 |d_num d_loc self self' _ IH Hrun
                 |self self' _ IH Hrun].
  - by eapply init_inv.
  - by eapply perform_move_inv.
  - by eapply add_tile_inv.
  - by eapply undo_inv.
Qed.

(** Every board the engine can reach has the shape the other results
    ask for. *)
Lemma reachable_wf (self : Board) : reachable self → wf self.
Proof. intros Hr. by destruct (reachable_inv self Hr) as (Hwf & _). Qed.

(** C9. On every board the engine can reach from a freshly constructed one
    by [perform_move] (any direction), [add_tile] and [undo], every
    non-empty cell of the grid holds a power of 2 that is at least 2. *)
Theorem reachable_tiles_are_powers_of_two (self : Board) :
  reachable self → valid_tiles (_grid self).
Proof. intros Hr. by destruct (reachable_inv self Hr) as (_ & Hval & _). Qed.

Lemma reachable_seeded_board2 : reachable seeded_board2.
Proof.
  eapply (reachable_add_tile 0 0).
  - eapply (reachable_init 2 None). reflexivity.
  - reflexivity.
Defined.

Lemma reachable_tiles_are_powers_of_two_witness :
  reachable seeded_board2 ∧ valid_tiles (_grid seeded_board2).
Proof.
  split; [exact reachable_seeded_board2|].
  apply (reachable_tiles_are_powers_of_two seeded_board2).
  exact reachable_seeded_board2.
Defined.

(** ** Undo *)

(** C5. With [undo_available] true and the snapshot [prev] stored, [undo]
    makes the grid a copy of [prev] and [undo_available] false and changes
    nothing else (the score stays); on a reachable board the snapshot is
    there whenever [undo_available] is true; with [undo_available] false
    [undo] returns the board as it is; so a second [undo] in a row changes
    nothing. *)
Theorem undo_restores_snapshot_once (self : Board) :
  (∀ prev, _undo_available self = true → _prev_grid self = Some prev →
     undo self = Ok (mkBoard (_size self) prev (Some prev) false (_score self)
                             (_tile_size self) (_color_scheme self)))
  ∧ (reachable self → _undo_available self = true → is_Some (_prev_grid self))
  ∧ (_undo_available self = false → undo self = Ok self)
  ∧ (∀ self', undo self = Ok self' → undo self' = Ok self').
Proof.
  split; [|split; [|split]].
  - intros prev Hav Hprev. unfold undo. rewrite Hav, Hprev, copy_grid_id.
    unfold set_undo_available, set_grid. cbn. by rewrite Hprev.
  - intros Hr. by destruct (reachable_inv self Hr) as (_ & _ & _ & Hundo).
  - intros Hav. unfold undo. by rewrite Hav.
  - intros self'. unfold undo at 1.
    destruct (_undo_available self) eqn:Hav.
    + destruct (_prev_grid self) as [prev|]; [|done]. by intros [= <-].
    + intros [= <-]. unfold undo. by rewrite Hav.
Qed.

Lemma undo_restores_snapshot_once_witness :
  undo undo_board = Ok undone_board ∧ undo undone_board = Ok undone_board.
Proof.
  split.
  - apply (proj1 (undo_restores_snapshot_once undo_board)
             [[Some 2; None]; [Some 2; None]]); reflexivity.
  - apply (proj2 (proj2 (proj2 (undo_restores_snapshot_once undo_board)))).
    reflexivity.
Defined.

(** ** Spawning a tile *)

Lemma elem_of_loc_of (q : nat * nat) (l : list (nat * nat)) :
  loc_of q ∈ loc_of <$> l ↔ q ∈ l.
Proof.
  rewrite list_elem_of_fmap. split.
  - intros (q' & Heq & Hin). unfold loc_of in Heq.
    destruct q as [y x], q' as [y' x']. simpl in Heq.
    injection Heq as Hx Hy. apply Nat2Z.inj in Hx, Hy. by subst.
  - intros Hin. by exists q.
Qed.

Lemma choice_picked (n : nat) (g : Grid) (d_loc : nat) (p : nat * nat) :
  picked n g d_loc = Some p →
  choice (loc_of <$> empty_positions n g) d_loc = Ok (loc_of p).
Proof.
  unfold picked, choice. intros Hp.
  destruct (empty_positions n g) as [|q qs] eqn:Hemp; [done|].
  set (l := q :: qs) in *.
  change (getitem (loc_of <$> l)
            (Z.of_nat d_loc `mod` Z.of_nat (length (loc_of <$> l)))
          = Ok (loc_of p)).
  apply getitem_Ok with (k := (d_loc `mod` length l)%nat).
  - rewrite length_fmap, <- Nat2Z.inj_mod.
    apply norm_index_nonneg. apply Nat.mod_upper_bound. subst l. simpl. lia.
  - by rewrite list_lookup_fmap, Hp.
Qed.

(** C8. Whatever the random source draws, on a board with an empty cell
    [add_tile] returns a board [self']; [get_empty_tiles] returns the list
    of exactly the empty cells, and the cell [p] of the new tile is the one
    [random.choice] takes from that list; [p] was empty; in the grid of
    [self'] the cell [p] holds the value [randint(1, 2) * 2], which is 2 or
    4, and every other cell is as it was in the grid of [self]; the grid
    keeps its shape and no other attribute of the board changes. *)
Theorem add_tile_fills_an_empty_cell (d_num d_loc : nat) (self : Board) :
  wf self →
  (∃ q, in_grid (Z.to_nat (_size self)) q ∧ tile_at (_grid self) q = None) →
  ∃ (p : nat * nat) (v : Z) (empty : list (Z * Z)) (self' : Board),
    get_empty_tiles self = Ok empty
    ∧ (∀ q, loc_of q ∈ empty
            ↔ in_grid (Z.to_nat (_size self)) q ∧ tile_at (_grid self) q = None)
    ∧ choice empty d_loc = Ok (loc_of p)
    ∧ loc_of p ∈ empty
    ∧ in_grid (Z.to_nat (_size self)) p
    ∧ tile_at (_grid self) p = None
    ∧ cell (_grid self) p = Some None
    ∧ v = randint 1 2 d_num * 2
    ∧ (v = 2 ∨ v = 4)
    ∧ add_tile d_num d_loc self = Ok self'
    ∧ cell (_grid self') p = Some (Some v)
    ∧ (∀ q, q ≠ p → cell (_grid self') q = cell (_grid self) q)
    ∧ wf self'
    ∧ _size self' = _size self
    ∧ _prev_grid self' = _prev_grid self
    ∧ _undo_available self' = _undo_available self
    ∧ _score self' = _score self
    ∧ _tile_size self' = _tile_size self
    ∧ _color_scheme self' = _color_scheme self.
Proof.
  intros Hwf (q & Hq & Hnone).
  destruct (picked_is_Some _ _ d_loc q Hq Hnone) as [p Hp].
  pose proof (picked_empty _ _ _ _ Hp) as [Hin Hpnone].
  pose proof (add_tile_spec d_num d_loc self Hwf) as Hadd. rewrite Hp in Hadd.
  destruct (add_tile d_num d_loc self) as [self'|e] eqn:Hrun; [|done].
  injection Hadd as ->.
  exists p, (randint 1 2 d_num * 2),
    (loc_of <$> empty_positions (Z.to_nat (_size self)) (_grid self)),
    (set_grid self (upd (_grid self) p (Some (randint 1 2 d_num * 2)))).
  split; [by apply get_empty_tiles_spec|].
  split; [intros q'; by rewrite elem_of_loc_of, elem_of_empty_positions|].
  split; [by apply choice_picked|].
  split; [by rewrite elem_of_loc_of, elem_of_empty_positions|].
  split; [done|]. split; [done|].
  split; [by rewrite (wf_grid_cell _ _ p Hwf Hin), Hpnone|].
  split; [done|]. split; [apply randint_tile|]. split; [done|].
  unfold set_grid; cbn [_grid _size _prev_grid _undo_available _score
                        _tile_size _color_scheme].
  split; [by apply (cell_upd_eq (Z.to_nat (_size self)))|].
  split; [intros q' Hne; by apply cell_upd_ne|].
  split; [|done].
  unfold wf. cbn [_grid _size]. by apply wf_grid_upd.
Qed.

Lemma add_tile_fills_an_empty_cell_witness :
  ∃ (p : nat * nat) (v : Z) (empty : list (Z * Z)) (self' : Board),
    get_empty_tiles seeded_board2 = Ok empty
    ∧ (∀ q, loc_of q ∈ empty
            ↔ in_grid (Z.to_nat (_size seeded_board2)) q
              ∧ tile_at (_grid seeded_board2) q = None)
    ∧ choice empty 5 = Ok (loc_of p)
    ∧ loc_of p ∈ empty
    ∧ in_grid (Z.to_nat (_size seeded_board2)) p
    ∧ tile_at (_grid seeded_board2) p = None
    ∧ cell (_grid seeded_board2) p = Some None
    ∧ v = randint 1 2 1 * 2
    ∧ (v = 2 ∨ v = 4)
    ∧ add_tile 1 5 seeded_board2 = Ok self'
    ∧ cell (_grid self') p = Some (Some v)
    ∧ (∀ q, q ≠ p → cell (_grid self') q = cell (_grid seeded_board2) q)
    ∧ wf self'
    ∧ _size self' = _size seeded_board2
    ∧ _prev_grid self' = _prev_grid seeded_board2
    ∧ _undo_available self' = _undo_available seeded_board2
    ∧ _score self' = _score seeded_board2
    ∧ _tile_size self' = _tile_size seeded_board2
    ∧ _color_scheme self' = _color_scheme seeded_board2.
Proof.
  apply (add_tile_fills_an_empty_cell 1 5 seeded_board2).
  - split; [reflexivity|]. repeat constructor.
  - exists (1, 1)%nat. split; [|reflexivity]. split; simpl; lia.
Defined.

(** ** [perform_move] *)

Lemma NoDup_join_elem {A : Type} (ls : list (list A)) (l : list A) :
  NoDup (mjoin ls) → l ∈ ls → NoDup l.
Proof.
  induction ls as [|k ls IH]; intros Hnd Hl; [by apply elem_of_nil in Hl|].
  simpl in Hnd. apply NoDup_app in Hnd as (Hk & _ & Hls).
  apply elem_of_cons in Hl as [->|Hl]; [done|by apply IH].
Qed.

Lemma line_sum_upd (n : nat) (g : Grid) (p : nat * nat) (v : Z)
    (ps : list (nat * nat)) :
  wf_grid n g → in_grid n p → tile_at g p = None → NoDup ps →
  line_sum (tile_at (upd g p (Some v)) <$> ps)
  = line_sum (tile_at g <$> ps) + (if decide (p ∈ ps) then v else 0).
Proof.
  intros Hwf Hp Hnone. unfold line_sum.
  induction 1 as [|q ps Hq Hnd IH]; [done|].
  rewrite !fmap_cons. destruct (decide (q = p)) as [->|Hne].
  - rewrite (tile_at_upd_eq n), Hnone by done.
    rewrite decide_True by left. rewrite decide_False in IH by done.
    simpl. rewrite IH. lia.
  - rewrite tile_at_upd_ne by done.
    assert (tiles_of (tile_at g q :: (tile_at (upd g p (Some v)) <$> ps))
            = tiles_of [tile_at g q] ++ tiles_of (tile_at (upd g p (Some v)) <$> ps))
      as -> by (by rewrite <- tiles_of_app).
    assert (tiles_of (tile_at g q :: (tile_at g <$> ps))
            = tiles_of [tile_at g q] ++ tiles_of (tile_at g <$> ps))
      as -> by (by rewrite <- tiles_of_app).
    rewrite !sumZ_app, IH.
    destruct (decide (p ∈ ps)) as [Hin|Hnin].
    + rewrite decide_True by by right. lia.
    + rewrite decide_False; [lia|]. intros [?|?]%elem_of_cons; congruence.
Qed.

(** The grid after an effective swipe and the new tile is never the grid
    before the move: the tile adds to the sum of its line, which the swipe
    had kept. *)
Lemma swipe_then_tile_differs (direction : string) (n : nat) (g g' : Grid)
    (p : nat * nat) (v : Z) :
  valid_direction direction → wf_grid n g → wf_grid n g' →
  Forall (λ ps, tile_at g' <$> ps = slide (tile_at g <$> ps))
         (lines_of direction n) →
  in_grid n p → tile_at g' p = None → v ≠ 0 →
  upd g' p (Some v) ≠ g.
Proof.
  intros Hd Hwf Hwf' Hlines Hp Hnone Hv Heq.
  destruct (lines_of_cover direction n p Hd Hp) as (ps & Hps & Hin).
  rewrite Forall_forall in Hlines. specialize (Hlines ps Hps).
  assert (NoDup ps) as Hnd
    by (eapply NoDup_join_elem; [apply NoDup_lines_of|done]).
  pose proof (line_sum_upd n g' p v ps Hwf' Hp Hnone Hnd) as Hsum.
  rewrite decide_True in Hsum by done.
  rewrite Heq, Hlines, slide_sum in Hsum. lia.
Qed.

(** The effective branch of [perform_move]: the swipe changed the grid,
    so the list [add_tile] chooses from is not empty. *)
Lemma perform_move_changed (direction : string) (d_num d_loc : nat)
    (self moved : Board) :
  valid_direction direction → wf self →
  swipe direction self = Ok moved → _grid moved ≠ _grid self →
  ∃ p : nat * nat,
    picked (Z.to_nat (_size self)) (_grid moved) d_loc = Some p
    ∧ wf_grid (Z.to_nat (_size self)) (_grid moved)
    ∧ perform_move direction d_num d_loc self
      = add_tile d_num d_loc
          (set_undo_available (set_prev_grid moved (Some (_grid self))) true)
    ∧ perform_move direction d_num d_loc self
      = Ok (mkBoard (_size self)
                    (upd (_grid moved) p (Some (randint 1 2 d_num * 2)))
                    (Some (_grid self)) true (_score moved)
                    (_tile_size self) (_color_scheme self)).
Proof.
  intros Hd Hwf Hmoved Hch.
  destruct (swipe_spec direction self Hd Hwf) as (g' & Hsw & Hwf' & Hlines).
  rewrite Hsw in Hmoved. injection Hmoved as <-.
  cbn [_grid set_grid set_score] in *.
  destruct (swipe_changed_empty direction _ _ g' Hd Hwf Hwf' Hlines Hch)
    as (q & Hq & Hnone).
  destruct (picked_is_Some _ _ d_loc q Hq Hnone) as [p Hp].
  exists p. split; [done|]. split; [done|].
  assert (perform_move direction d_num d_loc self
          = add_tile d_num d_loc
              (set_undo_available
                 (set_prev_grid
                    (set_score (set_grid self g')
                       (_score self + total_gain (_grid self)
                          (lines_of direction (Z.to_nat (_size self)))))
                    (Some (_grid self))) true)) as Hpm.
  { rewrite perform_move_unfold, Hsw, bind_Ok by done.
    cbn [_grid set_grid set_score]. by rewrite bool_decide_eq_true_2. }
  split; [done|].
  rewrite Hpm, add_tile_spec by exact Hwf'. cbn. by rewrite Hp.
Qed.

(** C7. When the swipe of [perform_move] changes the grid, [perform_move]
    returns the swiped board with the pre-move grid stored as
    [previous_grid], [undo_available] true and one cell, empty after the
    swipe, set to 2 or 4: when [add_tile] is called the list of empty cells
    is not empty, so its choice cannot fail. *)
Theorem perform_move_effective (direction : string) (d_num d_loc : nat)
    (self : Board) :
  valid_direction direction → wf self →
  ∃ moved : Board,
    swipe direction self = Ok moved
    ∧ (_grid moved ≠ _grid self →
       ∃ (empty : list (Z * Z)) (p : nat * nat) (v : Z),
         get_empty_tiles
           (set_undo_available (set_prev_grid moved (Some (_grid self))) true)
         = Ok empty
         ∧ empty ≠ []
         ∧ perform_move direction d_num d_loc self
           = add_tile d_num d_loc
               (set_undo_available (set_prev_grid moved (Some (_grid self))) true)
         ∧ loc_of p ∈ empty
         ∧ tile_at (_grid moved) p = None
         ∧ (v = 2 ∨ v = 4)
         ∧ perform_move direction d_num d_loc self
           = Ok (mkBoard (_size self) (upd (_grid moved) p (Some v))
                         (Some (_grid self)) true (_score moved)
                         (_tile_size self) (_color_scheme self))).
Proof.
  intros Hd Hwf.
  destruct (swipe_spec direction self Hd Hwf) as (g' & Hsw & _).
  eexists. split; [exact Hsw|]. intros Hch.
  destruct (perform_move_changed direction d_num d_loc self _ Hd Hwf Hsw Hch)
    as (p & Hp & Hwf' & Hpm & Hrun).
  pose proof (picked_empty _ _ _ _ Hp) as [Hin Hpnone].
  set (moved := set_score _ _) in *.
  assert (loc_of p ∈ loc_of <$> empty_positions (Z.to_nat (_size self)) (_grid moved))
    as Hel by (by rewrite elem_of_loc_of, elem_of_empty_positions).
  exists (loc_of <$> empty_positions (Z.to_nat (_size self)) (_grid moved)), p,
    (randint 1 2 d_num * 2).
  split; [by rewrite get_empty_tiles_spec by exact Hwf'|].
  split; [intros Hnil; rewrite Hnil in Hel; by apply elem_of_nil in Hel|].
  split; [done|]. split; [done|]. split; [done|].
  split; [apply randint_tile|done].
Qed.

Lemma wf_merge_board : wf merge_board.
Proof. split; [reflexivity|]. repeat constructor. Defined.

Lemma valid_direction_l : valid_direction "l".
Proof. unfold valid_direction. repeat constructor. Defined.

Lemma perform_move_effective_witness :
  ∃ (empty : list (Z * Z)) (p : nat * nat) (v : Z),
    get_empty_tiles
      (set_undo_available
         (set_prev_grid merge_board_moved (Some (_grid merge_board))) true)
    = Ok empty
    ∧ empty ≠ []
    ∧ perform_move "l" 0 7 merge_board
      = add_tile 0 7
          (set_undo_available
             (set_prev_grid merge_board_moved (Some (_grid merge_board))) true)
    ∧ loc_of p ∈ empty
    ∧ tile_at (_grid merge_board_moved) p = None
    ∧ (v = 2 ∨ v = 4)
    ∧ perform_move "l" 0 7 merge_board
      = Ok (mkBoard (_size merge_board) (upd (_grid merge_board_moved) p (Some v))
                    (Some (_grid merge_board)) true (_score merge_board_moved)
                    (_tile_size merge_board) (_color_scheme merge_board)).
Proof.
  destruct (perform_move_effective "l" 0 7 merge_board
              valid_direction_l wf_merge_board) as (moved & Hsw & Heff).
  assert (moved = merge_board_moved) as ->.
  { assert (swipe "l" merge_board = Ok merge_board_moved) as Hrun by reflexivity.
    rewrite Hrun in Hsw. by injection Hsw. }
  apply Heff. discriminate.
Defined.

(** C6. A [perform_move] whose swipe leaves the grid as it was returns the
    board exactly as it was before the call: grid, score, [undo_available]
    and [previous_grid] (no tile is spawned); and [perform_move] returns a
    board with the pre-move grid in no other case. *)
Theorem perform_move_without_effect (direction : string) (d_num d_loc : nat)
    (self : Board) :
  valid_direction direction → wf self →
  ∃ moved self' : Board,
    swipe direction self = Ok moved
    ∧ perform_move direction d_num d_loc self = Ok self'
    ∧ (_grid moved = _grid self → self' = self)
    ∧ (_grid self' = _grid self → self' = self).
Proof.
  intros Hd Hwf.
  destruct (swipe_spec direction self Hd Hwf) as (g' & Hsw & Hwf' & Hlines).
  destruct (decide (g' = _grid self)) as [Heq|Hne].
  - exists (set_score (set_grid self g')
              (_score self + total_gain (_grid self)
                 (lines_of direction (Z.to_nat (_size self))))), self.
    split; [done|]. split; [|done].
    rewrite perform_move_unfold, Hsw, bind_Ok by done.
    cbn [_grid set_grid set_score].
    rewrite bool_decide_eq_false_2 by (intros H; by apply H).
    rewrite (swipe_fixed_gain (Z.to_nat (_size self)) _ g') by done.
    rewrite Z.add_0_r. by destruct self.
  - destruct (perform_move_changed direction d_num d_loc self _ Hd Hwf Hsw)
      as (p & Hp & _ & _ & Hrun); [done|].
    cbn [_grid set_grid set_score] in Hp, Hrun.
    pose proof (picked_empty _ _ _ _ Hp) as [Hin Hnone].
    eexists _, _. split; [exact Hsw|]. split; [exact Hrun|].
    cbn [_grid set_grid set_score]. split; [done|]. intros Heq. exfalso.
    apply (swipe_then_tile_differs direction (Z.to_nat (_size self))
             (_grid self) g' p (randint 1 2 d_num * 2)); try done.
    destruct (randint_tile d_num) as [-> | ->]; lia.
Qed.

Lemma wf_stuck_board : wf stuck_board.
Proof. split; [reflexivity|]. repeat constructor. Defined.

Lemma perform_move_without_effect_witness :
  perform_move "l" 3 3 stuck_board = Ok stuck_board.
Proof.
  destruct (perform_move_without_effect "l" 3 3 stuck_board
              valid_direction_l wf_stuck_board)
    as (moved & self' & Hsw & Hrun & Hnoop & _).
  rewrite Hrun. f_equal. apply Hnoop.
  assert (swipe "l" stuck_board = Ok stuck_board) as Hfix by reflexivity.
  rewrite Hfix in Hsw. by injection Hsw as <-.
Defined.

(** ** The single-merge rule *)

Lemma nonzero_app (r1 r2 : list Z) : nonzero (r1 ++ r2) = nonzero r1 ++ nonzero r2.
Proof. unfold nonzero. apply filter_app. Qed.

Lemma nonzero_singleton (v : Z) : v ≠ 0 → nonzero [v] = [v].
Proof. intros Hv. unfold nonzero. by rewrite filter_cons_True. Qed.

Lemma merge_line_merged_once (line : list tile) (out : list Z) (lst : Z) :
  Forall (λ v, v ≠ 0) (tiles_of line) →
  ∃ o, nonzero (merge_line out lst line).1 = nonzero out ++ o
       ∧ merged_once (nonzero [lst] ++ tiles_of line) o (merge_line out lst line).2.
Proof.
  revert out lst. induction line as [|[cur|] line IH]; intros out lst Hnz; simpl.
  - exists (nonzero [lst]). rewrite nonzero_app, app_nil_r. split; [done|].
    destruct (decide (lst = 0)) as [->|Hl]; [constructor|].
    rewrite nonzero_singleton by done. repeat constructor.
  - simpl in Hnz. apply Forall_cons in Hnz as [Hcur Hnz].
    case_bool_decide as Heq.
    + subst lst. destruct (IH (out ++ [cur * 2]) 0 Hnz) as (o & Ho & Hm).
      destruct (merge_line (out ++ [cur * 2]) 0 line) as [row s]. simpl in *.
      exists (cur * 2 :: o). rewrite Ho, nonzero_app.
      rewrite (nonzero_singleton (cur * 2)) by lia.
      rewrite (nonzero_singleton cur) by done.
      split; [by rewrite <- app_assoc|]. simpl. by constructor.
    + destruct (IH (out ++ [lst]) cur Hnz) as (o & Ho & Hm).
      rewrite (nonzero_singleton cur) in Hm by done. simpl in Hm.
      rewrite Ho, nonzero_app.
      destruct (decide (lst = 0)) as [->|Hl].
      * exists o. by rewrite app_nil_r.
      * rewrite (nonzero_singleton lst) by done.
        exists (lst :: o). split; [by rewrite <- app_assoc|].
        simpl. by constructor.
  - by apply IH.
Qed.

Lemma slide_merged_once (line : list tile) :
  Forall (λ v, v ≠ 0) (tiles_of line) →
  merged_once (tiles_of line) (tiles_of (slide line)) (gain line).
Proof.
  intros Hnz. destruct (merge_line_merged_once line [] 0 Hnz) as (o & Ho & Hm).
  unfold slide, gain. rewrite tiles_of_compact, Ho. exact Hm.
Qed.

(** ** The score of a horizontal swipe, row by row *)

Lemma grid_rows (n : nat) (g : Grid) : length g = n → grid_row g <$> seq 0 n = g.
Proof.
  intros Hlen. apply list_eq. intros y. rewrite list_lookup_fmap.
  destruct (decide (y < n)%nat) as [Hy|Hy].
  - rewrite lookup_seq_lt by done. simpl. unfold grid_row.
    destruct (lookup_lt_is_Some_2 g y) as [row Hrow]; [lia|]. by rewrite Hrow.
  - rewrite lookup_seq_ge by lia. simpl. symmetry. apply lookup_ge_None. lia.
Qed.

Lemma total_gain_left (n : nat) (g : Grid) :
  wf_grid n g → total_gain g (lines_of "l" n) = sumZ (gain <$> g).
Proof.
  intros Hwf. unfold total_gain, lines_of. simpl.
  transitivity (sumZ (gain <$> (grid_row g <$> seq 0 n)));
    [|by rewrite (grid_rows n g) by apply Hwf].
  rewrite <- !list_fmap_compose. f_equal.
  apply list_fmap_ext. intros _ y Hy%list_elem_of_lookup_2%elem_of_seq. simpl.
  f_equal. apply line_left_row; [done|lia].
Qed.

Lemma total_gain_right (n : nat) (g : Grid) :
  wf_grid n g →
  total_gain g (lines_of "r" n) = sumZ ((λ row, gain (reverse row)) <$> g).
Proof.
  intros Hwf. unfold total_gain, lines_of. simpl.
  transitivity (sumZ ((λ row, gain (reverse row)) <$> (grid_row g <$> seq 0 n)));
    [|by rewrite (grid_rows n g) by apply Hwf].
  rewrite <- !list_fmap_compose. f_equal.
  apply list_fmap_ext. intros _ y Hy%list_elem_of_lookup_2%elem_of_seq. simpl.
  f_equal. apply line_right_row; [done|lia].
Qed.

Lemma sumZ_single {A : Type} (f : A → Z) (l : list A) (i : nat) (a : A) :
  l !! i = Some a →
  (∀ j b, j ≠ i → l !! j = Some b → f b = 0) →
  sumZ (f <$> l) = f a.
Proof.
  revert i. induction l as [|c l IH]; intros i Hi Hother; [done|].
  rewrite fmap_cons. cbn [sumZ foldr]. fold (sumZ (f <$> l)).
  destruct i as [|i]; simpl in Hi.
  - injection Hi as ->. rewrite sumZ_zero; [lia|].
    apply Forall_fmap, Forall_lookup_2. intros j b Hb.
    apply (Hother (S j)); [lia|done].
  - rewrite (Hother 0%nat c) by (done || lia).
    rewrite (IH i); [lia|done|].
    intros j b Hj Hb. apply (Hother (S j)); [lia|done].
Qed.

Lemma grid_row_lookup (n : nat) (g : Grid) (y : nat) (row : list tile) :
  wf_grid n g → (y < n)%nat → grid_row g y = row → g !! y = Some row.
Proof.
  intros [Hlen _] Hy <-. unfold grid_row.
  destruct (lookup_lt_is_Some_2 g y) as [r Hr]; [lia|]. by rewrite Hr.
Qed.

Lemma merge_line_empty (line : list tile) (out : list Z) (lst : Z) :
  Forall (λ t, t = None) line → merge_line out lst line = (out ++ [lst], 0).
Proof. induction 1 as [|t line -> _ IH]; simpl; done. Qed.

Lemma gain_empty (line : list tile) : Forall (λ t, t = None) line → gain line = 0.
Proof. intros H. unfold gain. by rewrite merge_line_empty. Qed.

Lemma swipe_left_rows (self : Board) :
  wf self →
  ∃ g' : Grid,
    swipe_left self
    = Ok (set_score (set_grid self g') (_score self + sumZ (gain <$> _grid self)))
    ∧ ∀ y row, _grid self !! y = Some row → g' !! y = Some (slide row).
Proof.
  intros Hwf.
  destruct (swipe_scan_lines "l" self valid_direction_l Hwf)
    as (g' & Hrun & Hwf' & Hlines).
  exists g'. rewrite total_gain_left in Hrun by done. split; [exact Hrun|].
  intros y row Hrow.
  assert (y < Z.to_nat (_size self))%nat as Hy.
  { destruct Hwf as [<- _]. by eapply lookup_lt_Some. }
  apply (grid_row_lookup (Z.to_nat (_size self))); [done..|].
  specialize (Hlines y Hy). unfold scan_line in Hlines. simpl in Hlines.
  rewrite Hlines. unfold grid_row. by rewrite Hrow.
Qed.

Lemma valid_direction_r : valid_direction "r".
Proof. unfold valid_direction. repeat constructor. Defined.

Lemma swipe_right_rows (self : Board) :
  wf self →
  ∃ g' : Grid,
    swipe_right self
    = Ok (set_score (set_grid self g')
            (_score self + sumZ ((λ row, gain (reverse row)) <$> _grid self)))
    ∧ ∀ y row, _grid self !! y = Some row →
        g' !! y = Some (reverse (slide (reverse row))).
Proof.
  intros Hwf.
  destruct (swipe_scan_lines "r" self valid_direction_r Hwf)
    as (g' & Hrun & Hwf' & Hlines).
  exists g'. rewrite total_gain_right in Hrun by done. split; [exact Hrun|].
  intros y row Hrow.
  assert (y < Z.to_nat (_size self))%nat as Hy.
  { destruct Hwf as [<- _]. by eapply lookup_lt_Some. }
  apply (grid_row_lookup (Z.to_nat (_size self))); [done..|].
  specialize (Hlines y Hy). unfold scan_line in Hlines. simpl in Hlines.
  assert (grid_row (_grid self) y = row) as Hr
    by (unfold grid_row; by rewrite Hrow).
  rewrite Hr in Hlines. by rewrite <- Hlines, reverse_involutive.
Qed.

(** C2. On a board with a row [2,4,2,2], [swipe_right] makes that row
    [empty,2,4,4]; the score grows by the gains of the rows, of which this
    row's is 4: by exactly 4 when the other rows are empty. *)
Theorem swipe_right_2_4_2_2 (self : Board) (y : nat) :
  wf self → _grid self !! y = Some [Some 2; Some 4; Some 2; Some 2] →
  ∃ moved : Board,
    swipe_right self = Ok moved
    ∧ _grid moved !! y = Some [None; Some 2; Some 4; Some 4]
    ∧ _score moved
      = _score self + sumZ ((λ row, gain (reverse row)) <$> _grid self)
    ∧ gain (reverse [Some 2; Some 4; Some 2; Some 2]) = 4
    ∧ ((∀ y' row, y' ≠ y → _grid self !! y' = Some row → Forall (λ t, t = None) row) →
       _score moved = _score self + 4).
Proof.
  intros Hwf Hrow. destruct (swipe_right_rows self Hwf) as (g' & Hrun & Hrows).
  eexists. split; [exact Hrun|]. cbn [_grid _score set_grid set_score].
  split; [by rewrite (Hrows y _ Hrow)|].
  split; [done|]. split; [done|]. intros Hothers. f_equal.
  rewrite (sumZ_single _ _ y _ Hrow); [done|].
  intros y' row Hy' Hr. apply gain_empty, Forall_reverse. by eapply Hothers.
Qed.

Lemma wf_board_2422 : wf board_2422.
Proof. split; [reflexivity|]. repeat constructor. Defined.

Lemma swipe_right_2_4_2_2_witness :
  ∃ moved : Board,
    swipe_right board_2422 = Ok moved
    ∧ _grid moved !! 1%nat = Some [None; Some 2; Some 4; Some 4]
    ∧ _score moved = _score board_2422 + 4.
Proof.
  destruct (swipe_right_2_4_2_2 board_2422 1 wf_board_2422)
    as (moved & Hrun & Hrow & _ & _ & Hscore); [reflexivity|].
  exists moved. split; [exact Hrun|]. split; [exact Hrow|].
  apply Hscore. clear.
  intros [|[|[|[|y']]]] row Hy' Hrow'; vm_compute in Hrow';
    first [ exfalso; apply Hy'; reflexivity
          | discriminate Hrow'
          | injection Hrow' as <-; repeat constructor ].
Defined.

(** C3. In the swipe of a [perform_move], on a board that holds no 0, each
    line after the pass is made of the tiles found on it, in scan order,
    each kept as it is or merged once with its equal neighbour: no tile
    takes part in two merges, and the score the line adds is the sum of its
    doubles.  A row [2,2,2,2] becomes [4,4,empty,empty] under [swipe_left],
    which adds 8 to the score when the other rows are empty. *)
Theorem swipe_merges_each_tile_once :
  (∀ (direction : string) (self : Board),
     valid_direction direction → wf self →
     Forall (Forall (λ t, t ≠ Some 0)) (_grid self) →
     ∃ moved : Board,
       swipe direction self = Ok moved
       ∧ ∀ i, (i < Z.to_nat (_size self))%nat →
           merged_once (tiles_of (scan_line direction (_grid self) i))
                       (tiles_of (scan_line direction (_grid moved) i))
                       (gain (scan_line direction (_grid self) i)))
  ∧ (∀ (self : Board) (y : nat),
       wf self → _grid self !! y = Some [Some 2; Some 2; Some 2; Some 2] →
       ∃ moved : Board,
         swipe_left self = Ok moved
         ∧ _grid moved !! y = Some [Some 4; Some 4; None; None]
         ∧ gain [Some 2; Some 2; Some 2; Some 2] = 8
         ∧ ((∀ y' row, y' ≠ y → _grid self !! y' = Some row →
               Forall (λ t, t = None) row) →
            _score moved = _score self + 8)).
Proof.
  split.
  - intros direction self Hd Hwf Hnz.
    destruct (swipe_scan_lines direction self Hd Hwf)
      as (g' & Hrun & Hwf' & Hlines).
    eexists. split; [exact Hrun|]. cbn [_grid set_grid set_score].
    intros i Hi. rewrite (Hlines i Hi). apply slide_merged_once.
    assert (Forall (λ t, t ≠ Some 0) (scan_line direction (_grid self) i)) as Hline.
    { assert (Forall (λ t, t ≠ Some 0) (grid_row (_grid self) i)) as Hr.
      { unfold grid_row. destruct (_grid self !! i) as [row|] eqn:Hrow; [|done].
        simpl. rewrite Forall_forall in Hnz. apply Hnz.
        eapply list_elem_of_lookup_2, Hrow. }
      assert (Forall (λ t, t ≠ Some 0) (grid_col (_grid self) i)) as Hc.
      { unfold grid_col. apply Forall_fmap, Forall_forall. intros row Hrow. simpl.
        destruct (row !! i) as [t|] eqn:Ht; [|done]. simpl.
        rewrite Forall_forall in Hnz. specialize (Hnz row Hrow).
        rewrite Forall_forall in Hnz. apply Hnz. eapply list_elem_of_lookup_2, Ht. }
      unfold scan_line. repeat case_bool_decide; by rewrite ?Forall_reverse. }
    clear -Hline. induction Hline as [|[v|] line Ht _ IH]; simpl; [done| |done].
    constructor; [congruence|done].
  - intros self y Hwf Hrow.
    destruct (swipe_left_rows self Hwf) as (g' & Hrun & Hrows).
    eexists. split; [exact Hrun|]. cbn [_grid _score set_grid set_score].
    split; [by rewrite (Hrows y _ Hrow)|]. split; [done|].
    intros Hothers. f_equal. rewrite (sumZ_single _ _ y _ Hrow); [done|].
    intros y' row Hy' Hr. apply gain_empty. by eapply Hothers.
Qed.

Lemma wf_board_2222 : wf board_2222.
Proof. split; [reflexivity|]. repeat constructor. Defined.

Lemma swipe_merges_each_tile_once_witness :
  (∃ moved : Board,
     swipe "l" board_2222 = Ok moved
     ∧ ∀ i, (i < Z.to_nat (_size board_2222))%nat →
         merged_once (tiles_of (scan_line "l" (_grid board_2222) i))
                     (tiles_of (scan_line "l" (_grid moved) i))
                     (gain (scan_line "l" (_grid board_2222) i)))
  ∧ (∃ moved : Board,
       swipe_left board_2222 = Ok moved
       ∧ _grid moved !! 0%nat = Some [Some 4; Some 4; None; None]
       ∧ gain [Some 2; Some 2; Some 2; Some 2] = 8
       ∧ ((∀ y' row, y' ≠ 0%nat → _grid board_2222 !! y' = Some row →
             Forall (λ t, t = None) row) →
          _score moved = _score board_2222 + 8)).
Proof.
  split.
  - apply (proj1 swipe_merges_each_tile_once "l" board_2222
             valid_direction_l wf_board_2222).
    repeat constructor; discriminate.
  - apply (proj2 swipe_merges_each_tile_once board_2222 0%nat wf_board_2222).
    reflexivity.
Defined.

(** ** Game over *)

Lemma spec_game_over_list_sound (n : nat) (g : Grid) :
  spec_game_over_list n g → spec_game_over n g.
Proof.
  intros [Hfull Hadj]. rewrite Forall_forall in Hfull, Hadj. split.
  - intros p Hp. by apply Hfull, elem_of_positions.
  - intros p q Hp Hq. specialize (Hadj p (proj2 (elem_of_positions n p) Hp)).
    rewrite Forall_forall in Hadj. by apply Hadj, elem_of_positions.
Qed.

Lemma wf_final_board : wf final_board.
Proof. split; [reflexivity|]. repeat constructor. Defined.

Lemma range_two (size : Z) :
  2 ≤ size → range size = 0 :: 1 :: seqZ 2 (size - 2).
Proof.
  intros Hsize. unfold range.
  rewrite seqZ_cons by lia. rewrite seqZ_cons by lia.
  do 3 f_equal; lia.
Qed.

Lemma for_return_cons_Some {A R : Type} (x : A) (xs : list A)
    (body : A → result (option R)) (v : R) :
  body x = Ok (Some v) → for_return (x :: xs) body = Ok (Some v).
Proof. intros H. simpl. by rewrite H. Qed.

Lemma for_return_cons_None {A R : Type} (x : A) (xs : list A)
    (body : A → result (option R)) :
  body x = Ok None → for_return (x :: xs) body = for_return xs body.
Proof. intros H. simpl. by rewrite H. Qed.

Lemma grid_getitem_nat (self : Board) (y x : nat) :
  wf self → (y < Z.to_nat (_size self))%nat → (x < Z.to_nat (_size self))%nat →
  grid_getitem self (Z.of_nat y) (Z.of_nat x) = Ok (tile_at (_grid self) (y, x)).
Proof.
  intros Hwf Hy Hx.
  apply (grid_getitem_Ok self (Z.to_nat (_size self))); [done|..];
    by apply norm_index_nonneg.
Qed.

(** The last test of [_get_adjacent_tiles] reads [self._grid[y][y+1]]: at
    the cell [x = 1], [y = 0] that is the cell itself, which therefore is
    among its own neighbours. *)
Lemma _get_adjacent_tiles_1_0 (self : Board) :
  wf self → 2 ≤ _size self →
  ∃ adj, _get_adjacent_tiles self 1 0 = Ok adj
         ∧ tile_at (_grid self) (0, 1)%nat ∈ adj.
Proof.
  intros Hwf Hsize. unfold _get_adjacent_tiles.
  rewrite !bool_decide_eq_true_2 by lia.
  pose proof (grid_getitem_nat self 0 0 Hwf) as H00.
  pose proof (grid_getitem_nat self 0 1 Hwf) as H01.
  pose proof (grid_getitem_nat self 0 2 Hwf) as H02.
  change (Z.of_nat 0) with 0 in *. change (Z.of_nat 1) with 1 in *.
  change (Z.of_nat 2) with 2 in *.
  change (1 - 1) with 0. change (1 + 1) with 2. change (0 + 1) with 1.
  rewrite H00, H01 by lia. rewrite !bind_Ok.
  rewrite (bool_decide_eq_true_2 (0 < 1)) by lia.
  rewrite (bool_decide_eq_false_2 (0 < 0)) by lia. rewrite !bind_Ok.
  case_bool_decide.
  - rewrite H02 by lia. rewrite !bind_Ok.
    eexists. split; [done|]. apply elem_of_app. right. constructor.
  - rewrite !bind_Ok. eexists. split; [done|]. apply elem_of_app. right. constructor.
Qed.

Lemma _get_adjacent_tiles_0_0 (self : Board) :
  wf self → 2 ≤ _size self → ∃ adj, _get_adjacent_tiles self 0 0 = Ok adj.
Proof.
  intros Hwf Hsize. unfold _get_adjacent_tiles.
  rewrite !bool_decide_eq_true_2 by lia.
  pose proof (grid_getitem_nat self 0 1 Hwf) as H01.
  change (Z.of_nat 0) with 0 in *. change (Z.of_nat 1) with 1 in *.
  rewrite (bool_decide_eq_false_2 (0 < 0)) by lia.
  change (0 + 1) with 1. rewrite H01 by lia. rewrite !bind_Ok. by eexists.
Qed.

(** The scan of row 0 returns false, at its first or at its second cell. *)
Lemma is_game_over_row_0 (self : Board) :
  wf self → 2 ≤ _size self →
  for_return (range (_size self)) (λ x,
    t ← grid_getitem self 0 x;
    adj ← _get_adjacent_tiles self x 0;
    if bool_decide (t ∈ adj) then Ok (Some false) else Ok None)
  = Ok (Some false).
Proof.
  intros Hwf Hsize. rewrite range_two by done.
  pose proof (grid_getitem_nat self 0 0 Hwf) as H00.
  pose proof (grid_getitem_nat self 0 1 Hwf) as H01.
  change (Z.of_nat 0) with 0 in *. change (Z.of_nat 1) with 1 in *.
  destruct (_get_adjacent_tiles_0_0 self Hwf Hsize) as (adj0 & Hadj0).
  destruct (_get_adjacent_tiles_1_0 self Hwf Hsize) as (adj1 & Hadj1 & Hin).
  destruct (decide (tile_at (_grid self) (0, 0)%nat ∈ adj0)) as [Hin0|Hnin0].
  - apply for_return_cons_Some.
    rewrite H00, bind_Ok, Hadj0, bind_Ok by lia.
    by rewrite bool_decide_eq_true_2.
  - rewrite for_return_cons_None.
    + apply for_return_cons_Some.
      rewrite H01, bind_Ok, Hadj1, bind_Ok by lia.
      by rewrite bool_decide_eq_true_2.
    + rewrite H00, bind_Ok, Hadj0, bind_Ok by lia.
      by rewrite bool_decide_eq_false_2.
Qed.

(** On a board of side 2 or more [is_game_over] never answers true. *)
Lemma is_game_over_never_true (self : Board) :
  wf self → 2 ≤ _size self → is_game_over self = Ok false.
Proof.
  intros Hwf Hsize. unfold is_game_over.
  rewrite get_empty_tiles_spec, bind_Ok by done.
  case_bool_decide; [done|].
  rewrite (range_two (_size self)) at 1 by done.
  rewrite for_return_cons_Some with (v := false); [done|].
  by apply is_game_over_row_0.
Qed.

(** With an empty cell on the board [is_game_over] answers false. *)
Lemma is_game_over_empty_cell (self : Board) (q : nat * nat) :
  wf self → in_grid (Z.to_nat (_size self)) q → tile_at (_grid self) q = None →
  is_game_over self = Ok false.
Proof.
  intros Hwf Hq Hnone. unfold is_game_over.
  rewrite get_empty_tiles_spec, bind_Ok by done.
  rewrite bool_decide_eq_true_2; [done|].
  intros Hnil. apply fmap_nil_inv in Hnil.
  assert (q ∈ empty_positions (Z.to_nat (_size self)) (_grid self)) as Hin
    by by apply elem_of_empty_positions.
  rewrite Hnil in Hin. by apply elem_of_nil in Hin.
Qed.

(** C1 (the code departs from it). The board [final_board] is full and no
    two adjacent cells of it hold the same value, yet [is_game_over] answers
    false on it. *)
Theorem is_game_over_misses_final_board :
  spec_game_over 4 (_grid final_board)
  ∧ get_empty_tiles final_board = Ok []
  ∧ is_game_over final_board = Ok false.
Proof.
  split; [|split].
  - apply spec_game_over_list_sound.
    apply (bool_decide_unpack (spec_game_over_list 4 (_grid final_board))).
    vm_compute. exact I.
  - reflexivity.
  - reflexivity.
Qed.

(** * Further properties of the engine *)

(** ** [get_max] *)

Lemma get_max_row (row : list tile) (m : Z) :
  let m' := foldl (λ max_tile t,
              match t with
              | Some v => if bool_decide (v > max_tile) then v else max_tile
              | None => max_tile
              end) m row in
  m ≤ m' ∧ (∀ v, Some v ∈ row → v ≤ m') ∧ (m' = m ∨ Some m' ∈ row).
Proof.
  revert m. induction row as [|t row IH]; intros m; simpl.
  - split; [lia|]. split; [|by left]. intros v Hv. by apply elem_of_nil in Hv.
  - destruct t as [v|].
    + case_bool_decide as Hgt.
      * destruct (IH v) as (Hle & Hall & Hin). split; [lia|]. split.
        -- intros w [[= ->]|Hw]%elem_of_cons; [done|by apply Hall].
        -- right. destruct Hin as [->|Hin]; [by left|by right].
      * destruct (IH m) as (Hle & Hall & Hin). split; [done|]. split.
        -- intros w [[= ->]|Hw]%elem_of_cons; [lia|by apply Hall].
        -- destruct Hin as [->|Hin]; [by left|right; by right].
    + destruct (IH m) as (Hle & Hall & Hin). split; [done|]. split.
      * intros w [?|Hw]%elem_of_cons; [done|by apply Hall].
      * destruct Hin as [->|Hin]; [by left|right; by right].
Qed.

Lemma get_max_rows (g : Grid) (m : Z) :
  let m' := foldl (λ max_tile row,
              foldl (λ max_tile t,
                match t with
                | Some v => if bool_decide (v > max_tile) then v else max_tile
                | None => max_tile
                end) max_tile row) m g in
  m ≤ m'
  ∧ (∀ row v, row ∈ g → Some v ∈ row → v ≤ m')
  ∧ (m' = m ∨ ∃ row, row ∈ g ∧ Some m' ∈ row).
Proof.
  revert m. induction g as [|r g IH]; intros m; simpl.
  - split; [lia|]. split; [|by left]. intros row v Hrow. by apply elem_of_nil in Hrow.
  - destruct (get_max_row r m) as (Hle1 & Hall1 & Hin1). simpl in *.
    set (m1 := foldl _ m r) in *.
    destruct (IH m1) as (Hle & Hall & Hin). split; [lia|]. split.
    + intros row v [->|Hrow]%elem_of_cons Hv.
      * specialize (Hall1 v Hv). lia.
      * by eapply Hall.
    + destruct Hin as [Heq|(row & Hrow & Hin)].
      * rewrite Heq. destruct Hin1 as [->|Hin1]; [by left|].
        right. exists r. split; [by left|done].
      * right. exists row. split; [by right|done].
Qed.

(** X1. [get_max] is at least 0 and at least every tile on the board; it is
    0 or the value of a tile that is on the board. *)
Theorem get_max_is_the_maximum (self : Board) :
  0 ≤ get_max self
  ∧ (∀ row v, row ∈ _grid self → Some v ∈ row → v ≤ get_max self)
  ∧ (get_max self = 0 ∨ ∃ row, row ∈ _grid self ∧ Some (get_max self) ∈ row).
Proof. apply get_max_rows. Qed.

Lemma get_max_is_the_maximum_witness :
  4 ≤ get_max columns_board
  ∧ (get_max columns_board = 0
     ∨ ∃ row, row ∈ _grid columns_board ∧ Some (get_max columns_board) ∈ row).
Proof.
  destruct (get_max_is_the_maximum columns_board) as (_ & Hall & Hin).
  split; [|exact Hin].
  apply (Hall [None; Some 2; None; Some 4]); repeat constructor.
Defined.

(** ** [add_tile] on a full board *)

Lemma full_grid_empty_positions (n : nat) (g : Grid) :
  full_grid n g ↔ empty_positions n g = [].
Proof.
  split.
  - intros Hfull. destruct (empty_positions n g) as [|q l] eqn:Hemp; [done|].
    assert (q ∈ empty_positions n g) as Hq by (rewrite Hemp; left).
    apply elem_of_empty_positions in Hq as [Hin Hnone]. by destruct (Hfull q Hin).
  - intros Hemp p Hp Hnone.
    assert (p ∈ empty_positions n g) as Hin by by apply elem_of_empty_positions.
    rewrite Hemp in Hin. by apply elem_of_nil in Hin.
Qed.

(** X2. On a well-shaped board [add_tile] raises exactly when no cell is
    empty, and what it raises then is [IndexError] (the choice from an empty
    list). *)
Theorem add_tile_raises_iff_full (d_num d_loc : nat) (self : Board) :
  wf self →
  (add_tile d_num d_loc self = Raise IndexError
   ↔ full_grid (Z.to_nat (_size self)) (_grid self))
  ∧ (∀ e, add_tile d_num d_loc self = Raise e → e = IndexError).
Proof.
  intros Hwf. rewrite add_tile_spec by done.
  destruct (picked _ _ d_loc) as [p|] eqn:Hp.
  - apply picked_empty in Hp as [Hin Hnone]. split; [|done]. split; [done|].
    intros Hfull. by destruct (Hfull p Hin).
  - split; [|by intros e [= <-]]. split; [|done]. intros _ q Hq Hnone.
    destruct (picked_is_Some _ _ d_loc q Hq Hnone) as [p' Hp'].
    rewrite Hp in Hp'. done.
Qed.

Lemma add_tile_raises_iff_full_witness :
  add_tile 3 9 final_board = Raise IndexError.
Proof.
  apply (add_tile_raises_iff_full 3 9 final_board wf_final_board).
  apply full_grid_empty_positions. reflexivity.
Defined.

(** ** [is_game_over], completely *)

Lemma is_game_over_side_le_1 (self : Board) :
  wf self → _size self ≤ 1 →
  full_grid (Z.to_nat (_size self)) (_grid self) →
  is_game_over self = Ok true.
Proof.
  intros Hwf Hsize Hfull. unfold is_game_over.
  rewrite get_empty_tiles_spec, bind_Ok by done.
  apply full_grid_empty_positions in Hfull. rewrite Hfull.
  rewrite bool_decide_eq_false_2 by (intros H; by apply H).
  destruct (decide (_size self ≤ 0)) as [Hle|Hgt].
  - assert (range (_size self) = []) as ->; [|done].
    unfold range, seqZ. by replace (Z.to_nat (_size self)) with 0%nat by lia.
  - assert (_size self = 1) as Hone by lia.
    assert (range (_size self) = [0]) as Hrange by (by rewrite Hone).
    rewrite Hrange.
    assert (for_return [0] (λ x,
              t ← grid_getitem self 0 x;
              adj ← _get_adjacent_tiles self x 0;
              if bool_decide (t ∈ adj) then Ok (Some false) else Ok None)
            = Ok None) as Hrow.
    { rewrite for_return_cons_None; [done|].
      pose proof (grid_getitem_nat self 0 0 Hwf) as H00.
      change (Z.of_nat 0) with 0 in H00. rewrite H00, bind_Ok by lia.
      unfold _get_adjacent_tiles.
      rewrite !(bool_decide_eq_true_2 (0 ≤ 0 < _size self)) by lia.
      rewrite (bool_decide_eq_false_2 (0 < 0)) by lia.
      rewrite (bool_decide_eq_false_2 (0 < _size self - 1)) by lia.
      rewrite !bind_Ok.
      rewrite bool_decide_eq_false_2; [done|]. apply not_elem_of_nil. }
    rewrite for_return_cons_None by exact Hrow. done.
Qed.

(** X3. On a well-shaped board [is_game_over] returns, and it returns true
    exactly when the side is at most 1 and no cell is empty: on a board of
    side 2 or more the answer is always false. *)
Theorem is_game_over_true_iff (self : Board) :
  wf self →
  ∃ b : bool,
    is_game_over self = Ok b
    ∧ (b = true
       ↔ _size self ≤ 1 ∧ full_grid (Z.to_nat (_size self)) (_grid self)).
Proof.
  intros Hwf.
  destruct (empty_positions (Z.to_nat (_size self)) (_grid self))
    as [|q l] eqn:Hemp.
  - apply full_grid_empty_positions in Hemp.
    destruct (decide (_size self ≤ 1)) as [Hle|Hgt].
    + exists true. split; [by apply is_game_over_side_le_1|done].
    + exists false. split; [apply is_game_over_never_true; [done|lia]|].
      split; [done|]. intros [? _]. lia.
  - assert (q ∈ empty_positions (Z.to_nat (_size self)) (_grid self)) as Hq
      by (rewrite Hemp; left).
    apply elem_of_empty_positions in Hq as [Hin Hnone].
    exists false. split; [by apply (is_game_over_empty_cell self q)|].
    split; [done|]. intros [_ Hfull]. by destruct (Hfull q Hin).
Qed.

Lemma wf_full_board1 : wf full_board1.
Proof. split; [reflexivity|]. repeat constructor. Defined.

Lemma is_game_over_true_iff_witness :
  ∃ b : bool,
    is_game_over full_board1 = Ok b
    ∧ (b = true
       ↔ _size full_board1 ≤ 1
         ∧ full_grid (Z.to_nat (_size full_board1)) (_grid full_board1)).
Proof. exact (is_game_over_true_iff full_board1 wf_full_board1). Defined.

(** ** Where a swipe leaves the tiles *)

(** X4. After a swipe every line of its direction, read in scan order,
    holds its tiles first and its empty cells after them. *)
Theorem swipe_packs_lines (direction : string) (self : Board) :
  valid_direction direction → wf self →
  ∃ moved : Board,
    swipe direction self = Ok moved
    ∧ ∀ i, (i < Z.to_nat (_size self))%nat →
        ∃ (vs : list Z) (k : nat),
          scan_line direction (_grid moved) i = (Some <$> vs) ++ replicate k None.
Proof.
  intros Hd Hwf.
  destruct (swipe_scan_lines direction self Hd Hwf) as (g' & Hrun & _ & Hlines).
  eexists. split; [exact Hrun|]. cbn [_grid set_grid set_score].
  intros i Hi. rewrite (Hlines i Hi). unfold slide, compact. by eexists _, _.
Qed.

Lemma valid_direction_d : valid_direction "d".
Proof. unfold valid_direction. repeat constructor. Defined.

Lemma wf_columns_board : wf columns_board.
Proof. split; [reflexivity|]. repeat constructor. Defined.

Lemma swipe_packs_lines_witness :
  ∃ moved : Board,
    swipe "d" columns_board = Ok moved
    ∧ ∃ (vs : list Z) (k : nat),
        scan_line "d" (_grid moved) 1 = (Some <$> vs) ++ replicate k None.
Proof.
  destruct (swipe_packs_lines "d" columns_board valid_direction_d wf_columns_board)
    as (moved & Hrun & Hlines).
  exists moved. split; [exact Hrun|]. apply Hlines. simpl. lia.
Defined.

(** ** A move and its undo *)

(** X5. After a [perform_move] that changed the grid, [undo] gives back the
    grid as it was before the move, keeps the score the move reached, and
    leaves undo unavailable. *)
Theorem undo_after_move (direction : string) (d_num d_loc : nat)
    (self self' : Board) :
  valid_direction direction → wf self →
  perform_move direction d_num d_loc self = Ok self' →
  _grid self' ≠ _grid self →
  ∃ self'' : Board,
    undo self' = Ok self''
    ∧ _grid self'' = _grid self
    ∧ _score self'' = _score self'
    ∧ can_undo self'' = false.
Proof.
  intros Hd Hwf Hrun Hch.
  destruct (swipe_spec direction self Hd Hwf) as (g' & Hsw & Hwf' & Hlines).
  destruct (decide (g' = _grid self)) as [Heq|Hne].
  - exfalso. apply Hch.
    rewrite perform_move_unfold, Hsw, bind_Ok in Hrun by done.
    cbn [_grid set_grid set_score] in Hrun.
    rewrite bool_decide_eq_false_2 in Hrun by (intros H; by apply H).
    by injection Hrun as <-.
  - destruct (perform_move_changed direction d_num d_loc self _ Hd Hwf Hsw)
      as (p & _ & _ & _ & Hrun'); [done|].
    rewrite Hrun in Hrun'. injection Hrun' as ->.
    unfold undo. cbn. rewrite copy_grid_id.
    eexists. split; [reflexivity|]. by cbn.
Qed.

Lemma undo_after_move_witness :
  ∃ self'' : Board,
    undo merge_board_played = Ok self''
    ∧ _grid self'' = _grid merge_board
    ∧ _score self'' = _score merge_board_played
    ∧ can_undo self'' = false.
Proof.
  apply (undo_after_move "l" 0 0 merge_board merge_board_played
           valid_direction_l wf_merge_board).
  - reflexivity.
  - discriminate.
Defined.

(** ** The score *)

Lemma is_pow2_pos (v : Z) : is_pow2 v → 0 < v.
Proof. intros (k & Hk & ->). apply Z.pow_pos_nonneg; lia. Qed.

Lemma merge_line_gain_nonneg (line : list tile) (out : list Z) (lst : Z) :
  Forall valid_tile line → 0 ≤ (merge_line out lst line).2.
Proof.
  revert out lst. induction line as [|[cur|] line IH]; intros out lst Hline;
    simpl; [done|..]; apply Forall_cons in Hline as [Hcur Hline].
  - case_bool_decide.
    + specialize (IH (out ++ [cur * 2]) 0 Hline).
      destruct (merge_line (out ++ [cur * 2]) 0 line) as [row s]. simpl in *.
      apply is_pow2_pos in Hcur. lia.
    + by apply IH.
  - by apply IH.
Qed.

Lemma sumZ_nonneg (l : list Z) : Forall (λ v, 0 ≤ v) l → 0 ≤ sumZ l.
Proof. induction 1 as [|v l Hv _ IH]; simpl; [done|]. fold (sumZ l). lia. Qed.

Lemma total_gain_nonneg (direction : string) (n : nat) (g : Grid) :
  wf_grid n g → valid_tiles g → 0 ≤ total_gain g (lines_of direction n).
Proof.
  intros Hwf Hval. unfold total_gain. apply sumZ_nonneg.
  apply Forall_fmap, Forall_forall. intros ps Hps. simpl.
  apply merge_line_gain_nonneg. apply Forall_fmap, Forall_forall. intros p Hp.
  simpl. apply (valid_tiles_tile_at n g Hwf); [done|].
  by eapply lines_of_in_grid.
Qed.

(** The score after [perform_move]: the old score and the gains of the
    lines, whether the move had an effect or not. *)
Lemma perform_move_score (direction : string) (d_num d_loc : nat)
    (self self' : Board) :
  valid_direction direction → wf self →
  perform_move direction d_num d_loc self = Ok self' →
  _score self'
  = _score self
    + total_gain (_grid self) (lines_of direction (Z.to_nat (_size self))).
Proof.
  intros Hd Hwf Hrun.
  destruct (swipe_spec direction self Hd Hwf) as (g' & Hsw & Hwf' & Hlines).
  rewrite perform_move_unfold, Hsw, bind_Ok in Hrun by done.
  cbn [_grid set_grid set_score] in Hrun. case_bool_decide.
  - rewrite add_tile_spec in Hrun by exact Hwf'. cbn in Hrun.
    destruct (picked _ _ d_loc); [|done]. by injection Hrun as <-.
  - by injection Hrun as <-.
Qed.

Lemma score_steps (self : Board) :
  board_inv self →
  (∀ direction d_num d_loc self',
     perform_move direction d_num d_loc self = Ok self' →
     _score self ≤ _score self')
  ∧ (∀ d_num d_loc self',
       add_tile d_num d_loc self = Ok self' → _score self' = _score self)
  ∧ (∀ self', undo self = Ok self' → _score self' = _score self).
Proof.
  intros (Hwf & Hval & Hprev & Hundo). split; [|split].
  - intros direction d_num d_loc self' Hrun.
    destruct (decide (valid_direction direction)) as [Hd|Hd].
    + rewrite (perform_move_score direction d_num d_loc self self') by done.
      pose proof (total_gain_nonneg direction _ _ Hwf Hval). lia.
    + unfold perform_move in Hrun.
      by rewrite bool_decide_eq_false_2 in Hrun by done.
  - intros d_num d_loc self'. rewrite add_tile_spec by done.
    destruct (picked _ _ d_loc); [|done]. by intros [= <-].
  - intros self'. unfold undo. destruct (_undo_available self); [|by intros [= <-]].
    destruct (_prev_grid self); [|done]. by intros [= <-].
Qed.

Lemma reachable_score_nonneg (self : Board) : reachable self → 0 ≤ _score self.
Proof.
  induction 1 as [size colors self Hinit
                 |direction d_num d_loc self self' Hr IH Hrun
                 |d_num d_loc self self' Hr IH Hrun
                 |self self' Hr IH Hrun].
  - unfold __init__, true_div in Hinit. case_bool_decide; [done|].
    by injection Hinit as <-.
  - destruct (score_steps self (reachable_inv self Hr)) as (Hmove & _).
    specialize (Hmove _ _ _ _ Hrun). lia.
  - destruct (score_steps self (reachable_inv self Hr)) as (_ & Hadd & _).
    by rewrite (Hadd _ _ _ Hrun).
  - destruct (score_steps self (reachable_inv self Hr)) as (_ & _ & Hun).
    by rewrite (Hun _ Hrun).
Qed.

(** X6. On every board the engine can reach the score is at least 0;
    [perform_move] never lowers it, and [add_tile] and [undo] leave it as it
    is. *)
Theorem score_never_decreases (self : Board) :
  reachable self →
  0 ≤ _score self
  ∧ (∀ direction d_num d_loc self',
       perform_move direction d_num d_loc self = Ok self' →
       _score self ≤ _score self')
  ∧ (∀ d_num d_loc self',
       add_tile d_num d_loc self = Ok self' → _score self' = _score self)
  ∧ (∀ self', undo self = Ok self' → _score self' = _score self).
Proof.
  intros Hr. split; [by apply reachable_score_nonneg|].
  by apply score_steps, reachable_inv.
Qed.

Lemma score_never_decreases_witness :
  0 ≤ _score seeded_board2
  ∧ (∀ direction d_num d_loc self',
       perform_move direction d_num d_loc seeded_board2 = Ok self' →
       _score seeded_board2 ≤ _score self')
  ∧ (∀ d_num d_loc self',
       add_tile d_num d_loc seeded_board2 = Ok self' →
       _score self' = _score seeded_board2)
  ∧ (∀ self', undo seeded_board2 = Ok self' → _score self' = _score seeded_board2).
Proof. exact (score_never_decreases seeded_board2 reachable_seeded_board2). Defined.

(** ** All cells of the grid *)

Lemma fmap_join {A B : Type} (f : A → B) (ls : list (list A)) :
  f <$> mjoin ls = mjoin (fmap f <$> ls).
Proof.
  induction ls as [|l ls IH]; simpl; [done|]. by rewrite fmap_app, IH.
Qed.

Lemma tile_at_positions (n : nat) (g : Grid) :
  wf_grid n g → tile_at g <$> positions n = mjoin g.
Proof.
  intros Hwf. unfold positions. rewrite fmap_join, <- list_fmap_compose.
  rewrite <- (grid_rows n g) at 2 by apply Hwf. f_equal.
  apply list_fmap_ext. intros _ y Hy%list_elem_of_lookup_2%elem_of_seq. simpl.
  apply line_left_row; [done|lia].
Qed.

Lemma line_sum_app (l k : list tile) : line_sum (l ++ k) = line_sum l + line_sum k.
Proof. unfold line_sum. by rewrite tiles_of_app, sumZ_app. Qed.

Lemma line_sum_join (ls : list (list tile)) :
  line_sum (mjoin ls) = sumZ (line_sum <$> ls).
Proof.
  induction ls as [|l ls IH]; simpl; [done|].
  rewrite line_sum_app, IH. done.
Qed.

Lemma sumZ_Permutation (l k : list Z) : l ≡ₚ k → sumZ l = sumZ k.
Proof.
  induction 1 as [|x l k _ IH|x y l|l k m _ IH1 _ IH2]; simpl; [done|..].
  - lia.
  - lia.
  - congruence.
Qed.

Lemma line_sum_Permutation (g : Grid) (ps qs : list (nat * nat)) :
  ps ≡ₚ qs → line_sum (tile_at g <$> ps) = line_sum (tile_at g <$> qs).
Proof.
  intros Hperm. unfold line_sum, tiles_of. apply sumZ_Permutation.
  by rewrite Hperm.
Qed.

Lemma positions_lines_of (n : nat) : positions n = mjoin (lines_of "l" n).
Proof. reflexivity. Qed.

Lemma NoDup_positions (n : nat) : NoDup (positions n).
Proof. rewrite positions_lines_of. apply NoDup_lines_of. Qed.

(** The lines of a direction are the positions of the grid, rearranged. *)
Lemma lines_of_Permutation (direction : string) (n : nat) :
  valid_direction direction → mjoin (lines_of direction n) ≡ₚ positions n.
Proof.
  intros Hd. apply NoDup_Permutation; [apply NoDup_lines_of|apply NoDup_positions|].
  intros p. rewrite elem_of_positions, list_elem_of_join. split.
  - intros (ps & Hp & Hps). by eapply lines_of_in_grid.
  - intros Hp. destruct (lines_of_cover direction n p Hd Hp) as (ps & Hps & Hin).
    by exists ps.
Qed.

Lemma grid_total_lines (direction : string) (n : nat) (g : Grid) :
  valid_direction direction → wf_grid n g →
  grid_total g
  = sumZ ((λ ps, line_sum (tile_at g <$> ps)) <$> lines_of direction n).
Proof.
  intros Hd Hwf. unfold grid_total.
  rewrite <- (tile_at_positions n g Hwf).
  rewrite <- (line_sum_Permutation g _ _ (lines_of_Permutation direction n Hd)).
  by rewrite fmap_join, line_sum_join, <- list_fmap_compose.
Qed.

(** A swipe keeps what the cells of the grid add up to. *)
Lemma swipe_grid_total (direction : string) (n : nat) (g g' : Grid) :
  valid_direction direction → wf_grid n g → wf_grid n g' →
  Forall (λ ps, tile_at g' <$> ps = slide (tile_at g <$> ps))
         (lines_of direction n) →
  grid_total g' = grid_total g.
Proof.
  intros Hd Hwf Hwf' Hlines.
  rewrite !(grid_total_lines direction n) by done. f_equal.
  apply list_fmap_ext. intros _ ps Hps%list_elem_of_lookup_2.
  rewrite Forall_forall in Hlines. by rewrite (Hlines ps Hps), slide_sum.
Qed.

Lemma upd_grid_total (n : nat) (g : Grid) (p : nat * nat) (v : Z) :
  wf_grid n g → in_grid n p → tile_at g p = None →
  grid_total (upd g p (Some v)) = grid_total g + v.
Proof.
  intros Hwf Hp Hnone. unfold grid_total.
  rewrite <- (tile_at_positions n g Hwf).
  rewrite <- (tile_at_positions n (upd g p (Some v))) by by apply wf_grid_upd.
  rewrite (line_sum_upd n g p v) by (done || apply NoDup_positions).
  rewrite decide_True by by apply elem_of_positions. done.
Qed.

(** X7. A swipe keeps the sum of all tiles of the board; [perform_move]
    either returns the board as it was or returns one whose tiles add up to
    2 or 4 more than before (the spawned tile). *)
Theorem perform_move_board_total (direction : string) (d_num d_loc : nat)
    (self : Board) :
  valid_direction direction → wf self →
  ∃ moved self' : Board,
    swipe direction self = Ok moved
    ∧ grid_total (_grid moved) = grid_total (_grid self)
    ∧ perform_move direction d_num d_loc self = Ok self'
    ∧ (self' = self
       ∨ grid_total (_grid self') = grid_total (_grid self) + 2
       ∨ grid_total (_grid self') = grid_total (_grid self) + 4).
Proof.
  intros Hd Hwf.
  destruct (swipe_spec direction self Hd Hwf) as (g' & Hsw & Hwf' & Hlines).
  pose proof (swipe_grid_total direction _ _ g' Hd Hwf Hwf' Hlines) as Htotal.
  destruct (decide (g' = _grid self)) as [Heq|Hne].
  - eexists _, self. split; [exact Hsw|]. split; [exact Htotal|].
    split; [|by left].
    rewrite perform_move_unfold, Hsw, bind_Ok by done.
    cbn [_grid set_grid set_score].
    rewrite bool_decide_eq_false_2 by (intros H; by apply H).
    rewrite (swipe_fixed_gain (Z.to_nat (_size self)) _ g') by done.
    rewrite Z.add_0_r. by destruct self.
  - destruct (perform_move_changed direction d_num d_loc self _ Hd Hwf Hsw)
      as (p & Hp & _ & _ & Hrun); [done|].
    cbn [_grid set_grid set_score] in Hp, Hrun.
    pose proof (picked_empty _ _ _ _ Hp) as [Hin Hnone].
    eexists _, _. split; [exact Hsw|]. split; [exact Htotal|].
    split; [exact Hrun|]. right. cbn [_grid].
    rewrite (upd_grid_total (Z.to_nat (_size self))), Htotal by done.
    destruct (randint_tile d_num) as [-> | ->]; [by left|by right].
Qed.

Lemma perform_move_board_total_witness :
  ∃ moved self' : Board,
    swipe "l" merge_board = Ok moved
    ∧ grid_total (_grid moved) = grid_total (_grid merge_board)
    ∧ perform_move "l" 0 0 merge_board = Ok self'
    ∧ (self' = merge_board
       ∨ grid_total (_grid self') = grid_total (_grid merge_board) + 2
       ∨ grid_total (_grid self') = grid_total (_grid merge_board) + 4).
Proof.
  exact (perform_move_board_total "l" 0 0 merge_board
           valid_direction_l wf_merge_board).
Defined.

(** ** Counting the empty cells *)

Global Instance loc_of_inj : Inj (=) (=) loc_of.
Proof.
  intros [y x] [y' x'] Heq. unfold loc_of in Heq. simpl in Heq.
  injection Heq as Hx Hy. apply Nat2Z.inj in Hx, Hy. by subst.
Qed.

Lemma length_empty_cells {A : Type} (f : A → tile) (l : list A) :
  (length (filter (λ a, f a = None) l) + length (tiles_of (f <$> l)))%nat
  = length l.
Proof.
  induction l as [|a l IH]; [done|]. rewrite filter_cons, fmap_cons.
  destruct (decide (f a = None)) as [Hf|Hf].
  - rewrite Hf. simpl. lia.
  - destruct (f a) as [v|]; [|done]. simpl. lia.
Qed.

Lemma length_join_wf (n m : nat) (g : Grid) :
  length g = m → Forall (λ row, length row = n) g →
  length (mjoin g) = (m * n)%nat.
Proof.
  intros <- Hrows. induction Hrows as [|r g Hr _ IH]; simpl; [done|].
  rewrite length_app, IH, Hr. done.
Qed.

(** X8. On a well-shaped board [get_empty_tiles] returns a list without
    repetition, and its length and the number of tiles make up the
    [size] × [size] cells of the grid. *)
Theorem get_empty_tiles_counts (self : Board) :
  wf self →
  ∃ empty : list (Z * Z),
    get_empty_tiles self = Ok empty
    ∧ NoDup empty
    ∧ (length empty + tile_count (_grid self))%nat
      = (Z.to_nat (_size self) * Z.to_nat (_size self))%nat.
Proof.
  intros Hwf. eexists. split; [by apply get_empty_tiles_spec|]. split.
  - apply NoDup_fmap; [apply _|]. apply NoDup_filter, NoDup_positions.
  - rewrite length_fmap. unfold empty_positions, tile_count.
    rewrite <- (tile_at_positions _ _ Hwf), length_empty_cells.
    rewrite <- (length_fmap (tile_at (_grid self))), (tile_at_positions _ _ Hwf).
    destruct Hwf as [Hlen Hrows]. by apply length_join_wf.
Qed.

Lemma get_empty_tiles_counts_witness :
  ∃ empty : list (Z * Z),
    get_empty_tiles columns_board = Ok empty
    ∧ NoDup empty
    ∧ (length empty + tile_count (_grid columns_board))%nat
      = (Z.to_nat (_size columns_board) * Z.to_nat (_size columns_board))%nat.
Proof. exact (get_empty_tiles_counts columns_board wf_columns_board). Defined.

(** ** The swipes are mirror images of each other *)

Lemma grid_row_mirror (g : Grid) (i : nat) :
  grid_row (reverse <$> g) i = reverse (grid_row g i).
Proof.
  unfold grid_row. rewrite list_lookup_fmap. by destruct (g !! i).
Qed.

Lemma grid_col_flip (g : Grid) (i : nat) :
  grid_col (reverse g) i = reverse (grid_col g i).
Proof. unfold grid_col. by rewrite fmap_reverse. Qed.

Lemma wf_grid_mirror (n : nat) (g : Grid) :
  wf_grid n g → wf_grid n (reverse <$> g).
Proof.
  intros [Hlen Hrows]. split; [by rewrite length_fmap|].
  apply Forall_fmap. eapply Forall_impl; [exact Hrows|].
  intros row Hrow. simpl. by rewrite length_reverse.
Qed.

Lemma wf_grid_flip (n : nat) (g : Grid) : wf_grid n g → wf_grid n (reverse g).
Proof.
  intros [Hlen Hrows]. split; [by rewrite length_reverse|].
  by apply Forall_reverse.
Qed.

Lemma grid_eq_rows (n : nat) (g1 g2 : Grid) :
  length g1 = n → length g2 = n →
  (∀ i, (i < n)%nat → grid_row g1 i = grid_row g2 i) → g1 = g2.
Proof.
  intros H1 H2 Hrows. rewrite <- (grid_rows n g1), <- (grid_rows n g2) by done.
  apply list_fmap_ext. intros _ i Hi%list_elem_of_lookup_2%elem_of_seq.
  apply Hrows. lia.
Qed.

Lemma grid_eq_cols (n : nat) (g1 g2 : Grid) :
  wf_grid n g1 → wf_grid n g2 →
  (∀ i, (i < n)%nat → grid_col g1 i = grid_col g2 i) → g1 = g2.
Proof.
  intros H1 H2 Hcols. apply (lines_of_ext "u" n); [repeat constructor|done..|].
  unfold lines_of. simpl. apply Forall_fmap, Forall_forall.
  intros i Hi%elem_of_seq. simpl. rewrite !(line_up_col n) by done.
  apply Hcols. lia.
Qed.

Lemma total_gain_up (n : nat) (g : Grid) :
  wf_grid n g →
  total_gain g (lines_of "u" n) = sumZ ((λ i, gain (grid_col g i)) <$> seq 0 n).
Proof.
  intros Hwf. unfold total_gain, lines_of. simpl.
  rewrite <- list_fmap_compose. f_equal. apply list_fmap_ext.
  intros _ i _. simpl. by rewrite (line_up_col n).
Qed.

Lemma total_gain_down (n : nat) (g : Grid) :
  wf_grid n g →
  total_gain g (lines_of "d" n)
  = sumZ ((λ i, gain (reverse (grid_col g i))) <$> seq 0 n).
Proof.
  intros Hwf. unfold total_gain, lines_of. simpl.
  rewrite <- list_fmap_compose. f_equal. apply list_fmap_ext.
  intros _ i _. simpl. by rewrite (line_down_col n).
Qed.

Lemma valid_direction_u : valid_direction "u".
Proof. unfold valid_direction. repeat constructor. Defined.

(** X9. On a well-shaped board [swipe_right] is [swipe_left] on the board
    with every row reversed, the rows of the result reversed again, and
    [swipe_down] is [swipe_up] on the board with the order of its rows
    reversed, the result reversed again: grid and score agree. *)
Theorem swipe_mirror_laws (self : Board) :
  wf self →
  swipe_right self
  = (b ← swipe_left (set_grid self (reverse <$> _grid self));
     Ok (set_grid b (reverse <$> _grid b)))
  ∧ swipe_down self
    = (b ← swipe_up (set_grid self (reverse (_grid self)));
       Ok (set_grid b (reverse (_grid b)))).
Proof.
  intros Hwf. set (n := Z.to_nat (_size self)). split.
  - destruct (swipe_scan_lines "r" self valid_direction_r Hwf)
      as (g' & Hrun & Hwf' & Hlines).
    assert (wf (set_grid self (reverse <$> _grid self))) as Hwfm
      by by apply wf_grid_mirror.
    destruct (swipe_scan_lines "l" _ valid_direction_l Hwfm)
      as (g2 & Hrun2 & Hwf2 & Hlines2).
    change (swipe "r" self) with (swipe_right self) in Hrun.
    change (swipe "l" ?b) with (swipe_left b) in Hrun2.
    rewrite Hrun, Hrun2, bind_Ok. cbn [_size _grid _score set_grid set_score] in *.
    fold n in Hwf', Hwf2, Hlines, Hlines2 |- *.
    rewrite (total_gain_right n), (total_gain_left n), <- list_fmap_compose
      by (done || by apply wf_grid_mirror).
    assert (g' = reverse <$> g2) as ->.
    { apply (grid_eq_rows n); [apply Hwf'|by rewrite length_fmap; apply Hwf2|].
      intros i Hi. rewrite grid_row_mirror.
      specialize (Hlines i Hi). specialize (Hlines2 i Hi).
      unfold scan_line in Hlines, Hlines2. simpl in Hlines, Hlines2.
      rewrite Hlines2, grid_row_mirror, <- Hlines.
      by rewrite reverse_involutive. }
    by destruct self.
  - destruct (swipe_scan_lines "d" self valid_direction_d Hwf)
      as (g' & Hrun & Hwf' & Hlines).
    assert (wf (set_grid self (reverse (_grid self)))) as Hwfm
      by by apply wf_grid_flip.
    destruct (swipe_scan_lines "u" _ valid_direction_u Hwfm)
      as (g2 & Hrun2 & Hwf2 & Hlines2).
    change (swipe "d" self) with (swipe_down self) in Hrun.
    change (swipe "u" ?b) with (swipe_up b) in Hrun2.
    rewrite Hrun, Hrun2, bind_Ok. cbn [_size _grid _score set_grid set_score] in *.
    fold n in Hwf', Hwf2, Hlines, Hlines2 |- *.
    rewrite (total_gain_down n), (total_gain_up n)
      by (done || by apply wf_grid_flip).
    assert (g' = reverse g2) as ->.
    { apply (grid_eq_cols n); [done|by apply wf_grid_flip|].
      intros i Hi. rewrite grid_col_flip.
      specialize (Hlines i Hi). specialize (Hlines2 i Hi).
      unfold scan_line in Hlines, Hlines2. simpl in Hlines, Hlines2.
      rewrite Hlines2, grid_col_flip, <- Hlines.
      by rewrite reverse_involutive. }
    assert ((λ i, gain (reverse (grid_col (_grid self) i))) <$> seq 0 n
            = (λ i, gain (grid_col (reverse (_grid self)) i)) <$> seq 0 n) as ->.
    { apply list_fmap_ext. intros _ i _. simpl. by rewrite grid_col_flip. }
    by destruct self.
Qed.

Lemma swipe_mirror_laws_witness :
  swipe_right columns_board
  = (b ← swipe_left (set_grid columns_board (reverse <$> _grid columns_board));
     Ok (set_grid b (reverse <$> _grid b)))
  ∧ swipe_down columns_board
    = (b ← swipe_up (set_grid columns_board (reverse (_grid columns_board)));
       Ok (set_grid b (reverse (_grid b)))).
Proof. exact (swipe_mirror_laws columns_board wf_columns_board). Defined.

(** ** The engine raises nothing on the boards it reaches *)

Lemma perform_move_returns (direction : string) (d_num d_loc : nat) (self : Board) :
  valid_direction direction → wf self →
  ∃ self', perform_move direction d_num d_loc self = Ok self'.
Proof.
  intros Hd Hwf.
  destruct (swipe_spec direction self Hd Hwf) as (g' & Hsw & Hwf' & Hlines).
  destruct (decide (g' = _grid self)) as [Heq|Hne].
  - rewrite perform_move_unfold, Hsw, bind_Ok by done.
    cbn [_grid set_grid set_score].
    rewrite bool_decide_eq_false_2 by (intros H; by apply H). by eexists.
  - destruct (perform_move_changed direction d_num d_loc self _ Hd Hwf Hsw)
      as (p & _ & _ & _ & Hrun); [done|]. by eexists.
Qed.

Lemma undo_returns (self : Board) :
  board_inv self → ∃ self', undo self = Ok self'.
Proof.
  intros (_ & _ & _ & Hundo). unfold undo.
  destruct (_undo_available self); [|by eexists].
  destruct (Hundo eq_refl) as [prev ->]. by eexists.
Qed.

Lemma grid_getitem_Z (self : Board) (y x : Z) :
  wf self → 0 ≤ y < _size self → 0 ≤ x < _size self →
  grid_getitem self y x = Ok (tile_at (_grid self) (Z.to_nat y, Z.to_nat x)).
Proof.
  intros Hwf Hy Hx.
  rewrite <- (Z2Nat.id y) at 1 by lia. rewrite <- (Z2Nat.id x) at 1 by lia.
  apply grid_getitem_nat; [done|lia..].
Qed.

Lemma adjacent_step_returns (self : Board) (c : bool) (y x : Z) (acc : list tile) :
  wf self → (c = true → 0 ≤ y < _size self ∧ 0 ≤ x < _size self) →
  ∃ acc', (if c then t ← grid_getitem self y x; Ok (acc ++ [t]) else Ok acc)
          = Ok acc'
          ∧ (length acc' ≤ length acc + 1)%nat.
Proof.
  intros Hwf Hc. destruct c.
  - destruct (Hc eq_refl) as [Hy Hx]. rewrite grid_getitem_Z, bind_Ok by done.
    eexists. split; [done|]. rewrite length_app. simpl. lia.
  - eexists. split; [done|]. lia.
Qed.

(** For a cell of the grid [_get_adjacent_tiles] returns, with one tile for
    each of the four tests that the cell passes. *)
Lemma _get_adjacent_tiles_returns (self : Board) (x y : Z) :
  wf self → 0 ≤ x < _size self → 0 ≤ y < _size self →
  ∃ adj, _get_adjacent_tiles self x y = Ok adj ∧ (length adj ≤ 4)%nat.
Proof.
  intros Hwf Hx Hy. unfold _get_adjacent_tiles.
  rewrite !bool_decide_eq_true_2 by done.
  destruct (adjacent_step_returns self (bool_decide (0 < x)) y (x - 1) [] Hwf)
    as (a1 & -> & L1); [intros ?%bool_decide_eq_true; lia|]. rewrite bind_Ok.
  destruct (adjacent_step_returns self (bool_decide (x < _size self - 1))
              y (x + 1) a1 Hwf)
    as (a2 & -> & L2); [intros ?%bool_decide_eq_true; lia|]. rewrite bind_Ok.
  destruct (adjacent_step_returns self (bool_decide (0 < y)) (y - 1) x a2 Hwf)
    as (a3 & -> & L3); [intros ?%bool_decide_eq_true; lia|]. rewrite bind_Ok.
  destruct (adjacent_step_returns self (bool_decide (y < _size self - 1))
              y (y + 1) a3 Hwf)
    as (a4 & -> & L4); [intros ?%bool_decide_eq_true; lia|]. rewrite bind_Ok.
  exists a4. split; [done|]. simpl in L1. lia.
Qed.

Lemma perform_move_size (direction : string) (d_num d_loc : nat)
    (self self' : Board) :
  wf self → perform_move direction d_num d_loc self = Ok self' →
  _size self' = _size self.
Proof.
  intros Hwf Hrun.
  destruct (decide (valid_direction direction)) as [Hd|Hd].
  2:{ unfold perform_move in Hrun.
      by rewrite bool_decide_eq_false_2 in Hrun by done. }
  destruct (swipe_spec direction self Hd Hwf) as (g' & Hsw & Hwf' & Hlines).
  rewrite perform_move_unfold, Hsw, bind_Ok in Hrun by done.
  cbn [_grid set_grid set_score] in Hrun. case_bool_decide.
  - rewrite add_tile_spec in Hrun by exact Hwf'. cbn in Hrun.
    destruct (picked _ _ d_loc); [|done]. by injection Hrun as <-.
  - by injection Hrun as <-.
Qed.

Lemma add_tile_size (d_num d_loc : nat) (self self' : Board) :
  wf self → add_tile d_num d_loc self = Ok self' → _size self' = _size self.
Proof.
  intros Hwf. rewrite add_tile_spec by done.
  destruct (picked _ _ d_loc); [|done]. by intros [= <-].
Qed.

Lemma undo_size (self self' : Board) :
  undo self = Ok self' → _size self' = _size self.
Proof.
  unfold undo. destruct (_undo_available self); [|by intros [= <-]].
  destruct (_prev_grid self); [|done]. by intros [= <-].
Qed.

(** X10. On every board the engine can reach, [perform_move] with one of the
    four directions, [undo], [get_empty_tiles] and [is_game_over] return
    (no [IndexError], no [TypeError]), and [_get_adjacent_tiles] returns at
    most four tiles for every cell of the grid. *)
Theorem engine_calls_return (self : Board) :
  reachable self →
  (∀ direction d_num d_loc, valid_direction direction →
     ∃ self', perform_move direction d_num d_loc self = Ok self')
  ∧ (∃ self', undo self = Ok self')
  ∧ (∃ empty, get_empty_tiles self = Ok empty)
  ∧ (∃ b, is_game_over self = Ok b)
  ∧ (∀ x y, 0 ≤ x < _size self → 0 ≤ y < _size self →
       ∃ adj, _get_adjacent_tiles self x y = Ok adj ∧ (length adj ≤ 4)%nat).
Proof.
  intros Hr. pose proof (reachable_inv self Hr) as Hinv.
  pose proof Hinv as (Hwf & _).
  split; [|split; [|split; [|split]]].
  - intros direction d_num d_loc Hd. by apply perform_move_returns.
  - by apply undo_returns.
  - eexists. by apply get_empty_tiles_spec.
  - destruct (empty_positions (Z.to_nat (_size self)) (_grid self))
      as [|q l] eqn:Hemp.
    + apply full_grid_empty_positions in Hemp.
      destruct (decide (_size self ≤ 1)).
      * exists true. by apply is_game_over_side_le_1.
      * exists false. apply is_game_over_never_true; [done|lia].
    + assert (q ∈ empty_positions (Z.to_nat (_size self)) (_grid self)) as Hq
        by (rewrite Hemp; left).
      apply elem_of_empty_positions in Hq as [Hin Hnone].
      exists false. by apply (is_game_over_empty_cell self q).
  - intros x y Hx Hy. by apply _get_adjacent_tiles_returns.
Qed.

Lemma engine_calls_return_witness :
  (∀ direction d_num d_loc, valid_direction direction →
     ∃ self', perform_move direction d_num d_loc seeded_board2 = Ok self')
  ∧ (∃ self', undo seeded_board2 = Ok self')
  ∧ (∃ empty, get_empty_tiles seeded_board2 = Ok empty)
  ∧ (∃ b, is_game_over seeded_board2 = Ok b)
  ∧ (∀ x y, 0 ≤ x < _size seeded_board2 → 0 ≤ y < _size seeded_board2 →
       ∃ adj, _get_adjacent_tiles seeded_board2 x y = Ok adj
              ∧ (length adj ≤ 4)%nat).
Proof. exact (engine_calls_return seeded_board2 reachable_seeded_board2). Defined.

(** X11. Every board the engine can reach is a [size] × [size] grid, and
    [perform_move], [add_tile] and [undo] return a board of the same
    side. *)
Theorem reachable_boards_keep_their_shape (self : Board) :
  reachable self →
  length (_grid self) = Z.to_nat (_size self)
  ∧ Forall (λ row, length row = Z.to_nat (_size self)) (_grid self)
  ∧ (∀ direction d_num d_loc self',
       perform_move direction d_num d_loc self = Ok self' →
       _size self' = _size self)
  ∧ (∀ d_num d_loc self',
       add_tile d_num d_loc self = Ok self' → _size self' = _size self)
  ∧ (∀ self', undo self = Ok self' → _size self' = _size self).
Proof.
  intros Hr. destruct (reachable_inv self Hr) as ([Hlen Hrows] & _).
  split; [done|]. split; [done|]. split; [|split].
  - intros direction d_num d_loc self'. by apply perform_move_size.
  - intros d_num d_loc self'. by apply add_tile_size.
  - apply undo_size.
Qed.

Lemma reachable_boards_keep_their_shape_witness :
  length (_grid seeded_board2) = Z.to_nat (_size seeded_board2)
  ∧ Forall (λ row, length row = Z.to_nat (_size seeded_board2)) (_grid seeded_board2)
  ∧ (∀ direction d_num d_loc self',
       perform_move direction d_num d_loc seeded_board2 = Ok self' →
       _size self' = _size seeded_board2)
  ∧ (∀ d_num d_loc self',
       add_tile d_num d_loc seeded_board2 = Ok self' →
       _size self' = _size seeded_board2)
  ∧ (∀ self', undo seeded_board2 = Ok self' → _size self' = _size seeded_board2).
Proof.
  exact (reachable_boards_keep_their_shape seeded_board2 reachable_seeded_board2).
Defined.

(** ** The command-line game *)

Example command_line_game_run :
  command_line_game int_small (λ _, (0, 0)%nat) ["4"; "l"; "bogus"; "undo"; "quit"; "r"]
  = let b1 := mkBoard 4 [[None; None; None; None]; empty_row4; empty_row4; empty_row4]
                      None false 0 (_tile_size merge_board) None in
    let b0 := set_grid b1 [[Some 2; None; None; None]; empty_row4; empty_row4; empty_row4] in
    ([Prompt "Board size? "; PrintBoard b0;
      Prompt "> "; PrintBoard b0;
      Prompt "> "; PrintBoard b0;
      Prompt "> "; PrintBoard b0;
      Prompt "> "; PrintBoard b0], Returned).
Proof. vm_compute. reflexivity. Qed.

Lemma game_loop_quit (draws : nat → nat * nat) (turn : nat) (board : Board)
    (inputs : list string) :
  game_loop draws turn board "quit" inputs = ([], Returned).
Proof. by destruct inputs. Qed.

Lemma game_loop_over (draws : nat → nat * nat) (turn : nat) (board : Board)
    (command : string) (inputs : list string) :
  command ≠ "quit" → is_game_over board = Ok true →
  game_loop draws turn board command inputs = ([PrintText "Game over"], Returned).
Proof.
  intros Hc Hover. destruct inputs; simpl;
    by rewrite bool_decide_eq_true_2, Hover by done.
Qed.

Lemma game_loop_eof (draws : nat → nat * nat) (turn : nat) (board : Board)
    (command : string) :
  command ≠ "quit" → is_game_over board = Ok false →
  game_loop draws turn board command [] = ([Prompt "> "], EOFError).
Proof. intros Hc Hover. simpl. by rewrite bool_decide_eq_true_2, Hover by done. Qed.

Lemma game_loop_turn (draws : nat → nat * nat) (turn : nat) (board board' : Board)
    (command c : string) (inputs : list string) :
  command ≠ "quit" → is_game_over board = Ok false →
  (if bool_decide (c ∈ ["l"; "r"; "u"; "d"]) then
     perform_move c (draws turn).1 (draws turn).2 board
   else if bool_decide (c = "undo") then undo board
   else Ok board) = Ok board' →
  game_loop draws turn board command (c :: inputs)
  = (Prompt "> " :: PrintBoard board'
       :: (game_loop draws (S turn) board' c inputs).1,
     (game_loop draws (S turn) board' c inputs).2).
Proof.
  intros Hc Hover Hr. cbn [game_loop].
  rewrite bool_decide_eq_true_2, Hover, Hr by done.
  by destruct (game_loop draws (S turn) board' c inputs).
Qed.

Lemma init_tile_at (size : Z) (colors : option (list (tile * string)))
    (self : Board) (p : nat * nat) :
  __init__ size colors = Ok self → tile_at (_grid self) p = None.
Proof.
  unfold __init__, true_div. case_bool_decide; [done|]. rewrite bind_Ok.
  intros [= <-]. cbn. rewrite init_grid. unfold tile_at, cell.
  destruct (replicate _ _ !! p.1) as [row|] eqn:Hrow; [|done]. simpl.
  apply lookup_replicate in Hrow as [-> _].
  destruct (replicate _ _ !! p.2) as [t|] eqn:Ht; [|done]. simpl.
  by apply lookup_replicate in Ht as [-> _].
Qed.

Lemma init_size (size : Z) (colors : option (list (tile * string))) (self : Board) :
  __init__ size colors = Ok self → _size self = size.
Proof.
  unfold __init__, true_div. case_bool_decide; [done|]. by intros [= <-].
Qed.

(** X12. [command_line_game] cannot start on a board size that is not
    positive: when the first line reads as 0 it ends with the constructor's
    [ZeroDivisionError], when it reads as a negative number with the
    [IndexError] of the first [add_tile]; in both cases it has written the
    prompt and nothing else. *)
Theorem command_line_game_needs_positive_size (int : string → option Z)
    (draws : nat → nat * nat) (line : string) (inputs : list string) (size : Z) :
  int line = Some size → size ≤ 0 →
  command_line_game int draws (line :: inputs)
  = ([Prompt "Board size? "],
     EngineError (if bool_decide (size = 0) then ZeroDivisionError else IndexError)).
Proof.
  intros Hint Hsize. unfold command_line_game. rewrite Hint.
  case_bool_decide as Hz.
  - subst size. reflexivity.
  - destruct (__init__ size None) as [board|e] eqn:Hinit.
    2:{ unfold __init__, true_div in Hinit.
        by rewrite bool_decide_eq_false_2 in Hinit by done. }
    rewrite bind_Ok.
    assert (wf board) as Hwf by (by destruct (init_inv _ _ _ Hinit)).
    rewrite add_tile_spec by done. unfold picked, empty_positions.
    rewrite (init_size _ _ _ Hinit).
    by replace (Z.to_nat size) with 0%nat by lia.
Qed.

Lemma command_line_game_needs_positive_size_witness :
  command_line_game int_small (λ _, (0, 0)%nat) ["-3"; "l"; "quit"]
  = ([Prompt "Board size? "], EngineError IndexError).
Proof.
  apply (command_line_game_needs_positive_size int_small _ "-3" _ (-3)).
  - reflexivity.
  - lia.
Defined.

(** X13. On a board of side 1 [command_line_game] is over at once: it
    prints the board with its single tile, 2 or 4, then "Game over", and
    returns without reading a command. *)
Theorem command_line_game_side_1 (int : string → option Z)
    (draws : nat → nat * nat) (line : string) (inputs : list string) :
  int line = Some 1 →
  ∃ (board : Board) (v : Z),
    (v = 2 ∨ v = 4)
    ∧ _grid board = [[Some v]]
    ∧ command_line_game int draws (line :: inputs)
      = ([Prompt "Board size? "; PrintBoard board; PrintText "Game over"],
         Returned).
Proof.
  intros Hint. unfold command_line_game. rewrite Hint.
  assert (∃ b0, __init__ 1 None = Ok b0 ∧ _grid b0 = [[None]] ∧ _size b0 = 1)
    as (b0 & Hinit & Hg0 & Hs0) by (by eexists).
  rewrite Hinit, bind_Ok.
  assert (wf b0) as Hwf0 by (by destruct (init_inv _ _ _ Hinit)).
  rewrite add_tile_spec by done. unfold picked. rewrite Hs0, Hg0.
  change (empty_positions (Z.to_nat 1) [[None]]) with [(0, 0)%nat].
  cbn [length]. rewrite Nat.mod_1_r. cbn [lookup list_lookup].
  set (v := randint 1 2 (draws 0%nat).1 * 2).
  set (b1 := set_grid b0 _).
  assert (is_game_over b1 = Ok true) as Hover.
  { apply is_game_over_side_le_1.
    - unfold wf, b1. cbn. rewrite Hs0. split; [done|]. by repeat constructor.
    - unfold b1. cbn. lia.
    - unfold b1. cbn. rewrite Hs0. intros [[|y] [|x]] [Hy Hx]; simpl in *;
        try lia. done. }
  rewrite game_loop_over by done.
  exists b1, v. split; [apply randint_tile|]. split; [done|done].
Qed.

Lemma command_line_game_side_1_witness :
  ∃ (board : Board) (v : Z),
    (v = 2 ∨ v = 4)
    ∧ _grid board = [[Some v]]
    ∧ command_line_game int_small (λ _, (1, 0)%nat) ["1"; "l"]
      = ([Prompt "Board size? "; PrintBoard board; PrintText "Game over"],
         Returned).
Proof.
  apply (command_line_game_side_1 int_small _ "1"). reflexivity.
Defined.

(** The loop on a reachable board of side 2 or more. *)
Lemma game_loop_never_over (draws : nat → nat * nat) (inputs : list string) :
  ∀ (turn : nat) (board : Board) (command : string),
    reachable board → 2 ≤ _size board → command ≠ "quit" →
    (PrintText "Game over" ∉ (game_loop draws turn board command inputs).1)
    ∧ (∀ b, PrintBoard b ∈ (game_loop draws turn board command inputs).1 →
         reachable b ∧ _size b = _size board)
    ∧ ((game_loop draws turn board command inputs).2 = Returned ∧ "quit" ∈ inputs
       ∨ (game_loop draws turn board command inputs).2 = EOFError
         ∧ "quit" ∉ inputs).
Proof.
  induction inputs as [|c inputs IH]; intros turn board command Hr Hsize Hc.
  - rewrite game_loop_eof;
      [|done|apply is_game_over_never_true; [by apply reachable_wf|done]].
    simpl. split; [|split].
    + intros [?|?%elem_of_nil]%elem_of_cons; done.
    + intros b [?|?%elem_of_nil]%elem_of_cons; done.
    + right. split; [done|apply not_elem_of_nil].
  - pose proof (reachable_inv board Hr) as Hinv. pose proof Hinv as (Hwf & _).
    assert (∃ board',
              (if bool_decide (c ∈ ["l"; "r"; "u"; "d"]) then
                 perform_move c (draws turn).1 (draws turn).2 board
               else if bool_decide (c = "undo") then undo board
               else Ok board) = Ok board'
              ∧ reachable board' ∧ _size board' = _size board)
      as (board' & Hstep & Hr' & Hsize').
    { case_bool_decide as Hdir.
      - destruct (perform_move_returns c (draws turn).1 (draws turn).2 board Hdir Hwf)
          as [board' Hrun].
        exists board'. split; [done|]. split.
        + by eapply reachable_perform_move.
        + by eapply perform_move_size.
      - case_bool_decide as Hundo.
        + destruct (undo_returns board Hinv) as [board' Hrun].
          exists board'. split; [done|]. split.
          * by eapply reachable_undo.
          * by eapply undo_size.
        + by exists board. }
    rewrite (game_loop_turn draws turn board board') by
      (done || apply is_game_over_never_true; done).
    cbn [fst snd].
    destruct (decide (c = "quit")) as [->|Hquit].
    + rewrite game_loop_quit. simpl. split; [|split].
      * intros [?|[?|?%elem_of_nil]%elem_of_cons]%elem_of_cons; done.
      * intros b [?|[[= ->]|?%elem_of_nil]%elem_of_cons]%elem_of_cons; done.
      * left. split; [done|left].
    + destruct (IH (S turn) board' c Hr') as (Hover & Hboards & Hend);
        [lia|done|]. split; [|split].
      * intros [?|[?|?]%elem_of_cons]%elem_of_cons; done.
      * intros b [?|[[= ->]|Hb]%elem_of_cons]%elem_of_cons; [done|done|].
        destruct (Hboards b Hb) as [? ?]. split; [done|congruence].
      * destruct Hend as [[He Hin]|[He Hnin]].
        -- left. split; [done|by right].
        -- right. split; [done|]. by intros [?|?]%elem_of_cons.
Qed.

(** X14. On a board of side 2 or more [command_line_game] never prints
    "Game over" and never ends with an error of the engine: it returns when
    it has read "quit" and ends with [EOFError] when the input has no
    "quit"; every board it prints is a board the engine can reach, of the
    side that was asked for. *)
Theorem command_line_game_never_over (int : string → option Z)
    (draws : nat → nat * nat) (line : string) (inputs : list string) (size : Z) :
  int line = Some size → 2 ≤ size →
  (PrintText "Game over" ∉ (command_line_game int draws (line :: inputs)).1)
  ∧ (∀ b, PrintBoard b ∈ (command_line_game int draws (line :: inputs)).1 →
       reachable b ∧ _size b = size)
  ∧ ((command_line_game int draws (line :: inputs)).2 = Returned ∧ "quit" ∈ inputs
     ∨ (command_line_game int draws (line :: inputs)).2 = EOFError
       ∧ "quit" ∉ inputs).
Proof.
  intros Hint Hsize. unfold command_line_game. rewrite Hint.
  destruct (__init__ size None) as [b0|e] eqn:Hinit.
  2:{ unfold __init__, true_div in Hinit.
      by rewrite bool_decide_eq_false_2 in Hinit by lia. }
  rewrite bind_Ok.
  pose proof (init_size _ _ _ Hinit) as Hs0.
  assert (reachable b0) as Hr0 by (by eapply reachable_init).
  pose proof (reachable_wf b0 Hr0) as Hwf0.
  assert (is_Some (picked (Z.to_nat (_size b0)) (_grid b0) (draws 0%nat).2))
    as [p Hp].
  { apply (picked_is_Some _ _ _ (0, 0)%nat).
    - split; simpl; lia.
    - by eapply init_tile_at. }
  destruct (add_tile (draws 0%nat).1 (draws 0%nat).2 b0) as [b1|e] eqn:Hadd.
  2:{ rewrite add_tile_spec, Hp in Hadd by done. done. }
  assert (reachable b1) as Hr1 by (by eapply reachable_add_tile).
  assert (_size b1 = size) as Hs1
    by (by rewrite (add_tile_size _ _ _ _ Hwf0 Hadd)).
  destruct (game_loop_never_over draws inputs 1 b1 "" Hr1)
    as (Hover & Hboards & Hend); [lia|done|].
  destruct (game_loop draws 1 b1 "" inputs) as [out e]. cbn [fst snd] in *.
  split; [|split; [|done]].
  - intros [?|[?|?]%elem_of_cons]%elem_of_cons; done.
  - intros b [?|[[= ->]|Hb]%elem_of_cons]%elem_of_cons; [done|done|].
    destruct (Hboards b Hb) as [? ?]. split; [done|congruence].
Qed.

Lemma command_line_game_never_over_witness :
  (PrintText "Game over"
     ∉ (command_line_game int_small (λ _, (0, 0)%nat) ["4"; "d"; "undo"; "quit"]).1)
  ∧ (command_line_game int_small (λ _, (0, 0)%nat) ["4"; "d"; "undo"; "quit"]).2
    = Returned.
Proof.
  destruct (command_line_game_never_over int_small (λ _, (0, 0)%nat)
              "4" ["d"; "undo"; "quit"] 4) as (Hover & _ & Hend).
  - reflexivity.
  - lia.
  - split; [exact Hover|].
    destruct Hend as [[He _]|[_ Hnot]]; [exact He|].
    exfalso. apply Hnot. repeat constructor.
Defined.

(** ** Drawing *)

Example draw_example :
  (draw (mkBoard 1 [[Some 2]] None false 7 (Qdiv (inject_Z 384) (inject_Z 1))
                 (Some color_dictionary))).2 = None.
Proof. vm_compute. reflexivity. Qed.

Example draw_1024 :
  (draw (colored_board [[Some 2; Some 1024; None; None]; empty_row4;
                        empty_row4; empty_row4] 0)).2
  = Some (KeyError (Some 1024)).
Proof. vm_compute. reflexivity. Qed.

Example draw_no_colors : (draw merge_board).2 = Some (Engine TypeError).
Proof. vm_compute. reflexivity. Qed.

Lemma for_draw_app {A : Type} (xs ys : list A)
    (body : A → list canvas_call → list canvas_call * option draw_error)
    (log : list canvas_call) :
  for_draw (xs ++ ys) body log
  = match for_draw xs body log with
    | (log', None) => for_draw ys body log'
    | (log', Some e) => (log', Some e)
    end.
Proof.
  revert log. induction xs as [|x xs IH]; intros log; simpl; [done|].
  destruct (body x log) as [log' [e|]]; [done|apply IH].
Qed.

Lemma for_draw_fmap {A B : Type} (h : A → B) (xs : list A)
    (body : B → list canvas_call → list canvas_call * option draw_error)
    (log : list canvas_call) :
  for_draw (h <$> xs) body log = for_draw xs (λ x, body (h x)) log.
Proof.
  revert log. induction xs as [|x xs IH]; intros log; simpl; [done|].
  destruct (body (h x) log) as [log' [e|]]; [done|apply IH].
Qed.

Lemma for_draw_join {A B : Type} (line : A → list B) (ys : list A)
    (body : B → list canvas_call → list canvas_call * option draw_error)
    (log : list canvas_call) :
  for_draw (mjoin (line <$> ys)) body log
  = for_draw ys (λ y log, for_draw (line y) body log) log.
Proof.
  revert log. induction ys as [|y ys IH]; intros log; simpl; [done|].
  rewrite for_draw_app.
  destruct (for_draw (line y) body log) as [log' [e|]]; [done|apply IH].
Qed.

(** The two loops of [draw] visit the positions of the grid row by row. *)
Lemma draw_loops_positions (self : Board) (log : list canvas_call) :
  for_draw (range (_size self)) (λ y log,
    for_draw (range (_size self)) (λ x log,
      draw_cell self (_tile_size self) x y log) log) log
  = for_draw (positions (Z.to_nat (_size self))) (λ p log,
      draw_cell self (_tile_size self) (Z.of_nat p.2) (Z.of_nat p.1) log) log.
Proof.
  unfold positions. rewrite for_draw_join, range_seq, for_draw_fmap.
  revert log. generalize (seq 0 (Z.to_nat (_size self))) at 1 3.
  intros ys. induction ys as [|y ys IH]; intros log; simpl; [done|].
  unfold line_left at 1. rewrite !for_draw_fmap. simpl.
  destruct (for_draw _ _ log) as [log' [e|]]; [done|apply IH].
Qed.

Lemma draw_cell_spec (self : Board) (d : list (tile * string)) (p : nat * nat)
    (log : list canvas_call) :
  wf self → _color_scheme self = Some d → in_grid (Z.to_nat (_size self)) p →
  (∃ calls, length calls = 2%nat
            ∧ is_Some (dict_get d (tile_at (_grid self) p))
            ∧ draw_cell self (_tile_size self) (Z.of_nat p.2) (Z.of_nat p.1) log
              = (log ++ calls, None))
  ∨ (dict_get d (tile_at (_grid self) p) = None
     ∧ draw_cell self (_tile_size self) (Z.of_nat p.2) (Z.of_nat p.1) log
       = (log, Some (KeyError (tile_at (_grid self) p)))).
Proof.
  intros Hwf Hd [Hy Hx]. unfold draw_cell.
  rewrite (grid_getitem_nat self p.1 p.2) by done. rewrite Hd.
  replace (p.1, p.2) with p by (by destruct p).
  destruct (dict_get d (tile_at (_grid self) p)) as [color|]; [left|by right].
  eexists. split; [|split; [by eexists|reflexivity]]. done.
Qed.

(** The loops of [draw] on a board with a colour scheme: they end without
    error when every tile has a colour, and stop at the first tile that has
    none. *)
Lemma draw_positions_spec (self : Board) (d : list (tile * string))
    (ps : list (nat * nat)) :
  wf self → _color_scheme self = Some d →
  Forall (in_grid (Z.to_nat (_size self))) ps →
  ∀ log,
    let r := for_draw ps (λ p log,
               draw_cell self (_tile_size self) (Z.of_nat p.2) (Z.of_nat p.1) log)
               log in
    (Forall (λ p, is_Some (dict_get d (tile_at (_grid self) p))) ps
     ∧ r.2 = None ∧ length r.1 = (length log + 2 * length ps)%nat)
    ∨ (∃ p, p ∈ ps ∧ dict_get d (tile_at (_grid self) p) = None
            ∧ r.2 = Some (KeyError (tile_at (_grid self) p))).
Proof.
  intros Hwf Hd. induction 1 as [|p ps Hp Hps IH]; intros log; simpl.
  - left. split; [constructor|]. split; [done|lia].
  - destruct (draw_cell_spec self d p log Hwf Hd Hp)
      as [(calls & Hlen & Hsome & ->)|[Hnone ->]].
    + destruct (IH (log ++ calls)) as [(Hall & Hr & Hl)|(q & Hq & Hnone & Hr)].
      * left. split; [by constructor|]. split; [done|].
        simpl in Hl. rewrite Hl, length_app, Hlen. lia.
      * right. exists q. split; [by right|done].
    + right. exists p. split; [left|done].
Qed.

Lemma Forall_join {A : Type} (P : A → Prop) (ls : list (list A)) :
  Forall P (mjoin ls) ↔ Forall (Forall P) ls.
Proof.
  induction ls as [|l ls IH]; simpl.
  - split; constructor.
  - rewrite Forall_app, Forall_cons, IH. done.
Qed.

Lemma draw_colours_spec (self : Board) (d : list (tile * string)) :
  wf self → _color_scheme self = Some d →
  ((draw self).2 = None
   ↔ Forall (Forall (λ t, is_Some (dict_get d t))) (_grid self))
  ∧ ((draw self).2 = None →
     length (draw self).1
     = (14 + 2 * (Z.to_nat (_size self) * Z.to_nat (_size self)))%nat)
  ∧ (∀ e, (draw self).2 = Some e →
       ∃ row t, row ∈ _grid self ∧ t ∈ row ∧ dict_get d t = None
                ∧ e = KeyError t).
Proof.
  intros Hwf Hd. unfold draw. rewrite draw_loops_positions.
  set (n := Z.to_nat (_size self)).
  assert (Forall (in_grid n) (positions n)) as Hin.
  { apply Forall_forall. intros p. by rewrite elem_of_positions. }
  assert (Forall (λ p, is_Some (dict_get d (tile_at (_grid self) p))) (positions n)
          ↔ Forall (Forall (λ t, is_Some (dict_get d t))) (_grid self)) as Hiff.
  { rewrite <- Forall_join, <- (tile_at_positions n) by done.
    by rewrite Forall_fmap. }
  assert (length (positions n) = (n * n)%nat) as Hlen.
  { rewrite <- (length_fmap (tile_at (_grid self))), (tile_at_positions n) by done.
    destruct Hwf as [Hl Hrows]. by apply length_join_wf. }
  destruct (draw_positions_spec self d (positions n) Hwf Hd Hin (draw_header self))
    as [(Hall & Hr & Hl)|(p & Hp & Hnone & Hr)]; simpl in *;
    destruct (for_draw _ _ (draw_header self)) as [log [e|]]; simpl in *;
    try done.
  - split; [by rewrite <- Hiff|]. split; [|done].
    intros _. rewrite length_app, Hl, Hlen. simpl. lia.
  - injection Hr as ->. split; [|split; [done|]].
    + split; [done|]. intros Hall. apply Hiff in Hall.
      rewrite Forall_forall in Hall. specialize (Hall p Hp).
      rewrite Hnone in Hall. by destruct Hall.
    + intros e [= <-].
      assert (tile_at (_grid self) p ∈ mjoin (_grid self)) as Hel.
      { rewrite <- (tile_at_positions n) by done. by apply list_elem_of_fmap_2. }
      apply list_elem_of_join in Hel as (row & Ht & Hrow).
      by exists row, (tile_at (_grid self) p).
Qed.

(** X15. On a well-shaped board with a colour scheme [draw] returns exactly
    when every cell's content (a tile or [None]) is a key of the scheme, and
    it has then made 14 + 2·size² calls; otherwise it raises [KeyError] for
    a content on the board that is not a key. *)
Theorem draw_needs_every_colour (self : Board) (d : list (tile * string)) :
  wf self → _color_scheme self = Some d →
  ((draw self).2 = None
   ↔ Forall (Forall (λ t, is_Some (dict_get d t))) (_grid self))
  ∧ ((draw self).2 = None →
     length (draw self).1
     = (14 + 2 * (Z.to_nat (_size self) * Z.to_nat (_size self)))%nat)
  ∧ (∀ e, (draw self).2 = Some e →
       ∃ row t, row ∈ _grid self ∧ t ∈ row ∧ dict_get d t = None
                ∧ e = KeyError t).
Proof. apply draw_colours_spec. Qed.

Lemma wf_painted_board : wf painted_board.
Proof. split; [reflexivity|]. repeat constructor. Defined.

Lemma draw_needs_every_colour_witness :
  (draw painted_board).2 = None ∧ length (draw painted_board).1 = 46%nat.
Proof.
  destruct (draw_needs_every_colour painted_board color_dictionary
              wf_painted_board eq_refl) as (Hiff & Hlen & _).
  assert ((draw painted_board).2 = None) as Hok.
  { apply Hiff. repeat constructor; by eexists. }
  split; [exact Hok|]. exact (Hlen Hok).
Defined.

(** ** [draw] with the colours of [main] *)

Lemma is_pow2_le_512 (v : Z) :
  is_pow2 v → v ≤ 512 → is_Some (dict_get color_dictionary (Some v)).
Proof.
  intros (k & Hk & ->) Hle.
  assert (k < 10)%nat as Hlt.
  { destruct (decide (k < 10)%nat) as [|Hge]; [done|]. exfalso.
    assert (2 ^ 10 ≤ 2 ^ Z.of_nat k) by (apply Z.pow_le_mono_r; lia). lia. }
  do 10 (destruct k as [|k]; [by (lia || eexists)|]). lia.
Qed.

Lemma dict_get_color_le_512 (v : Z) :
  is_Some (dict_get color_dictionary (Some v)) → v ≤ 512.
Proof.
  unfold color_dictionary. simpl. intros [c Hc].
  repeat (case_bool_decide as H; [injection H as <-; lia|clear H]). done.
Qed.

Lemma is_pow2_gt_512 (v : Z) : is_pow2 v → 512 < v → 1024 ≤ v.
Proof.
  intros (k & Hk & ->) Hgt.
  assert (10 ≤ k)%nat as Hge.
  { destruct (decide (10 ≤ k)%nat) as [|Hlt]; [done|]. exfalso.
    assert (2 ^ Z.of_nat k ≤ 2 ^ 9) by (apply Z.pow_le_mono_r; lia). lia. }
  assert (2 ^ 10 ≤ 2 ^ Z.of_nat k) by (apply Z.pow_le_mono_r; lia). lia.
Qed.

(** X16. On a board the engine can reach, drawn with the colour dictionary
    of [main], [draw] returns exactly as long as the highest tile is at most
    512; with a higher tile on the board it raises [KeyError] for a tile of
    1024 or more. *)
Theorem draw_stops_above_512 (self : Board) :
  reachable self → _color_scheme self = Some color_dictionary →
  ((draw self).2 = None ↔ get_max self ≤ 512)
  ∧ (512 < get_max self →
     ∃ v, 1024 ≤ v ∧ (draw self).2 = Some (KeyError (Some v))).
Proof.
  intros Hr Hd. destruct (reachable_inv self Hr) as (Hwf & Hval & _).
  destruct (draw_colours_spec self color_dictionary Hwf Hd) as (Hiff & _ & Herr).
  destruct (get_max_rows (_grid self) 0) as (_ & Hmax & Hin).
  fold (get_max self) in Hmax, Hin.
  assert ((draw self).2 = None ↔ get_max self ≤ 512) as Hok.
  { rewrite Hiff. split.
    - intros Hall. destruct Hin as [->|(row & Hrow & Hm)]; [lia|].
      rewrite Forall_forall in Hall. specialize (Hall row Hrow).
      rewrite Forall_forall in Hall. by apply dict_get_color_le_512, Hall.
    - intros Hle. apply Forall_forall. intros row Hrow.
      apply Forall_forall. intros [v|] Ht; [|by eexists].
      apply is_pow2_le_512.
      + unfold valid_tiles in Hval. rewrite Forall_forall in Hval.
        specialize (Hval row Hrow). rewrite Forall_forall in Hval.
        by apply (Hval (Some v)).
      + specialize (Hmax row v Hrow Ht). lia. }
  split; [done|]. intros Hgt.
  destruct ((draw self).2) as [e|] eqn:He.
  - destruct (Herr e eq_refl) as (row & t & Hrow & Ht & Hnone & ->).
    destruct t as [v|]; [|done]. exists v. split; [|done].
    assert (is_pow2 v) as Hp.
    { unfold valid_tiles in Hval. rewrite Forall_forall in Hval.
      specialize (Hval row Hrow). rewrite Forall_forall in Hval.
      by apply (Hval (Some v)). }
    apply is_pow2_gt_512; [done|].
    destruct (decide (v ≤ 512)) as [Hle|]; [|lia].
    destruct (is_pow2_le_512 v Hp Hle) as [c Hc]. congruence.
  - assert (get_max self ≤ 512) by (by apply Hok). lia.
Qed.

Lemma play_reachable (moves : list (string * (nat * nat))) (board board' : Board) :
  reachable board → play moves board = Ok board' → reachable board'.
Proof.
  revert board. unfold play.
  induction moves as [|[direction [d_num d_loc]] moves IH]; intros board Hr; simpl.
  - by intros [= <-].
  - destruct (perform_move direction d_num d_loc board) as [b|e] eqn:Hm;
      [|discriminate].
    rewrite bind_Ok. apply IH.
    by apply (reachable_perform_move direction d_num d_loc board).
Qed.

Example started_board_run :
  (board ← __init__ 4 (Some color_dictionary); add_tile 1 0 board)
  = Ok started_board.
Proof. vm_compute. reflexivity. Qed.

Example play_to_512 :
  play (mjoin (replicate 75 round_lrud)) started_board = Ok board_512.
Proof. vm_compute. reflexivity. Qed.

Example play_to_1024 : play round_lrud board_512 = Ok board_1024.
Proof. vm_compute. reflexivity. Qed.

Lemma reachable_started_board : reachable started_board.
Proof.
  pose proof started_board_run as Hrun.
  destruct (__init__ 4 (Some color_dictionary)) as [board|e] eqn:Hinit;
    [|discriminate Hrun].
  rewrite bind_Ok in Hrun.
  apply (reachable_add_tile 1 0 board); [|exact Hrun].
  by apply (reachable_init 4 (Some color_dictionary)).
Qed.

Lemma reachable_board_512 : reachable board_512.
Proof.
  exact (play_reachable _ _ _ reachable_started_board play_to_512).
Qed.

Lemma reachable_board_1024 : reachable board_1024.
Proof.
  exact (play_reachable _ _ _ reachable_board_512 play_to_1024).
Qed.

Lemma draw_stops_above_512_witness :
  (draw board_512).2 = None
  ∧ ∃ v, 1024 ≤ v ∧ (draw board_1024).2 = Some (KeyError (Some v)).
Proof.
  split.
  - apply (proj1 (draw_stops_above_512 board_512 reachable_board_512 eq_refl)).
    vm_compute. discriminate.
  - apply (proj2 (draw_stops_above_512 board_1024 reachable_board_1024 eq_refl)).
    vm_compute. reflexivity.
Defined.

(** ** The event handlers *)

Lemma for_draw_extends {A : Type} (xs : list A)
    (body : A → list canvas_call → list canvas_call * option draw_error) :
  (∀ x log, ∃ rest, (body x log).1 = log ++ rest) →
  ∀ log, ∃ rest, (for_draw xs body log).1 = log ++ rest.
Proof.
  intros Hbody. induction xs as [|x xs IH]; intros log; simpl.
  - exists []. by rewrite app_nil_r.
  - destruct (Hbody x log) as [r1 H1].
    destruct (body x log) as [log' [e|]]; simpl in *; [by exists r1|].
    destruct (IH log') as [r2 H2]. exists (r1 ++ r2).
    by rewrite H2, H1, <- app_assoc.
Qed.

Lemma draw_cell_extends (self : Board) (ts : Q) (x y : Z) (log : list canvas_call) :
  ∃ rest, (draw_cell self ts x y log).1 = log ++ rest.
Proof.
  unfold draw_cell.
  destruct (grid_getitem self y x) as [t|e]; [|exists []; by rewrite app_nil_r].
  destruct (_color_scheme self) as [d|]; [|exists []; by rewrite app_nil_r].
  destruct (dict_get d t); [by eexists|exists []; by rewrite app_nil_r].
Qed.

(** Whatever happens in its loops, [draw] has made the calls of its first
    lines. *)
Lemma draw_header_first (self : Board) :
  ∃ rest, (draw self).1 = draw_header self ++ rest.
Proof.
  unfold draw.
  destruct (for_draw_extends (range (_size self)) (λ y log,
              for_draw (range (_size self)) (λ x log,
                draw_cell self (_tile_size self) x y log) log)) with
    (log := draw_header self) as [rest Hrest].
  { intros y log. apply for_draw_extends. intros x l. apply draw_cell_extends. }
  destruct (for_draw _ _ (draw_header self)) as [log [e|]]; cbn [fst snd] in *.
  - by exists rest.
  - exists (rest ++ [Update]). by rewrite Hrest, <- app_assoc.
Qed.

(** X17. The undo button is where it is drawn: [draw] always paints the
    rectangle at (415, 95) of width and height 35, and on a reachable board
    [mouse_input] undoes and redraws exactly for the clicks inside that
    rectangle; any other click changes nothing and draws nothing. *)
Theorem undo_button_is_where_it_is_drawn (x y : Z) (board : Board) :
  reachable board →
  Rectangle 415 95 35 35 "blue" ∈ (draw board).1
  ∧ ((415 ≤ x < 415 + 35 ∧ 95 ≤ y < 95 + 35) →
     ∃ board', undo board = Ok board'
               ∧ mouse_input x y board = (board', (draw board').1, (draw board').2))
  ∧ (¬ (415 ≤ x < 415 + 35 ∧ 95 ≤ y < 95 + 35) →
     mouse_input x y board = (board, [], None)).
Proof.
  intros Hr. split; [|split].
  - destruct (draw_header_first board) as [rest ->].
    apply elem_of_app. left. unfold draw_header. repeat constructor.
  - intros Hin. destruct (undo_returns board (reachable_inv board Hr)) as [b' Hun].
    exists b'. split; [done|]. unfold mouse_input.
    rewrite bool_decide_eq_true_2 by lia. rewrite Hun. by destruct (draw b').
  - intros Hout. unfold mouse_input. by rewrite bool_decide_eq_false_2 by lia.
Qed.

Lemma undo_button_is_where_it_is_drawn_witness :
  Rectangle 415 95 35 35 "blue" ∈ (draw seeded_board2).1
  ∧ (∃ board', undo seeded_board2 = Ok board'
               ∧ mouse_input 420 100 seeded_board2
                 = (board', (draw board').1, (draw board').2))
  ∧ mouse_input 450 100 seeded_board2 = (seeded_board2, [], None).
Proof.
  split; [|split].
  - apply (undo_button_is_where_it_is_drawn 0 0 seeded_board2 reachable_seeded_board2).
  - apply (undo_button_is_where_it_is_drawn 420 100 seeded_board2
             reachable_seeded_board2). lia.
  - apply (undo_button_is_where_it_is_drawn 450 100 seeded_board2
             reachable_seeded_board2). lia.
Defined.


